(** * Memory Scramble board (src/board.ts): a shallow embedding and its properties

    The board is the mutable ADT of [src/board.ts].  Its methods are embedded
    as functions in a small state-and-exception monad over the record [Board];
    the two kinds of callbacks the board fires (waking a parked [flipUp] and
    delivering a render to a change watcher) are recorded as events. *)

From Stdlib Require Import Ascii String DecimalString DecimalNat DecimalFacts.
From stdpp Require Import base option list strings gmap.

Set Default Proof Using "Type".
Local Open Scope nat_scope.

(** ** Text: the string primitives the parser and the printers use

    A JavaScript string is a sequence of code units; here a [string] is a
    sequence of code units below 256. *)

Module Text.

Definition LF : ascii := "010"%char.
Definition CR : ascii := "013"%char.

(** The class [\s], on code units below 256. *)
Definition is_space (a : ascii) : bool :=
match a with
| "009" | "010" | "011" | "012" | "013" | " " | "160" => true
| _ => false
end%char.

(** [/\s/.test(s)] *)
Fixpoint has_space (s : string) : bool :=
match s with
| "" => false
| String a s' => is_space a || has_space s'
end.

Definition is_digit (a : ascii) : bool :=
match a with
| "0" | "1" | "2" | "3" | "4" | "5" | "6" | "7" | "8" | "9" => true
| _ => false
end%char.

(** [s.replace(/\r\n/g, '\n')] *)
Fixpoint replace_crlf (s : string) : string :=
match s with
| "" => ""
| String a s' =>
match s' with
| String b s'' =>
if Ascii.eqb a CR && Ascii.eqb b LF
then String LF (replace_crlf s'')
else String a (replace_crlf s')
| "" => String a ""
end
end.

(** [s.replace(/\r/g, '\n')] *)
Fixpoint replace_cr (s : string) : string :=
match s with
| "" => ""
| String a s' => String (if Ascii.eqb a CR then LF else a) (replace_cr s')
end.

(** [s.split('\n')]: never the empty list. *)
Fixpoint split_lf (s : string) : list string :=
match s with
| "" => [""]
| String a s' =>
if Ascii.eqb a LF then "" :: split_lf s'
else match split_lf s' with
 | l :: ls => String a l :: ls
 | [] => [String a ""]
 end
end.

(** [lines.join('\n')] *)
Fixpoint join_lf (l : list string) : string :=
match l with
| [] => ""
| x :: xs =>
match xs with
| [] => x
| _ :: _ => x +:+ String LF (join_lf xs)
end
end.

(** [s.trim()] *)
Fixpoint trim_start (s : string) : string :=
match s with
| "" => ""
| String a s' => if is_space a then trim_start s' else s
end.

Fixpoint trim_end (s : string) : string :=
match s with
| "" => ""
| String a s' =>
match trim_end s' with
| "" => if is_space a then "" else String a ""
| t => String a t
end
end.

Definition trim (s : string) : string := trim_end (trim_start s).

(** The longest prefix of digits, and what follows it. *)
Fixpoint span_digits (s : string) : string * string :=
match s with
| "" => ("", "")
| String a s' =>
if is_digit a
then let '(d, rest) := span_digits s' in (String a d, rest)
else ("", s)
end.

(** [header.match(/^(\d+)x(\d+)$/)]: the two captured groups. *)
Definition match_header (header : string) : option (string * string) :=
let '(m1, rest) := span_digits header in
match rest with
| String "x" rest' =>
let '(m2, rest'') := span_digits rest' in
if bool_decide (m1 ≠ "") && bool_decide (m2 ≠ "") && bool_decide (rest'' = "")
then Some (m1, m2) else None
| _ => None
end.

(** [Number(m)] for a captured group of digits.  The value is exact: a
board is only built when [rows * cols] equals the number of card lines
of the file, which is far below the range where a JavaScript number
stops being exact. *)
Definition Number (m : string) : option nat :=
Nat.of_uint <$> NilEmpty.uint_of_string m.

(** An integer inside a template literal: [`${n}`]. *)
Definition show (n : nat) : string := NilEmpty.string_of_uint (Nat.to_uint n).

(** Lines, each one ended by a line feed. *)
Definition unlines (l : list string) : string := join_lf l +:+ String LF "".

(** Whether the last code unit is a line feed. *)
Fixpoint ends_with_lf (s : string) : bool :=
match s with
| "" => false
| String a s' =>
match s' with
| "" => Ascii.eqb a LF
| String _ _ => ends_with_lf s'
end
end.

End Text.

(** ** JavaScript [Map] with string keys

    A [Map] iterates in insertion order, and [set] on a key already present
    keeps the key's position: an association list without repeated keys. *)

Module JsMap.
Section JsMap.
Context {V : Type}.

Fixpoint get (k : string) (m : list (string * V)) : option V :=
match m with
| [] => None
| (k', v) :: m' => if decide (k = k') then Some v else get k m'
end.

Definition has (k : string) (m : list (string * V)) : bool :=
match get k m with Some _ => true | None => false end.

Fixpoint set (k : string) (v : V) (m : list (string * V)) : list (string * V) :=
match m with
| [] => [(k, v)]
| (k', v') :: m' =>
if decide (k = k') then (k, v) :: m' else (k', v') :: set k v m'
end.

Definition keys (m : list (string * V)) : list string := m.*1.

End JsMap.
End JsMap.

(** ** Players

    Modelled from the spec: [src/player.ts] (the class [Player] that
    [board.ts] imports) is not among the sources.  The spec's data model gives
    a player an id, an optional first card, an optional second card and a
    flip count, with [isFirstCardFlip() ≡ firstCard is none]; [clearCards]
    clears both card slots and [recordFlip] increments the count. *)

Abbreviation Pos := (nat * nat)%type.

Record Player := mkPlayer {
  p_id : string;
  p_firstCard : option Pos;
  p_secondCard : option Pos;
  p_flipCount : nat
}.

Definition newPlayer (id : string) : Player := mkPlayer id None None 0.
Definition getId (p : Player) : string := p_id p.
Definition getFirstCard (p : Player) : option Pos := p_firstCard p.
Definition getSecondCard (p : Player) : option Pos := p_secondCard p.
Definition isFirstCardFlip (p : Player) : bool :=
  match p_firstCard p with None => true | Some _ => false end.
Definition setFirstCard (pos : Pos) (p : Player) : Player :=
  mkPlayer (p_id p) (Some pos) (p_secondCard p) (p_flipCount p).
Definition setSecondCard (pos : Pos) (p : Player) : Player :=
  mkPlayer (p_id p) (p_firstCard p) (Some pos) (p_flipCount p).
Definition recordFlip (p : Player) : Player :=
  mkPlayer (p_id p) (p_firstCard p) (p_secondCard p) (S (p_flipCount p)).
Definition clearCards (p : Player) : Player :=
  mkPlayer (p_id p) None None (p_flipCount p).

(** ** The board *)

(** A [Deferred] is created only by a [flipUp] that parks itself (rule 1-D);
    what its promise resumes is the retry [flipUp(playerId, row, col)], so the
    embedding identifies a deferred with that parked call. *)
Record Deferred := mkDeferred {
  d_player : string;
  d_row : nat;
  d_col : nat
}.

(** A change watcher's callback, as an opaque handle. *)
Definition Resolver := nat.

(** [waitingForControl] is keyed by the text ["row,col"], which determines the
    pair [(row, col)] and which [checkRep] parses back into it; the embedding
    keys the map by the pair. *)
Record Board := mkBoard {
  rows : nat;
  cols : nat;
  cards : list (list (option string));
  faceUp : list (list bool);
  controller : list (list (option string));
  players : list (string * Player);
  waitingForControl : gmap Pos (list Deferred);
  lingering : gmap string (list Pos);
  changeResolvers : list (string * list Resolver)
}.

Definition with_cards (g : list (list (option string))) (b : Board) : Board :=
  mkBoard (rows b) (cols b) g (faceUp b) (controller b) (players b)
          (waitingForControl b) (lingering b) (changeResolvers b).
Definition with_faceUp (g : list (list bool)) (b : Board) : Board :=
  mkBoard (rows b) (cols b) (cards b) g (controller b) (players b)
          (waitingForControl b) (lingering b) (changeResolvers b).
Definition with_controller (g : list (list (option string))) (b : Board) : Board :=
  mkBoard (rows b) (cols b) (cards b) (faceUp b) g (players b)
          (waitingForControl b) (lingering b) (changeResolvers b).
Definition with_players (m : list (string * Player)) (b : Board) : Board :=
  mkBoard (rows b) (cols b) (cards b) (faceUp b) (controller b) m
          (waitingForControl b) (lingering b) (changeResolvers b).
Definition with_waitingForControl (m : gmap Pos (list Deferred)) (b : Board) : Board :=
  mkBoard (rows b) (cols b) (cards b) (faceUp b) (controller b) (players b)
          m (lingering b) (changeResolvers b).
Definition with_lingering (m : gmap string (list Pos)) (b : Board) : Board :=
  mkBoard (rows b) (cols b) (cards b) (faceUp b) (controller b) (players b)
          (waitingForControl b) m (changeResolvers b).
Definition with_changeResolvers (m : list (string * list Resolver)) (b : Board) : Board :=
  mkBoard (rows b) (cols b) (cards b) (faceUp b) (controller b) (players b)
          (waitingForControl b) (lingering b) m.

(** [g[r][c]]: [None] is JavaScript's [undefined]. *)
Definition cell {A : Type} (g : list (list A)) (r c : nat) : option A :=
  g !! r ≫= λ line, line !! c.

(** [g[r][c] = v], for an index inside the row; every such write of the
    source comes after [requireInBounds] or after a successful read of the
    same cell. *)
Definition set_cell {A : Type} (g : list (list A)) (r c : nat) (v : A) : list (list A) :=
  alter (λ line, <[c := v]> line) r g.

(** A [number] that a caller passes as a row or a column, as far as the board
    looks at one: an integer ([Number.isInteger]), or a number that is none
    (a fraction, [NaN], an infinity). *)
Inductive JsNumber :=
  | Integer (z : Z)
  | NotInteger.

(** A natural number is a [number]: the literals [0], [1], ... and the
    coordinates that the board has stored are passed as they are. *)
Definition number_of_nat (n : nat) : JsNumber := Integer (Z.of_nat n).
Coercion number_of_nat : nat >-> JsNumber.

(** The place in an array that a [number] selects once [requireInBounds] has
    accepted it (it is then an integer from [0] on). *)
Definition index (x : JsNumber) : nat :=
  match x with
  | Integer z => Z.to_nat z
  | NotInteger => 0
  end.

(** What the board throws.  The source throws [Error] with a message (and
    [AssertionError] from [assert]); a constructor stands for each message,
    named as in the spec's error table where it has a name. *)
Inductive Error :=
  | NotIntegers                 (* 'indices must be integers' *)
  | OutOfBounds                 (* 'out of bounds' *)
  | UnknownPlayer               (* 'unknown player: ...' *)
  | InvalidPlayerId             (* 'player id must be nonempty, no whitespace' *)
  | EmptySpace                  (* 'empty space' *)
  | Controlled                  (* 'card is controlled by another player' *)
  | SameCardTwice               (* 'cannot select the same card twice' *)
  | AlreadyFaceDown             (* 'already face down' *)
  | InvalidRow                  (* 'invalid row' *)
  | NoFirstCard                 (* 'internal error: no first card' *)
  | RepInvariantViolated        (* an assert of checkRep fails *)
  | InvalidFile                 (* 'empty file' *)
  | MissingHeader               (* 'missing header' *)
  | InvalidHeader               (* 'invalid header: ...' *)
  | InvalidDimensions           (* 'invalid dimensions: ...' *)
  | WrongCardCount (expected found : nat)   (* 'expected N cards, found M' *)
  | InvalidCard (line : nat).   (* 'invalid card at line N: ...' *)

(** What the board does to the outside: it resumes a parked [flipUp]
    ([waiter.resolve()]) or hands a render to a change watcher
    ([resolve(state)]).  ([console.log] lines are left out.) *)
Inductive Event :=
  | Resolved (d : Deferred)
  | Delivered (playerId : string) (resolver : Resolver) (state : string).

(** ** The monad of board methods: state, exceptions that keep the state
    reached, and the events fired so far. *)

Record Outcome (A : Type) := Out {
  result : Error + A;
  board_after : Board;
  events : list Event
}.
Arguments Out {A} _ _ _.
Arguments result {A} _.
Arguments board_after {A} _.
Arguments events {A} _.

Definition M (A : Type) : Type := Board → Outcome A.

Definition ret {A : Type} (a : A) : M A := λ b, Out (inr a) b [].
Definition throw {A : Type} (e : Error) : M A := λ b, Out (inl e) b [].
Definition bind {A B : Type} (m : M A) (f : A → M B) : M B := λ b,
  let o := m b in
  match result o with
  | inl e => Out (inl e) (board_after o) (events o)
  | inr a =>
      let o' := f a (board_after o) in
      Out (result o') (board_after o') (events o ++ events o')
  end.
Definition get : M Board := λ b, Out (inr b) b [].
Definition modify (f : Board → Board) : M unit := λ b, Out (inr ()) (f b) [].
Definition emit (evs : list Event) : M unit := λ b, Out (inr ()) b evs.

Notation "'let*' x ':=' m 'in' k" := (bind m (λ x, k))
  (at level 10, x pattern, m at level 100, k at level 200,
   format "'[v' 'let*'  x  ':='  m  'in' '/' k ']'").
Notation "m '>>' k" := (bind m (λ _, k))
  (at level 100, k at level 200, right associativity).

(** [for (const x of xs) body(x)] *)
Fixpoint for_each {A : Type} (xs : list A) (body : A → M unit) : M unit :=
  match xs with
  | [] => ret ()
  | x :: xs' => body x >> for_each xs' body
  end.

(** ** Helpers (the private methods) *)

(** [requireInBounds]: both indices must be integers, then inside the board;
    the two checks are made in this order. *)
Definition requireInBounds (row col : JsNumber) : M unit := λ b,
  match row, col with
  | Integer r, Integer c =>
      if bool_decide (r < 0 ∨ Z.of_nat (rows b) ≤ r ∨ c < 0 ∨ Z.of_nat (cols b) ≤ c)%Z
      then throw OutOfBounds b
      else ret () b
  | _, _ => throw NotIntegers b
  end.

(** [checkRep], as the conjunction of its assertions. *)
Definition check_cell (b : Board) (r c : nat) : bool :=
  match cell (cards b) r c, cell (faceUp b) r c, cell (controller b) r c with
  | Some None, Some up, Some ctrl =>
      bool_decide (up = false) && bool_decide (ctrl = None)
  | Some (Some card), _, ctrl =>
      bool_decide (card ≠ "") && negb (Text.has_space card)
      && match ctrl with
         | Some None => true
         | Some (Some id) => JsMap.has id (players b)
         | None => false
         end
  | _, _, _ => false
  end.

Definition check_row (b : Board) (r : nat) : bool :=
  bool_decide (length <$> cards b !! r = Some (cols b))
  && bool_decide (length <$> faceUp b !! r = Some (cols b))
  && bool_decide (length <$> controller b !! r = Some (cols b))
  && forallb (check_cell b r) (seq 0 (cols b)).

Definition in_bounds (b : Board) (pos : Pos) : Prop :=
  pos.1 < rows b ∧ pos.2 < cols b.

Definition checkRep (b : Board) : bool :=
  bool_decide (1 ≤ rows b) && bool_decide (1 ≤ cols b)
  && bool_decide (length (cards b) = rows b)
  && bool_decide (length (faceUp b) = rows b)
  && bool_decide (length (controller b) = rows b)
  && forallb (check_row b) (seq 0 (rows b))
  && forallb (λ id, bool_decide (id ≠ "") && negb (Text.has_space id))
             (JsMap.keys (players b))
  && bool_decide (map_Forall (λ key _, in_bounds b key) (waitingForControl b))
  && bool_decide (map_Forall (λ id positions,
                    JsMap.has id (players b) = true ∧ Forall (in_bounds b) positions)
                  (lingering b))
  && forallb (λ id, JsMap.has id (players b)) (JsMap.keys (changeResolvers b)).

Definition assertRep : M unit := λ b,
  if checkRep b then ret () b else throw RepInvariantViolated b.

(** A [Player] object is reached through the key under which [players] holds
    it (objects are never removed from that map); a method that mutates the
    object rewrites the entry. *)
Definition thePlayer (key : string) : M Player := λ b,
  match JsMap.get key (players b) with
  | Some p => ret p b
  | None => throw UnknownPlayer b
  end.

Definition updatePlayer (key : string) (f : Player → Player) : M unit :=
  modify (λ b,
    match JsMap.get key (players b) with
    | Some p => with_players (JsMap.set key (f p) (players b)) b
    | None => b
    end).

Definition pictureAt (row col : JsNumber) : M (option string) :=
  requireInBounds row col >>
  let* b := get in
  match cards b !! index row with
  | None => throw InvalidRow
  | Some cardsRow => ret (default None (cardsRow !! index col))
  end.

Definition isFaceUp (row col : JsNumber) : M bool :=
  requireInBounds row col >>
  let* b := get in
  match faceUp b !! index row with
  | None => throw InvalidRow
  | Some faceUpRow => ret (default false (faceUpRow !! index col))
  end.

Definition controllerAt (row col : JsNumber) : M (option string) :=
  requireInBounds row col >>
  let* b := get in
  match controller b !! index row with
  | None => throw InvalidRow
  | Some controllerRow => ret (default None (controllerRow !! index col))
  end.

Definition numRows (b : Board) : nat := rows b.
Definition numCols (b : Board) : nat := cols b.
Definition listPlayers (b : Board) : list string := JsMap.keys (players b).

Definition rememberLingering (playerId : string) (row col : nat) : M unit :=
  modify (λ b,
    let list := default [] (lingering b !! playerId) in
    with_lingering (<[playerId := list ++ [(row, col)]]> (lingering b)) b).

(** The cells of the grid in the order of the nested loops
    [for r < rows, for c < cols]. *)
Definition row_major (nrows ncols : nat) : list Pos :=
  r ← seq 0 nrows; (λ c, (r, c)) <$> seq 0 ncols.

(** [picturesDump]: a row that is missing is skipped. *)
Definition dump_row (b : Board) (r : nat) : list string :=
  match cards b !! r with
  | None => []
  | Some cardsRow =>
      (λ c, default "none" (mjoin (cardsRow !! c))) <$> seq 0 (cols b)
  end.

Definition picturesDump (b : Board) : string :=
  let out := (Text.show (rows b) +:+ "x" +:+ Text.show (cols b))
               :: (seq 0 (rows b) ≫= dump_row b) in
  Text.unlines out.

Definition toString (b : Board) : string :=
  "Board(" +:+ Text.show (rows b) +:+ "x" +:+ Text.show (cols b) +:+ ")".

(** [render]: inside its loops [pictureAt], [isFaceUp] and [controllerAt] are
    called in bounds; they read a cell as the public methods do ([?? null],
    [?? false]). *)
Definition render_cell (b : Board) (playerId : string) (pos : Pos) : string :=
  match default None (cell (cards b) pos.1 pos.2) with
  | None => "none"
  | Some pic =>
      if negb (default false (cell (faceUp b) pos.1 pos.2)) then "down"
      else
        let ctrl := default None (cell (controller b) pos.1 pos.2) in
        (if bool_decide (ctrl = Some playerId) then "my" else "up") +:+ " " +:+ pic
  end.

Definition render (b : Board) (playerId : string) : string :=
  let lines := (Text.show (rows b) +:+ "x" +:+ Text.show (cols b))
                 :: (render_cell b playerId <$> row_major (rows b) (cols b)) in
  Text.unlines lines.

(** ** Change watchers *)

Definition addChangeWatcher (playerId : string) (resolver : Resolver) : M unit :=
  modify (λ b,
    let list := default [] (JsMap.get playerId (changeResolvers b)) in
    with_changeResolvers
      (JsMap.set playerId (list ++ [resolver]) (changeResolvers b)) b).

(** What [notifyChange] fires: every resolver of every watching player, in
    the order of the map, with the render of the board for that player. *)
Definition delivered_to (watchers : list (string * list Resolver)) (b : Board)
  : list Event :=
  '(playerId, resolvers) ← watchers;
  (λ resolve, Delivered playerId resolve (render b playerId)) <$> resolvers.

Definition deliveries (b : Board) : list Event :=
  delivered_to (changeResolvers b) b.

Definition notifyChange : M unit :=
  let* b := get in
  emit (deliveries b) >>
  modify (with_changeResolvers []).

(** ** Bulk mutation

    The transform [f] is asynchronous and may depend on the outside world:
    it is a function of the picture and of a state [S] of its own, threaded
    through the calls in the order in which [map] makes them. *)
Section map.
Context {S : Type} (f : string → S → string * S).

Definition map_cell (acc : Board * S) (pos : Pos) : Board * S :=
let '(b, s) := acc in
match cell (cards b) pos.1 pos.2 with
| Some (Some pic) =>
let '(pic', s') := f pic s in
(with_cards (set_cell (cards b) pos.1 pos.2 (Some pic')) b, s')
| _ => (b, s)
end.

Definition map (s : S) : M S := λ b,
let '(b', s') := foldl map_cell (b, s) (row_major (rows b) (cols b)) in
(assertRep >> notifyChange >> ret s') b'.
End map.

(** ** Player registry *)

Definition registerPlayer (id : string) (displayName : option string) : M Player :=
  if bool_decide (id = "") || Text.has_space id then throw InvalidPlayerId else
  let* b := get in
  match JsMap.get id (players b) with
  | Some existing => ret existing
  | None =>
      let p := newPlayer id in
      modify (λ b, with_players (JsMap.set id p (players b)) b) >>
      assertRep >>
      ret p
  end.

(** ** Card flipping *)

Definition flipDownIfUncontrolled (row col : nat) : M unit :=
  modify (λ b,
    match cards b !! row, faceUp b !! row, controller b !! row with
    | Some cardsRow, Some faceUpRow, Some controllerRow =>
        let pic := cardsRow !! col in
        let isFaceUp := default false (faceUpRow !! col) in
        let ctrl := controllerRow !! col in
        if bool_decide (pic ≠ Some None) && isFaceUp && bool_decide (ctrl = Some None)
        then with_faceUp (set_cell (faceUp b) row col false) b
        else b
    | _, _, _ => b
    end).

(** [notifyWaiters]: the queue is emptied from its front, each waiter resolved
    as it is taken out, and the key is deleted. *)
Definition notifyWaiters (row col : nat) : M unit :=
  let* b := get in
  let waiters := default [] (waitingForControl b !! (row, col)) in
  emit (Resolved <$> waiters) >>
  modify (λ b, with_waitingForControl (delete (row, col) (waitingForControl b)) b).

(** The guarded release that rules 2-A, 2-B, 2-E and the same-card check
    repeat: [if (firstCtrlRow && firstCtrlRow[col] === playerId) {...}]. *)
Definition relinquish (playerId : string) (pos : Pos) : M unit :=
  let* b := get in
  if bool_decide (cell (controller b) pos.1 pos.2 = Some (Some playerId))
  then modify (λ b, with_controller (set_cell (controller b) pos.1 pos.2 None) b) >>
       notifyWaiters pos.1 pos.2
  else ret ().

(** Rule 3-A for one card of the pair: removed only if the player still
    controls it. *)
Definition removeIfControlled (id : string) (pos : Pos) : M unit :=
  let* b := get in
  match cards b !! pos.1, controller b !! pos.1, faceUp b !! pos.1 with
  | Some _, Some ctrlRow, Some _ =>
      if bool_decide (ctrlRow !! pos.2 = Some (Some id))
      then modify (λ b, with_cards (set_cell (cards b) pos.1 pos.2 None) b) >>
           modify (λ b, with_faceUp (set_cell (faceUp b) pos.1 pos.2 false) b) >>
           modify (λ b, with_controller (set_cell (controller b) pos.1 pos.2 None) b) >>
           notifyWaiters pos.1 pos.2
      else ret ()
  | _, _, _ => ret ()
  end.

(** The first block of [cleanupPreviousPlay]: the lingering cards of the
    player [pid] (rule 3-B). *)
Definition cleanLingering (pid : string) : M unit :=
  let* b := get in
  match lingering b !! pid with
  | Some (pos :: linger) =>
      for_each (pos :: linger) (λ '(row, col), flipDownIfUncontrolled row col) >>
      modify (λ b, with_lingering (delete pid (lingering b)) b)
  | _ => ret ()
  end.

(** The second block: the cards recorded by the previous play. *)
Definition cleanCards (pid : string) (firstCard secondCard : option Pos) : M unit :=
  match firstCard, secondCard with
  | Some first, Some second =>
      let* firstPic := pictureAt first.1 first.2 in
      let* secondPic := pictureAt second.1 second.2 in
      if bool_decide (firstPic = secondPic) && bool_decide (firstPic ≠ None)
      then (* 3-A *)
           removeIfControlled pid first >>
           removeIfControlled pid second
      else (* 3-B *)
           flipDownIfUncontrolled first.1 first.2 >>
           flipDownIfUncontrolled second.1 second.2
  | Some first, None => flipDownIfUncontrolled first.1 first.2
  | None, _ => ret ()
  end.

Definition cleanupPreviousPlay (player : string) : M unit :=
  let* p := thePlayer player in
  let firstCard := getFirstCard p in
  let secondCard := getSecondCard p in
  let pid := getId p in
  cleanLingering pid >>
  cleanCards pid firstCard secondCard >>
  updatePlayer player clearCards.

(** How a call of [flipUp] ends when it does not throw: it returns, or it is
    parked on a [Deferred] (rule 1-D) and will run [flipUp] again with the
    same arguments once the deferred is resolved. *)
Inductive Flip :=
  | Returned
  | Parked (d : Deferred).

Definition failSecond (playerId : string) (first : Pos) (e : Error) : M Flip :=
  relinquish playerId first >>
  rememberLingering playerId first.1 first.2 >>
  updatePlayer playerId clearCards >>
  throw e.

(** Rules 1-A to 1-D, applied once the previous play has been cleaned up. *)
Definition firstCardRules (playerId : string) (row col : nat) : M Flip :=
  let* b := get in
  let pic := cell (cards b) row col in
  if bool_decide (pic = Some None) then throw EmptySpace (* 1-A *) else
  let isFaceUp := default false (cell (faceUp b) row col) in
  let ctrl := cell (controller b) row col in
  if negb isFaceUp then (* 1-B *)
    modify (λ b, with_faceUp (set_cell (faceUp b) row col true) b) >>
    modify (λ b, with_controller (set_cell (controller b) row col (Some playerId)) b) >>
    updatePlayer playerId (setFirstCard (row, col)) >>
    updatePlayer playerId recordFlip >>
    assertRep >>
    notifyChange >>
    ret Returned
  else if bool_decide (ctrl = Some None) then (* 1-C *)
    modify (λ b, with_controller (set_cell (controller b) row col (Some playerId)) b) >>
    updatePlayer playerId (setFirstCard (row, col)) >>
    updatePlayer playerId recordFlip >>
    assertRep >>
    ret Returned
  else if bool_decide (ctrl ≠ Some (Some playerId)) then (* 1-D *)
    let deferred := mkDeferred playerId row col in
    modify (λ b,
      let queue := default [] (waitingForControl b !! (row, col)) in
      with_waitingForControl (<[(row, col) := queue ++ [deferred]]> (waitingForControl b)) b) >>
    ret (Parked deferred)
  else (* the player selects again a card it controls *)
    updatePlayer playerId (setFirstCard (row, col)) >>
    updatePlayer playerId recordFlip >>
    assertRep >>
    notifyChange >>
    ret Returned.

(** The branch [if (isFirstCard)] of [flipUp]. *)
Definition flipFirst (playerId : string) (row col : nat) : M Flip :=
  cleanupPreviousPlay playerId >>
  firstCardRules playerId row col.

(** The same-card check and rules 2-A to 2-E, for a player whose first card
    is [firstCard]. *)
Definition secondCardRules (playerId : string) (firstCard : Pos) (row col : nat) : M Flip :=
  if bool_decide (firstCard = (row, col))
  then failSecond playerId firstCard SameCardTwice else
  let* b := get in
  let pic := cell (cards b) row col in
  if bool_decide (pic = Some None)
  then failSecond playerId firstCard EmptySpace (* 2-A *) else
  let isFaceUp := default false (cell (faceUp b) row col) in
  let ctrl := cell (controller b) row col in
  if isFaceUp && bool_decide (ctrl ≠ Some None)
  then failSecond playerId firstCard Controlled (* 2-B *) else
  (if negb isFaceUp (* 2-C *)
   then modify (λ b, with_faceUp (set_cell (faceUp b) row col true) b)
   else ret ()) >>
  modify (λ b, with_controller (set_cell (controller b) row col (Some playerId)) b) >>
  updatePlayer playerId (setSecondCard (row, col)) >>
  updatePlayer playerId recordFlip >>
  let* firstPic := pictureAt firstCard.1 firstCard.2 in
  (if bool_decide (Some firstPic = pic) && bool_decide (firstPic ≠ None)
   then ret () (* 2-D *)
   else (* 2-E *)
     relinquish playerId firstCard >>
     modify (λ b, with_controller (set_cell (controller b) row col None) b) >>
     notifyWaiters row col) >>
  assertRep >>
  notifyChange >>
  ret Returned.

(** The branch [else] of [flipUp]. *)
Definition flipSecond (playerId : string) (row col : nat) : M Flip :=
  let* player := thePlayer playerId in
  match getFirstCard player with
  | None => throw NoFirstCard
  | Some firstCard => secondCardRules playerId firstCard row col
  end.

(** [flipUp], up to the point where it returns, throws, or parks itself. *)
Definition flipUp (playerId : string) (row col : JsNumber) : M Flip :=
  requireInBounds row col >>
  let* b := get in
  if negb (JsMap.has playerId (players b)) then throw UnknownPlayer else
  match cards b !! index row, faceUp b !! index row, controller b !! index row with
  | Some _, Some _, Some _ =>
      let* player := thePlayer playerId in
      (if bool_decide (getSecondCard player ≠ None)
       then cleanupPreviousPlay playerId else ret ()) >>
      let* player := thePlayer playerId in
      if isFirstCardFlip player
      then flipFirst playerId (index row) (index col)
      else flipSecond playerId (index row) (index col)
  | _, _, _ => throw InvalidRow
  end.

Definition flipDown (row col : JsNumber) : M unit :=
  requireInBounds row col >>
  let* b := get in
  match cards b !! index row, faceUp b !! index row, controller b !! index row with
  | Some cardsRow, Some faceUpRow, Some controllerRow =>
      if bool_decide (cardsRow !! index col = Some None) then throw EmptySpace else
      if negb (default false (faceUpRow !! index col)) then throw AlreadyFaceDown else
      modify (λ b, with_faceUp (set_cell (faceUp b) (index row) (index col) false) b) >>
      modify (λ b, with_controller
                     (set_cell (controller b) (index row) (index col) None) b) >>
      assertRep >>
      notifyChange
  | _, _, _ => throw InvalidRow
  end.

(** ** Construction from a file *)

(** The private constructor: [layout[k++] ?? null] with [k = r * cols + c]. *)
Definition layout_row (ncols : nat) (layout : list (option string)) (r : nat)
  : list (option string) :=
  (λ c, default None (layout !! (r * ncols + c))) <$> seq 0 ncols.

Definition newBoard (nrows ncols : nat) (layout : list (option string)) : Error + Board :=
  let b := mkBoard nrows ncols
             (layout_row ncols layout <$> seq 0 nrows)
             (replicate nrows (replicate ncols false))
             (replicate nrows (replicate ncols None))
             [] ∅ ∅ [] in
  if checkRep b then inr b else inl RepInvariantViolated.

(** The loop over the card lines; line [i] of the cards is line [i + 2] of
    the file. *)
Fixpoint read_cards (i : nat) (cardLines : list string) : Error + list (option string) :=
  match cardLines with
  | [] => inr []
  | tok :: rest =>
      if bool_decide (tok = "") || Text.has_space tok then inl (InvalidCard (i + 2))
      else match read_cards (S i) rest with
           | inl e => inl e
           | inr layout => inr (Some tok :: layout)
           end
  end.

(** The lines of the file: line ends normalised, the text split at line
    feeds, one trailing empty line removed. *)
Definition file_lines (text : string) : list string :=
  let norm := Text.replace_cr (Text.replace_crlf text) in
  let lines := Text.split_lf norm in
  if bool_decide (last lines = Some "") then removelast lines else lines.

(** [parseFromFile], from the text that [readFile] has produced. *)
Definition parseFromFile (text : string) : Error + Board :=
  match file_lines text with
  | [] => inl InvalidFile
  | headerLine :: cardLines =>
      let header := Text.trim headerLine in
      if bool_decide (header = "") then inl MissingHeader else
      match Text.match_header header with
      | None => inl InvalidHeader
      | Some (m1, m2) =>
          match Text.Number m1, Text.Number m2 with
          | Some nrows, Some ncols =>
              if bool_decide (nrows < 1 ∨ ncols < 1) then inl InvalidDimensions else
              let expected := nrows * ncols in
              if bool_decide (length cardLines ≠ expected)
              then inl (WrongCardCount expected (length cardLines)) else
              match read_cards 0 cardLines with
              | inl e => inl e
              | inr layout => newBoard nrows ncols layout
              end
          | _, _ => inl InvalidDimensions
          end
      end
  end.

(** * Vocabulary of the properties *)

(** [preserves I m]: whatever way [m] ends (it returns or it throws), the
    board it leaves satisfies [I] if the board it started from did. *)
Definition preserves {A : Type} (I : Board → Prop) (m : M A) : Prop :=
  ∀ b, I b → I (board_after (m b)).

(** A grid of [nrows] rows that all have [ncols] cells. *)
Definition shape {A : Type} (nrows ncols : nat) (g : list (list A)) : Prop :=
  length g = nrows ∧ ∀ r line, g !! r = Some line → length line = ncols.

(** The three grids have the declared shape; an empty cell is face down and
    uncontrolled; a controlled cell is face up, holds a card, and its
    controller is registered; a player object sits under its own id and has no
    second card without a first. *)
Record Consistent (b : Board) : Prop := mkConsistent {
  c_cards : shape (rows b) (cols b) (cards b);
  c_faceUp : shape (rows b) (cols b) (faceUp b);
  c_controller : shape (rows b) (cols b) (controller b);
  c_empty : ∀ r c, cell (cards b) r c = Some None →
      cell (faceUp b) r c = Some false ∧ cell (controller b) r c = Some None;
  c_ctrl : ∀ r c id, cell (controller b) r c = Some (Some id) →
      cell (faceUp b) r c = Some true
      ∧ (∃ pic, cell (cards b) r c = Some (Some pic))
      ∧ JsMap.has id (players b) = true;
  c_players : ∀ k p, JsMap.get k (players b) = Some p →
      p_id p = k ∧ (p_firstCard p = None → p_secondCard p = None)
}.

(** The board after the cell [(r, c)] has been rewritten in the three grids. *)
Definition rewrite_cell (r c : nat) (card : option string) (up : bool)
    (ctrl : option string) (b : Board) : Board :=
  with_controller (set_cell (controller b) r c ctrl)
    (with_faceUp (set_cell (faceUp b) r c up)
       (with_cards (set_cell (cards b) r c card) b)).

(** An update of a player object that keeps its id and does not leave a
    second card without a first. *)
Definition keeps_player (f : Player → Player) : Prop :=
  ∀ p, p_id (f p) = p_id p
       ∧ ((p_firstCard p = None → p_secondCard p = None) →
          p_firstCard (f p) = None → p_secondCard (f p) = None).

(** The player [id] is registered. *)
Definition registered (id : string) (b : Board) : Prop :=
  JsMap.has id (players b) = true.

(** The boards that the public operations can produce: a parsed board, and
    the board any public method leaves, whether it returns or throws. *)
Inductive reachable : Board → Prop :=
  | reach_parseFromFile text b :
      parseFromFile text = inr b → reachable b
  | reach_registerPlayer b id displayName :
      reachable b → reachable (board_after (registerPlayer id displayName b))
  | reach_flipUp b playerId row col :
      reachable b → reachable (board_after (flipUp playerId row col b))
  | reach_flipDown b row col :
      reachable b → reachable (board_after (flipDown row col b))
  | reach_map b (S : Type) (f : string → S → string * S) (s : S) :
      reachable b → reachable (board_after (map f s b))
  | reach_addChangeWatcher b playerId resolver :
      reachable b → reachable (board_after (addChangeWatcher playerId resolver b)).

(** The invariants of the spec, read through the public queries. *)
Definition cell_invariant (b : Board) (r c : nat) : Prop :=
  ∃ card up ctrl,
    result (pictureAt r c b) = inr card
    ∧ result (isFaceUp r c b) = inr up
    ∧ result (controllerAt r c b) = inr ctrl
    ∧ (card = None → up = false ∧ ctrl = None)
    ∧ (∀ id, ctrl = Some id → up = true ∧ card ≠ None ∧ id ∈ listPlayers b).

(** A player has no second card without a first. *)
Definition player_invariant (p : Player) : Prop :=
  p_firstCard p = None → p_secondCard p = None.

(** The three invariants, for every cell and every player of the board. *)
Definition board_invariants (b : Board) : Prop :=
  (∀ r c, r < rows b → c < cols b → cell_invariant b r c)
  ∧ (∀ id p, JsMap.get id (players b) = Some p → player_invariant p).

(** A 2x2 file with the pairs [A] and [B]. *)
Definition two_pairs : string := Text.unlines ["2x2"; "A"; "A"; "B"; "B"].

(** The board parsed from [two_pairs]. *)
Definition two_pairs_board : Board :=
  mkBoard 2 2 [[Some "A"; Some "A"]; [Some "B"; Some "B"]]
    [[false; false]; [false; false]] [[None; None]; [None; None]] [] ∅ ∅ [].

(** Running a method on a board, keeping the board only. *)
Definition after {A : Type} (m : M A) (b : Board) : Board := board_after (m b).

(** [alice] registers and turns over the two cards [A]: a matched pair
    (rule 2-D). *)
Definition alice_matched : Board :=
  after (flipUp "alice" 0 1)
    (after (flipUp "alice" 0 0)
       (after (registerPlayer "alice" None) two_pairs_board)).

(** A picture or an id as [checkRep] wants it: not empty, no white space. *)
Definition valid_token (s : string) : Prop := s ≠ "" ∧ Text.has_space s = false.

(** What [checkRep] asserts beyond the shape of the grids and the
    consistency of the cells. *)
Record Rep (b : Board) : Prop := mkRep {
  r_rows : 1 ≤ rows b;
  r_cols : 1 ≤ cols b;
  r_cards : ∀ r c pic, cell (cards b) r c = Some (Some pic) → valid_token pic;
  r_ids : Forall valid_token (JsMap.keys (players b));
  r_waiting : map_Forall (λ key _, in_bounds b key) (waitingForControl b);
  r_lingering :
    map_Forall (λ id positions,
                  JsMap.has id (players b) = true ∧ Forall (in_bounds b) positions)
               (lingering b);
  r_watchers : Forall (λ id, registered id b) (JsMap.keys (changeResolvers b))
}.

(** The cards that the players have recorded are cells of the board. *)
Definition Positions (b : Board) : Prop :=
  ∀ k p pos, JsMap.get k (players b) = Some p →
    p_firstCard p = Some pos ∨ p_secondCard p = Some pos → in_bounds b pos.

(** A board in good order. *)
Definition Valid (b : Board) : Prop := Consistent b ∧ Rep b ∧ Positions b.

(** [Good cs ids]: the representation invariant holds, the recorded cards
    are cells of the board, and so are the cells [cs]; the players [ids] are
    registered. *)
Definition Good (cs : list Pos) (ids : list string) (b : Board) : Prop :=
  Rep b ∧ Positions b ∧ Forall (in_bounds b) cs ∧ Forall (λ id, registered id b) ids.

(** [alice] holds the card at (0,0) and [bob] is parked on it (rule 1-D). *)
Definition bob_parked : Board :=
  after (flipUp "bob" 0 0)
    (after (flipUp "alice" 0 0)
       (after (registerPlayer "bob" None)
          (after (registerPlayer "alice" None) two_pairs_board))).

(** Modelled on the spec's words: the transform applied to every non-empty
    card of a list of cells exactly once, from the first cell to the last,
    each picture replaced in place and empty cells left as they are. *)
Fixpoint transform_cards {S : Type} (f : string → S → string * S)
    (cells : list (option string)) (s : S) : list (option string) * S :=
  match cells with
  | [] => ([], s)
  | None :: rest =>
      let '(rest', s') := transform_cards f rest s in (None :: rest', s')
  | Some pic :: rest =>
      let '(pic', s1) := f pic s in
      let '(rest', s2) := transform_cards f rest s1 in
      (Some pic' :: rest', s2)
  end.

(** The same over a grid, row after row. *)
Fixpoint transform_grid {S : Type} (f : string → S → string * S)
    (g : list (list (option string))) (s : S) : list (list (option string)) * S :=
  match g with
  | [] => ([], s)
  | line :: rest =>
      let '(line', s1) := transform_cards f line s in
      let '(rest', s2) := transform_grid f rest s1 in
      (line' :: rest', s2)
  end.

(** A file with one card. *)
Definition one_card : string := Text.unlines ["1x1"; "A"].

(** The board parsed from [one_card]. *)
Definition one_card_board : Board :=
  mkBoard 1 1 [[Some "A"]] [[false]] [[None]] [] ∅ ∅ [].

(** A transform that blanks every picture. *)
Definition blank (pic : string) (s : unit) : string * unit := ("", s).

(** A transform that doubles every picture and records the calls. *)
Definition double (pic : string) (calls : list string) : string * list string :=
  (pic +:+ pic, calls ++ [pic]).

(** Modelled on the spec's words: the normalised contents of a file, that is
    its text with CRLF and stray CR replaced by LF, ending in exactly one
    trailing LF (added when the file has none). *)
Definition normalised (text : string) : string :=
  let norm := Text.replace_cr (Text.replace_crlf text) in
  if Text.ends_with_lf norm then norm else norm +:+ String Text.LF "".

(** A file whose header is written with a leading zero. *)
Definition zero_padded : string := Text.unlines ["01x1"; "A"].

(** The card grid, the controllers, the queues and the players, as observed by
    a part of a method that only turns cards face down and edits the
    lingering lists. *)
Definition same_but_faces (b0 b : Board) : Prop :=
  rows b = rows b0 ∧ cols b = cols b0 ∧ cards b = cards b0
  ∧ controller b = controller b0 ∧ players b = players b0
  ∧ waitingForControl b = waitingForControl b0
  ∧ changeResolvers b = changeResolvers b0.

(** A method that neither throws nor fires an event. *)
Definition quiet {A : Type} (m : M A) : Prop :=
  ∀ b, ∃ a, result (m b) = inr a ∧ events (m b) = [].

(** What the cleanup of the recorded cards leaves untouched. *)
Definition same_registry (b0 b : Board) : Prop :=
  rows b = rows b0 ∧ cols b = cols b0 ∧ players b = players b0
  ∧ lingering b = lingering b0 ∧ changeResolvers b = changeResolvers b0.

(** A call of [flipUp] by a player that has no first card, or that has
    completed a play, is a first flip: the previous play is cleaned up (once:
    the second cleanup finds nothing left) and rules 1-A to 1-D apply. *)
Definition first_flip (p : Player) : Prop :=
  p_firstCard p = None ∨ p_secondCard p ≠ None.

(** After the pair of [alice]: [bob] turns the card at (1,0) and selects it
    again, which leaves the card face up in his lingering list; then [alice]
    starts a new play, which removes her pair. *)
Definition bob_lingers : Board :=
  after (flipUp "alice" 1 1)
    (after (flipUp "bob" 1 0)
       (after (flipUp "bob" 1 0)
          (after (registerPlayer "bob" None) alice_matched))).

(** [emits P m]: every event that [m] fires satisfies [P]. *)
Definition emits {A : Type} (P : Event → Prop) (m : M A) : Prop :=
  ∀ b, Forall P (events (m b)).

(** The event is the resolution of a deferred. *)
Definition is_Resolved (e : Event) : Prop := ∃ d, e = Resolved d.

(** The board once the player has taken the card at [(row, col)] as its first
    card; [turn] says whether the card had to be turned face up. *)
Definition first_taken (playerId : string) (row col : nat) (p : Player) (turn : bool)
    (b : Board) : Board :=
  let b' := if turn then with_faceUp (set_cell (faceUp b) row col true) b else b in
  let b'' := with_controller (set_cell (controller b') row col (Some playerId)) b' in
  with_players (JsMap.set playerId (recordFlip (setFirstCard (row, col) p)) (players b'')) b''.

(** [alice] is registered and watches the board of two pairs. *)
Definition alice_watches : Board :=
  after (addChangeWatcher "alice" 7)
    (after (registerPlayer "alice" None) two_pairs_board).

(** [tracks I m]: an invariant of the board together with the events fired
    so far is kept by [m]. *)
Definition tracks {A : Type} (I : Board → list Event → Prop) (m : M A) : Prop :=
  ∀ b evs, I b evs → I (board_after (m b)) (evs ++ events (m b)).

(** [Notified b0 b evs]: relative to the board [b0] at the start, every cell
    either has the controller and the queue it had, or has had its queue
    removed and every waiter of that queue resolved. *)
Definition Notified (b0 b : Board) (evs : list Event) : Prop :=
  ∀ pos : Pos,
    (cell (controller b) pos.1 pos.2 = cell (controller b0) pos.1 pos.2
     ∧ waitingForControl b !! pos = waitingForControl b0 !! pos)
    ∨ (waitingForControl b !! pos = None
       ∧ ∀ d, d ∈ default [] (waitingForControl b0 !! pos) → Resolved d ∈ evs).

(** [throws E m]: every error that [m] throws satisfies [E]. *)
Definition throws {A : Type} (E : Error → Prop) (m : M A) : Prop :=
  ∀ b e, result (m b) = inl e → E e.

(** The failures that do not come from a rule of the game: a broken
    representation invariant, or an index or a player that does not exist. *)
Definition internal (e : Error) : Prop :=
  e = RepInvariantViolated ∨ e = OutOfBounds ∨ e = InvalidRow ∨ e = UnknownPlayer
  ∨ e = NoFirstCard.


(** The board once the player has taken the card at [(row, col)] as its
    second card; [turn] says whether the card had to be turned face up
    (rule 2-C). *)
Definition second_taken (playerId : string) (row col : nat) (p : Player) (turn : bool)
    (b : Board) : Board :=
  let b' := if turn then with_faceUp (set_cell (faceUp b) row col true) b else b in
  let b'' := with_controller (set_cell (controller b') row col (Some playerId)) b' in
  with_players (JsMap.set playerId (recordFlip (setSecondCard (row, col) p)) (players b'')) b''.

(** With [bob] parked on [(0, 0)], [alice] matches [(0, 0)] with [(0, 1)];
    then [carol] registers. *)
Definition carol_arrives : Board :=
  board_after (registerPlayer "carol" None
                 (board_after (flipUp "alice" 0 1 bob_parked))).

(** [blames m]: when [m] fails on the representation invariant, the board it
    leaves is one that [checkRep] rejects. *)
Definition blames {A : Type} (m : M A) : Prop :=
  ∀ b, result (m b) = inl RepInvariantViolated → checkRep (board_after (m b)) = false.

(** The failures of [flipUp] that its documentation lists for a flip that
    passes the checks of the indices and of the player. *)
Definition rule_failure (e : Error) : Prop :=
  e = EmptySpace ∨ e = Controlled ∨ e = SameCardTwice.

(** The board once the card at [(row, col)] has been turned face down and
    released, as [flipDown] writes it. *)
Definition turned_down (row col : nat) (b : Board) : Board :=
  with_controller (set_cell (controller b) row col None)
    (with_faceUp (set_cell (faceUp b) row col false) b).

(** What the cell [pos] shows to the player [playerId]: whether it holds a
    card; if it does, whether the card is face up; and if it is, its picture
    and whether the player controls it. *)
Definition shown (b : Board) (playerId : string) (pos : Pos)
  : option (option (string * bool)) :=
  match default None (cell (cards b) pos.1 pos.2) with
  | None => None
  | Some pic =>
      Some (if default false (cell (faceUp b) pos.1 pos.2)
            then Some (pic, bool_decide (default None (cell (controller b) pos.1 pos.2)
                                         = Some playerId))
            else None)
  end.

(** Whether the code unit [a] occurs in [s]. *)
Fixpoint occurs (a : ascii) (s : string) : bool :=
  match s with
  | "" => false
  | String c s' => Ascii.eqb c a || occurs a s'
  end.

(** Whether [s] is made of decimal digits. *)
Fixpoint all_digits (s : string) : bool :=
  match s with
  | "" => true
  | String c s' => Text.is_digit c && all_digits s'
  end.

(** The board once [deferred] has been pushed on the queue of the cell
    [(row, col)]. *)
Definition parked_on (row col : nat) (deferred : Deferred) (b : Board) : Board :=
  with_waitingForControl
    (<[(row, col) := default [] (waitingForControl b !! (row, col)) ++ [deferred]]>
       (waitingForControl b)) b.

(** The board once the cell [pos] has been released: its controller cleared
    and its queue of waiters deleted. *)
Definition released (pos : Pos) (b : Board) : Board :=
  with_waitingForControl (delete pos (waitingForControl b))
    (with_controller (set_cell (controller b) pos.1 pos.2 None) b).

(** The second card taken and, the pictures being different, both cards
    released. *)
Definition mismatched (playerId : string) (first : Pos) (row col : nat) (p : Player)
    (b : Board) : Board :=
  released (row, col)
    (released first
       (second_taken playerId row col p
          (negb (default false (cell (faceUp b) row col))) b)).

(** The card at [pos] is face down and nobody controls it. *)
Definition Down (pos : Pos) (b : Board) : Prop :=
  cell (faceUp b) pos.1 pos.2 = Some false
  ∧ cell (controller b) pos.1 pos.2 = Some None.

(** The card at [pos] is face up and [q] controls it. *)
Definition Held (pos : Pos) (q : string) (b : Board) : Prop :=
  cell (faceUp b) pos.1 pos.2 = Some true
  ∧ cell (controller b) pos.1 pos.2 = Some (Some q).

(** What the three grids hold at [pos]. *)
Definition cell_view (pos : Pos) (b : Board)
  : option (option string) * option bool * option (option string) :=
  (cell (cards b) pos.1 pos.2, cell (faceUp b) pos.1 pos.2,
   cell (controller b) pos.1 pos.2).

(** With [bob] parked on [(0, 0)], [alice], who holds [(0, 0)], turns over
    [(1, 0)]: the pictures differ. *)
Definition alice_mismatched : Board := board_after (flipUp "alice" 1 0 bob_parked).

(** A cell and what the transform [f] makes of it: an empty cell stays
    empty, a picture becomes a picture that [f] returns for it. *)
Definition mapped {S : Type} (f : string → S → string * S)
    (old new : option string) : Prop :=
  match old, new with
  | None, None => True
  | Some pic, Some pic' => ∃ s, pic' = (f pic s).1
  | _, _ => False
  end.

(** The cell [pos] holds [v] in the three grids and its queue of waiters is
    [w]. *)
Definition Untouched (pos : Pos)
    (v : option (option string) * option bool * option (option string))
    (w : option (list Deferred)) (b : Board) : Prop :=
  cell_view pos b = v ∧ waitingForControl b !! pos = w.

(** The board once the player has given up its first card: the card
    released, remembered on the player's lingering list, and the player's
    record cleared. *)
Definition given_up (playerId : string) (first : Pos) (p : Player) (b : Board) : Board :=
  with_players (JsMap.set playerId (clearCards p) (players b))
    (with_lingering
       (<[playerId := default [] (lingering b !! playerId) ++ [first]]> (lingering b))
       (released first b)).

(** After [alice] has matched [(0, 0)] with [(0, 1)], the card at [(0, 0)]
    is turned down by [flipDown]. *)
Definition pair_broken : Board := board_after (flipDown 0 0 alice_matched).



(** The number is an integer ([Number.isInteger]). *)
Definition is_integer (x : JsNumber) : Prop :=
  match x with
  | Integer _ => True
  | NotInteger => False
  end.

(** The number is an index of an array of length [n]: an integer from [0] to
    [n - 1]. *)
Definition within (n : nat) (x : JsNumber) : Prop :=
  match x with
  | Integer z => (0 ≤ z < Z.of_nat n)%Z
  | NotInteger => False
  end.

(** * Properties *)

(** ** Facts about [JsMap] *)

Section JsMap_facts.
Import JsMap.
Context {V : Type}.

Lemma JsMap_get_set_eq k v (m : list (string * V)) : get k (set k v m) = Some v.
Proof.
induction m as [|[k' v'] m IH]; simpl.
- by rewrite decide_True.
- destruct (decide (k = k')) as [->|Hne]; simpl.
+ by rewrite decide_True.
+ by rewrite decide_False.
Qed.

Lemma JsMap_get_set_ne k k' v (m : list (string * V)) : k ≠ k' → get k' (set k v m) = get k' m.
Proof.
intros Hne. induction m as [|[k0 v0] m IH]; simpl.
- by rewrite decide_False.
- destruct (decide (k = k0)) as [->|Hne0]; simpl.
+ by rewrite !decide_False.
+ destruct (decide (k' = k0)); [done | apply IH].
Qed.

Lemma JsMap_get_set k k' v (m : list (string * V)) :
get k' (set k v m) = if decide (k = k') then Some v else get k' m.
Proof.
destruct (decide (k = k')) as [<-|Hne];
[apply JsMap_get_set_eq | by apply JsMap_get_set_ne].
Qed.

Lemma JsMap_has_set k k' v (m : list (string * V)) :
has k' (set k v m) = bool_decide (k = k') || has k' m.
Proof.
unfold has. rewrite JsMap_get_set.
destruct (decide (k = k')) as [->|Hne].
- by rewrite bool_decide_eq_true_2.
- by rewrite bool_decide_eq_false_2.
Qed.

Lemma JsMap_has_true k (m : list (string * V)) : has k m = true ↔ is_Some (get k m).
Proof.
unfold has. destruct (get k m); split; by try intros [? ?].
Qed.

Lemma JsMap_get_elem_of k v (m : list (string * V)) : get k m = Some v → (k, v) ∈ m.
Proof.
induction m as [|[k' v'] m IH]; simpl; [done|].
destruct (decide (k = k')) as [->|Hne].
- intros [= ->]. left.
- intros H. right. by apply IH.
Qed.

Lemma JsMap_elem_of_get k v (m : list (string * V)) : (k, v) ∈ m → is_Some (get k m).
Proof.
induction m as [|[k' v'] m IH]; simpl.
- by intros ?%elem_of_nil.
- intros [[= <- <-]|Hin]%elem_of_cons.
+ rewrite decide_True; [by eexists | done].
+ destruct (decide (k = k')); [by eexists | by apply IH].
Qed.

Lemma JsMap_Forall_set (P : string * V → Prop) k v (m : list (string * V)) :
P (k, v) → Forall P m → Forall P (set k v m).
Proof.
intros Hk. induction 1 as [|[k' v'] m Hx Hm IH]; simpl.
- by constructor.
- destruct (decide (k = k')); constructor; auto.
Qed.

Lemma JsMap_keys_set_has k v (m : list (string * V)) : has k m = true → keys (set k v m) = keys m.
Proof.
unfold has, keys. induction m as [|[k' v'] m IH]; simpl; [done|].
destruct (decide (k = k')) as [->|Hne]; simpl; [done|].
intros H. f_equal. by apply IH.
Qed.

End JsMap_facts.

(** ** Numbers as indices *)

Lemma index_nat (n : nat) : index n = n.
Proof. apply Nat2Z.id. Qed.

(** On natural numbers only the upper bounds are left to check. *)
Lemma requireInBounds_nat (row col : nat) b :
  requireInBounds row col b
  = if bool_decide (rows b ≤ row ∨ cols b ≤ col) then throw OutOfBounds b else ret () b.
Proof.
  unfold requireInBounds, number_of_nat.
  by rewrite (bool_decide_ext _ (rows b ≤ row ∨ cols b ≤ col)) by lia.
Qed.

(** A pair of numbers is a pair of natural numbers, or [requireInBounds]
    refuses it. *)
Lemma requireInBounds_number (row col : JsNumber) b :
  (∃ r c : nat, row = r ∧ col = c)
  ∨ (∃ e, (e = NotIntegers ∨ e = OutOfBounds)
          ∧ requireInBounds row col b = Out (inl e) b []).
Proof.
  destruct row as [r|], col as [c|]; try (right; exists NotIntegers; by split; [left|]).
  destruct (decide (r < 0 ∨ c < 0)%Z) as [Hneg|Hpos].
  - right. exists OutOfBounds. split; [by right|].
    unfold requireInBounds. rewrite bool_decide_eq_true_2; [done | lia].
  - left. exists (Z.to_nat r), (Z.to_nat c). unfold number_of_nat.
    rewrite !Z2Nat.id by lia. done.
Qed.

(** ** Running the monad *)

Lemma bind_inr {A B : Type} (m : M A) (f : A → M B) (b : Board) (a : A) :
  result (m b) = inr a →
  bind m f b = Out (result (f a (board_after (m b))))
                   (board_after (f a (board_after (m b))))
                   (events (m b) ++ events (f a (board_after (m b)))).
Proof. unfold bind. by intros ->. Qed.

Lemma bind_inl {A B : Type} (m : M A) (f : A → M B) (b : Board) (e : Error) :
  result (m b) = inl e →
  bind m f b = Out (inl e) (board_after (m b)) (events (m b)).
Proof. unfold bind. by intros ->. Qed.

Lemma ret_bind {A B : Type} (a : A) (k : A → M B) b : bind (ret a) k b = k a b.
Proof. unfold bind, ret. simpl. by destruct (k a b). Qed.

Section preserves.
Context (I : Board → Prop).

Lemma preserves_ret {A : Type} (a : A) : preserves I (ret a).
Proof. by intros b Hb. Qed.

Lemma preserves_throw {A : Type} (e : Error) : preserves I (throw (A:=A) e).
Proof. by intros b Hb. Qed.

Lemma preserves_get : preserves I get.
Proof. by intros b Hb. Qed.

Lemma preserves_emit evs : preserves I (emit evs).
Proof. by intros b Hb. Qed.

Lemma preserves_bind {A B : Type} (m : M A) (f : A → M B) :
preserves I m → (∀ a, preserves I (f a)) → preserves I (bind m f).
Proof.
intros Hm Hf b Hb. unfold bind.
destruct (result (m b)) as [e|a] eqn:Hr; simpl; [by apply Hm|].
apply Hf. by apply Hm.
Qed.

(** After [get], the continuation may use what is known of the board. *)
Lemma preserves_get_bind {B : Type} (f : Board → M B) :
(∀ b, I b → I (board_after (f b b))) → preserves I (bind get f).
Proof. intros Hf b Hb. unfold bind. simpl. by apply Hf. Qed.

Lemma preserves_modify (g : Board → Board) :
(∀ b, I b → I (g b)) → preserves I (modify g).
Proof. intros Hg b Hb. by apply Hg. Qed.

Lemma preserves_for_each {A : Type} (xs : list A) (body : A → M unit) :
(∀ x, preserves I (body x)) → preserves I (for_each xs body).
Proof.
intros Hbody. induction xs as [|x xs IH]; simpl.
- apply preserves_ret.
- apply preserves_bind; [apply Hbody | by intros _].
Qed.

Lemma preserves_if {A : Type} (c : bool) (m1 m2 : M A) :
preserves I m1 → preserves I m2 → preserves I (if c then m1 else m2).
Proof. by destruct c. Qed.
End preserves.

(** ** Grids *)

Section grids.
Context {A : Type}.
Implicit Types (g : list (list A)) (v : A).

Lemma cell_Some g r c x :
cell g r c = Some x ↔ ∃ line, g !! r = Some line ∧ line !! c = Some x.
Proof.
unfold cell. destruct (g !! r) as [line|]; simpl.
- split; [by exists line | by intros (? & [= <-] & ?)].
- split; [done | by intros (? & ? & ?)].
Qed.

Lemma cell_row g r c line : g !! r = Some line → cell g r c = line !! c.
Proof. unfold cell. by intros ->. Qed.

Lemma cell_set_cell g r c v r' c' :
cell (set_cell g r c v) r' c' =
if decide (r = r' ∧ c = c') then (λ _, v) <$> cell g r c else cell g r' c'.
Proof.
unfold cell, set_cell.
destruct (decide (r = r')) as [<-|Hr].
- rewrite list_lookup_alter_eq. destruct (g !! r) as [line|] eqn:Hg; simpl.
+ destruct (decide (c = c')) as [<-|Hc].
* rewrite (decide_True (P:=r = r ∧ c = c)) by done.
destruct (line !! c) eqn:Hl; simpl.
-- apply list_lookup_insert_eq. by eapply lookup_lt_Some.
-- apply lookup_ge_None. rewrite length_insert.
 by apply lookup_ge_None.
* rewrite (decide_False (P:=r = r ∧ c = c')) by (by intros [? ?]).
by rewrite list_lookup_insert_ne.
+ by case_decide.
- rewrite list_lookup_alter_ne by done.
by rewrite (decide_False (P:=r = r' ∧ c = c')) by (by intros [? ?]).
Qed.

Lemma cell_set_cell_eq g r c v : cell (set_cell g r c v) r c = (λ _, v) <$> cell g r c.
Proof. rewrite cell_set_cell. by rewrite decide_True. Qed.

Lemma cell_set_cell_ne g r c v r' c' :
(r, c) ≠ (r', c') → cell (set_cell g r c v) r' c' = cell g r' c'.
Proof. intros Hne. rewrite cell_set_cell. rewrite decide_False; [done|]. by intros [-> ->]. Qed.

Lemma set_cell_same g r c x : cell g r c = Some x → set_cell g r c x = g.
Proof.
intros (line & Hline & Hx)%cell_Some. unfold set_cell.
apply list_eq. intros i. destruct (decide (r = i)) as [<-|Hne].
- rewrite list_lookup_alter_eq, Hline. simpl. by rewrite list_insert_id.
- by rewrite list_lookup_alter_ne.
Qed.

Lemma set_cell_undefined g r c v : cell g r c = None → set_cell g r c v = g.
Proof.
unfold cell, set_cell. intros Hnone.
apply list_eq. intros i. destruct (decide (r = i)) as [<-|Hne].
- rewrite list_lookup_alter_eq. destruct (g !! r) as [line|]; [|done].
simpl in *. rewrite list_insert_ge; [done|]. by apply lookup_ge_None.
- by rewrite list_lookup_alter_ne.
Qed.

Lemma shape_set_cell nrows ncols g r c v :
shape nrows ncols g → shape nrows ncols (set_cell g r c v).
Proof.
intros [Hlen Hrows]. unfold set_cell. split.
- by rewrite length_alter.
- intros r' line. destruct (decide (r = r')) as [<-|Hr].
+ rewrite list_lookup_alter_eq. destruct (g !! r) as [line0|] eqn:Hg; [|done].
intros [= <-]. rewrite length_insert. by eapply Hrows.
+ rewrite list_lookup_alter_ne by done. apply Hrows.
Qed.

Lemma shape_row nrows ncols g r :
shape nrows ncols g → r < nrows → ∃ line, g !! r = Some line ∧ length line = ncols.
Proof.
intros [Hlen Hrows] Hr.
destruct (lookup_lt_is_Some_2 g r) as [line Hline]; [lia|].
exists line. split; [done | by eapply Hrows].
Qed.

Lemma shape_cell nrows ncols g r c :
shape nrows ncols g → r < nrows → c < ncols → is_Some (cell g r c).
Proof.
intros Hs Hr Hc. destruct (shape_row _ _ _ _ Hs Hr) as (line & Hline & Hlen).
rewrite (cell_row _ _ _ _ Hline). apply lookup_lt_is_Some_2. lia.
Qed.

Lemma cell_in_shape nrows ncols g r c x :
shape nrows ncols g → cell g r c = Some x → r < nrows ∧ c < ncols.
Proof.
intros [Hlen Hrows] (line & Hline & Hx)%cell_Some. split.
- rewrite <- Hlen. by eapply lookup_lt_Some.
- rewrite <- (Hrows _ _ Hline). by eapply lookup_lt_Some.
Qed.
End grids.

(** ** Consistency of the board

    The grid has its declared shape; an empty cell is face down and
    uncontrolled; a controlled cell is face up, holds a card, and its
    controller is registered; a player object sits under its own id and has no
    second card without a first. *)

(** In a consistent board the three grids are defined on the same cells. *)
Lemma Consistent_cells b r c :
  Consistent b → r < rows b → c < cols b →
  ∃ card up ctrl, cell (cards b) r c = Some card
                ∧ cell (faceUp b) r c = Some up
                ∧ cell (controller b) r c = Some ctrl.
Proof.
  intros [Hc Hf Hk _ _ _] Hr Hcol.
  destruct (shape_cell _ _ _ r c Hc Hr Hcol) as [card ?].
  destruct (shape_cell _ _ _ r c Hf Hr Hcol) as [up ?].
  destruct (shape_cell _ _ _ r c Hk Hr Hcol) as [ctrl ?].
  by exists card, up, ctrl.
Qed.

Lemma Consistent_cell_defined {A : Type} b (g : list (list A)) r c x :
  Consistent b → shape (rows b) (cols b) g → cell g r c = Some x →
  ∃ card up ctrl, cell (cards b) r c = Some card
                ∧ cell (faceUp b) r c = Some up
                ∧ cell (controller b) r c = Some ctrl.
Proof.
  intros Hb Hg Hx. destruct (cell_in_shape _ _ _ _ _ _ Hg Hx).
  by apply Consistent_cells.
Qed.

Lemma Consistent_rewrite_cell b r c card up ctrl :
  Consistent b →
  (card = None → up = false ∧ ctrl = None) →
  (∀ id, ctrl = Some id → up = true ∧ card ≠ None ∧ JsMap.has id (players b) = true) →
  Consistent (rewrite_cell r c card up ctrl b).
Proof.
  intros [Hc Hf Hk Hempty Hctrl Hpl] Hnew1 Hnew2.
  split; simpl; try by apply shape_set_cell.
  - intros r' c'. rewrite !cell_set_cell. case_decide as Heq; [|by apply Hempty].
    destruct Heq as [<- <-]. intros Hcard.
    destruct (cell (cards b) r c) as [old|] eqn:Hold; [|done].
    destruct (Consistent_cell_defined b (cards b) r c old) as (?&?&?&_&->&->);
      [by split | done | done |].
    simpl in *. destruct Hnew1 as [-> ->]; [congruence | done].
  - intros r' c' id. rewrite !cell_set_cell. case_decide as Heq; [|by apply Hctrl].
    destruct Heq as [<- <-]. intros Hid.
    destruct (cell (controller b) r c) as [old|] eqn:Hold; [|done].
    destruct (Consistent_cell_defined b (controller b) r c old) as (?&?&?&->&->&_);
      [by split | done | done |].
    simpl in *. destruct (Hnew2 id) as (-> & ? & ?); [congruence|].
    split; [done|]. split; [|done]. destruct card; [by eexists | done].
  - done.
Qed.

Lemma rewrite_cell_same b r c card up ctrl :
  cell (cards b) r c = Some card → cell (faceUp b) r c = Some up →
  cell (controller b) r c = Some ctrl →
  rewrite_cell r c card up ctrl b = b.
Proof.
  intros H1 H2 H3. unfold rewrite_cell. destruct b; simpl in *.
  unfold with_controller, with_faceUp, with_cards; simpl.
  by rewrite (set_cell_same _ _ _ _ H1), (set_cell_same _ _ _ _ H2),
    (set_cell_same _ _ _ _ H3).
Qed.

(** The writes of the source, one grid at a time, as rewritings of a cell. *)
Lemma set_faceUp_rewrite b r c card ctrl up :
  cell (cards b) r c = Some card → cell (controller b) r c = Some ctrl →
  with_faceUp (set_cell (faceUp b) r c up) b = rewrite_cell r c card up ctrl b.
Proof.
  intros H1 H3. unfold rewrite_cell. destruct b; simpl in *.
  unfold with_controller, with_faceUp, with_cards; simpl.
  by rewrite (set_cell_same _ _ _ _ H1), (set_cell_same _ _ _ _ H3).
Qed.

Lemma set_controller_rewrite b r c card up ctrl :
  cell (cards b) r c = Some card → cell (faceUp b) r c = Some up →
  with_controller (set_cell (controller b) r c ctrl) b = rewrite_cell r c card up ctrl b.
Proof.
  intros H1 H2. unfold rewrite_cell. destruct b; simpl in *.
  unfold with_controller, with_faceUp, with_cards; simpl.
  by rewrite (set_cell_same _ _ _ _ H1), (set_cell_same _ _ _ _ H2).
Qed.

Lemma set_cards_rewrite b r c card up ctrl :
  cell (faceUp b) r c = Some up → cell (controller b) r c = Some ctrl →
  with_cards (set_cell (cards b) r c card) b = rewrite_cell r c card up ctrl b.
Proof.
  intros H2 H3. unfold rewrite_cell. destruct b; simpl in *.
  unfold with_controller, with_faceUp, with_cards; simpl.
  by rewrite (set_cell_same _ _ _ _ H2), (set_cell_same _ _ _ _ H3).
Qed.

Lemma Consistent_undefined_cell b r c :
  Consistent b →
  cell (cards b) r c = None ∨ cell (faceUp b) r c = None ∨ cell (controller b) r c = None →
  cell (cards b) r c = None ∧ cell (faceUp b) r c = None ∧ cell (controller b) r c = None.
Proof.
  intros Hb Hnone.
  destruct (cell (cards b) r c) as [x|] eqn:H1.
  { destruct (Consistent_cell_defined b (cards b) r c x) as (?&?&?&?&?&?);
      [done | by apply Hb | done |]. destruct Hnone as [?|[?|?]]; congruence. }
  destruct (cell (faceUp b) r c) as [x|] eqn:H2.
  { destruct (Consistent_cell_defined b (faceUp b) r c x) as (?&?&?&?&?&?);
      [done | by apply Hb | done |]. destruct Hnone as [?|[?|?]]; congruence. }
  destruct (cell (controller b) r c) as [x|] eqn:H3.
  { destruct (Consistent_cell_defined b (controller b) r c x) as (?&?&?&?&?&?);
      [done | by apply Hb | done |]. destruct Hnone as [?|[?|?]]; congruence. }
  done.
Qed.

Lemma Consistent_set_faceUp b r c up :
  Consistent b →
  (cell (cards b) r c = Some None → up = false) →
  (∀ id, cell (controller b) r c = Some (Some id) → up = true) →
  Consistent (with_faceUp (set_cell (faceUp b) r c up) b).
Proof.
  intros Hb H1 H2.
  destruct (cell (faceUp b) r c) as [old|] eqn:Hold.
  - destruct (Consistent_cell_defined b (faceUp b) r c old) as (card&?&ctrl&Hc&?&Hk);
      [done | by apply Hb | done |].
    rewrite (set_faceUp_rewrite b r c card ctrl) by done.
    apply Consistent_rewrite_cell; [done | |].
    + intros ->. split; [by apply H1|].
      destruct (c_empty b Hb r c Hc) as [_ ?]. congruence.
    + intros id ->. split; [by eapply H2|].
      destruct (c_ctrl b Hb r c id Hk) as (_ & [pic Hp] & ?).
      split; [congruence | done].
  - rewrite set_cell_undefined by done. by destruct b.
Qed.

Lemma Consistent_set_controller b r c ctrl :
  Consistent b →
  (∀ id, ctrl = Some id → is_Some (cell (controller b) r c) →
     cell (faceUp b) r c = Some true ∧ cell (cards b) r c ≠ Some None
     ∧ JsMap.has id (players b) = true) →
  Consistent (with_controller (set_cell (controller b) r c ctrl) b).
Proof.
  intros Hb H1.
  destruct (cell (controller b) r c) as [old|] eqn:Hold.
  - destruct (Consistent_cell_defined b (controller b) r c old) as (card&up&?&Hc&Hf&?);
      [done | by apply Hb | done |].
    rewrite (set_controller_rewrite b r c card up) by done.
    apply Consistent_rewrite_cell; [done | |].
    + intros ->. destruct (c_empty b Hb r c Hc) as [? ?].
      split; [congruence|]. destruct ctrl as [id|]; [|done].
      destruct (H1 id) as (? & ? & ?); [done | by eexists |]. congruence.
    + intros id ->. destruct (H1 id) as (? & ? & ?); [done | by eexists |].
      split; [congruence|]. split; [congruence | done].
  - rewrite set_cell_undefined by done. by destruct b.
Qed.

Lemma Consistent_set_cards b r c pic :
  Consistent b → cell (cards b) r c ≠ Some None →
  Consistent (with_cards (set_cell (cards b) r c (Some pic)) b).
Proof.
  intros Hb H1.
  destruct (cell (cards b) r c) as [old|] eqn:Hold.
  - destruct (Consistent_cell_defined b (cards b) r c old) as (?&up&ctrl&Hc&Hf&Hk);
      [done | by apply Hb | done |].
    rewrite (set_cards_rewrite b r c _ up ctrl) by done.
    apply Consistent_rewrite_cell; [done | done |].
    intros id ->. destruct (c_ctrl b Hb r c id Hk) as (? & ? & ?).
    split; [congruence|]. by split.
  - rewrite set_cell_undefined by done. by destruct b.
Qed.

(** Players, queues, lingering lists and watchers. *)
Lemma Consistent_with_waitingForControl b m :
  Consistent b → Consistent (with_waitingForControl m b).
Proof. by intros []. Qed.

Lemma Consistent_with_lingering b m :
  Consistent b → Consistent (with_lingering m b).
Proof. by intros []. Qed.

Lemma Consistent_with_changeResolvers b m :
  Consistent b → Consistent (with_changeResolvers m b).
Proof. by intros []. Qed.

Lemma Consistent_set_player b k p :
  Consistent b → p_id p = k → (p_firstCard p = None → p_secondCard p = None) →
  Consistent (with_players (JsMap.set k p (players b)) b).
Proof.
  intros [Hc Hf Hk Hempty Hctrl Hpl] Hid Hp. split; simpl; try done.
  - intros r c id Hcell. destruct (Hctrl r c id Hcell) as (? & ? & Hhas).
    split; [done|]. split; [done|].
    rewrite JsMap_has_set, Hhas. apply orb_true_r.
  - intros k' p'. rewrite JsMap_get_set. case_decide; [|by apply Hpl].
    intros [= <-]. by subst.
Qed.

(** ** Every method keeps the board consistent *)

Lemma board_after_bind {A B : Type} (m : M A) (f : A → M B) b :
  board_after (bind m f b)
  = match result (m b) with
    | inl _ => board_after (m b)
    | inr a => board_after (f a (board_after (m b)))
    end.
Proof. unfold bind. by destruct (result (m b)). Qed.

Lemma board_after_get_bind {B : Type} (f : Board → M B) b :
  board_after (bind get f b) = board_after (f b b).
Proof. done. Qed.

Lemma board_after_modify_bind {B : Type} (g : Board → Board) (k : unit → M B) b :
  board_after (bind (modify g) k b) = board_after (k () (g b)).
Proof. done. Qed.

Lemma board_after_updatePlayer_bind {B : Type} key f (k : unit → M B) b p :
  JsMap.get key (players b) = Some p →
  board_after (bind (updatePlayer key f) k b)
  = board_after (k () (with_players (JsMap.set key (f p) (players b)) b)).
Proof. intros Hp. unfold updatePlayer. rewrite board_after_modify_bind. by rewrite Hp. Qed.

Lemma preserves_requireInBounds I row col : preserves I (requireInBounds row col).
Proof.
  intros b Hb. unfold requireInBounds.
  destruct row, col; try done. by case_bool_decide.
Qed.

Lemma preserves_thePlayer I key : preserves I (thePlayer key).
Proof. intros b Hb. unfold thePlayer. by destruct (JsMap.get key (players b)). Qed.

Lemma preserves_assertRep I : preserves I assertRep.
Proof. intros b Hb. unfold assertRep. by destruct (checkRep b). Qed.

Lemma preserves_pictureAt I row col : preserves I (pictureAt row col).
Proof.
  apply preserves_bind; [apply preserves_requireInBounds | intros _].
  apply preserves_get_bind. intros b Hb. by destruct (cards b !! index row).
Qed.

Lemma Consistent_notifyChange : preserves Consistent notifyChange.
Proof.
  apply preserves_get_bind. intros b Hb. simpl.
  by apply Consistent_with_changeResolvers.
Qed.

Lemma Consistent_notifyWaiters row col : preserves Consistent (notifyWaiters row col).
Proof.
  apply preserves_get_bind. intros b Hb. simpl.
  by apply Consistent_with_waitingForControl.
Qed.

Lemma Consistent_rememberLingering id row col :
  preserves Consistent (rememberLingering id row col).
Proof. apply preserves_modify. intros b Hb. by apply Consistent_with_lingering. Qed.

Lemma Consistent_flipDownIfUncontrolled row col :
  preserves Consistent (flipDownIfUncontrolled row col).
Proof.
  apply preserves_modify. intros b Hb.
  destruct (cards b !! row) as [cardsRow|] eqn:H1; [|done].
  destruct (faceUp b !! row) as [faceUpRow|] eqn:H2; [|done].
  destruct (controller b !! row) as [controllerRow|] eqn:H3; [|done].
  cbv zeta.
  destruct (bool_decide (cardsRow !! col ≠ Some None) && _ && _) eqn:Htest; [|done].
  apply andb_prop in Htest as [_ Hk%bool_decide_eq_true].
  rewrite <- (cell_row _ _ col _ H3) in Hk.
  apply Consistent_set_faceUp; [done | done | congruence].
Qed.

Lemma Consistent_relinquish id pos : preserves Consistent (relinquish id pos).
Proof.
  apply preserves_get_bind. intros b Hb.
  case_bool_decide; [|done].
  rewrite board_after_modify_bind. apply Consistent_notifyWaiters.
  by apply Consistent_set_controller.
Qed.

Lemma Consistent_removeIfControlled id pos :
  preserves Consistent (removeIfControlled id pos).
Proof.
  apply preserves_get_bind. intros b Hb.
  destruct (cards b !! pos.1) as [cardsRow|] eqn:H1; [|done].
  destruct (controller b !! pos.1) as [ctrlRow|] eqn:H3; [|done].
  destruct (faceUp b !! pos.1) as [faceUpRow|] eqn:H2; [|done].
  case_bool_decide; [|done].
  rewrite !board_after_modify_bind. apply Consistent_notifyWaiters.
  by apply (Consistent_rewrite_cell b pos.1 pos.2 None false None).
Qed.

Lemma keeps_clearCards : keeps_player clearCards.
Proof. by intros p. Qed.

Lemma keeps_recordFlip : keeps_player recordFlip.
Proof. by intros p. Qed.

Lemma keeps_setFirstCard pos : keeps_player (setFirstCard pos).
Proof. by intros p. Qed.

Lemma Consistent_updatePlayer key f :
  keeps_player f → preserves Consistent (updatePlayer key f).
Proof.
  intros Hf. apply preserves_modify. intros b Hb.
  destruct (JsMap.get key (players b)) as [p|] eqn:Hp; [|done].
  destruct (c_players b Hb key p Hp) as [Hid Hcards].
  destruct (Hf p) as [Hid' Hcards'].
  apply Consistent_set_player; [done | congruence | by apply Hcards'].
Qed.

Lemma Consistent_cleanLingering pid : preserves Consistent (cleanLingering pid).
Proof.
  unfold cleanLingering. apply preserves_get_bind. intros b Hb.
  destruct (lingering b !! pid) as [[|pos linger]|]; try done.
  refine (preserves_bind Consistent _ _ _ _ b Hb).
  - apply preserves_for_each. intros [row col].
    apply Consistent_flipDownIfUncontrolled.
  - intros _. apply preserves_modify. intros b' Hb'.
    by apply Consistent_with_lingering.
Qed.

Lemma Consistent_cleanCards pid firstCard secondCard :
  preserves Consistent (cleanCards pid firstCard secondCard).
Proof.
  unfold cleanCards.
  destruct firstCard as [first|]; [|apply preserves_ret].
  destruct secondCard as [second|]; [|apply Consistent_flipDownIfUncontrolled].
  apply preserves_bind; [apply preserves_pictureAt | intros firstPic].
  apply preserves_bind; [apply preserves_pictureAt | intros secondPic].
  apply preserves_if.
  - apply preserves_bind; [|intros _]; apply Consistent_removeIfControlled.
  - apply preserves_bind; [|intros _]; apply Consistent_flipDownIfUncontrolled.
Qed.

Lemma Consistent_cleanupPreviousPlay player :
  preserves Consistent (cleanupPreviousPlay player).
Proof.
  unfold cleanupPreviousPlay.
  apply preserves_bind; [apply preserves_thePlayer | intros p].
  apply preserves_bind; [apply Consistent_cleanLingering | intros _].
  apply preserves_bind; [apply Consistent_cleanCards | intros _].
  apply Consistent_updatePlayer, keeps_clearCards.
Qed.

Lemma preserves_and {A : Type} (I1 I2 : Board → Prop) (m : M A) :
  preserves I1 m → preserves I2 m → preserves (λ b, I1 b ∧ I2 b) m.
Proof. intros H1 H2 b [Hb1 Hb2]. split; [by apply H1 | by apply H2]. Qed.

Lemma registered_updatePlayer id key f : preserves (registered id) (updatePlayer key f).
Proof.
  apply preserves_modify. intros b Hb. unfold registered in *.
  destruct (JsMap.get key (players b)); [|done]. simpl.
  rewrite JsMap_has_set, Hb. apply orb_true_r.
Qed.

(** The structure of a method, for an invariant that its writes keep
    whatever the board they are applied to. *)
Ltac preserves_structure leaf :=
  repeat first
    [ leaf | assumption
    | apply preserves_ret | apply preserves_throw | apply preserves_get
    | apply preserves_emit | apply preserves_requireInBounds
    | apply preserves_thePlayer | apply preserves_assertRep
    | match goal with
      | |- preserves _ (bind _ _) => apply preserves_bind; [|intros ?]
      | |- preserves _ (for_each _ _) => apply preserves_for_each; intros ?
      | |- preserves _ (match ?x with _ => _ end) => destruct x
      end ].

Ltac registered_leaf :=
  idtac;
  match goal with
  | |- preserves _ (updatePlayer _ _) => apply registered_updatePlayer
  | |- preserves _ (modify _) =>
      apply preserves_modify; intros ? ?; unfold registered in *; simpl;
      repeat case_match; done
  end.

Lemma registered_flipUp id playerId row col :
  preserves (registered id) (flipUp playerId row col).
Proof.
  unfold flipUp, flipFirst, firstCardRules, flipSecond, secondCardRules,
    failSecond, cleanupPreviousPlay, cleanLingering, cleanCards,
    relinquish, removeIfControlled, notifyWaiters, notifyChange, pictureAt,
    rememberLingering, flipDownIfUncontrolled.
  preserves_structure registered_leaf.
Qed.

Lemma registered_cleanupPreviousPlay id player :
  preserves (registered id) (cleanupPreviousPlay player).
Proof.
  unfold cleanupPreviousPlay, cleanLingering, cleanCards, removeIfControlled,
    notifyWaiters, pictureAt, flipDownIfUncontrolled.
  preserves_structure registered_leaf.
Qed.

Ltac consistent_leaf :=
  idtac;
  match goal with
  | |- preserves _ notifyChange => apply Consistent_notifyChange
  | |- preserves _ (notifyWaiters _ _) => apply Consistent_notifyWaiters
  | |- preserves _ (relinquish _ _) => apply Consistent_relinquish
  | |- preserves _ (removeIfControlled _ _) => apply Consistent_removeIfControlled
  | |- preserves _ (rememberLingering _ _ _) => apply Consistent_rememberLingering
  | |- preserves _ (flipDownIfUncontrolled _ _) =>
      apply Consistent_flipDownIfUncontrolled
  | |- preserves _ (cleanupPreviousPlay _) => apply Consistent_cleanupPreviousPlay
  | |- preserves _ (pictureAt _ _) => apply preserves_pictureAt
  | |- preserves _ (updatePlayer _ clearCards) =>
      apply Consistent_updatePlayer, keeps_clearCards
  | |- preserves _ (updatePlayer _ recordFlip) =>
      apply Consistent_updatePlayer, keeps_recordFlip
  | |- preserves _ (updatePlayer _ (setFirstCard _)) =>
      apply Consistent_updatePlayer, keeps_setFirstCard
  end.

Lemma Consistent_take_first {A : Type} playerId pos (notify : M unit) (a : A) :
  preserves Consistent notify →
  preserves Consistent
    (updatePlayer playerId (setFirstCard pos) >>
     updatePlayer playerId recordFlip >> assertRep >> notify >> ret a).
Proof. intros Hn. preserves_structure consistent_leaf. Qed.

(** Taking control of a card that is on the board, turning it face up first
    if it is face down (rules 1-B, 1-C, 2-C). *)
Lemma Consistent_take_control b playerId row col (turn : bool) :
  Consistent b → registered playerId b →
  cell (cards b) row col ≠ Some None →
  (turn = false → default false (cell (faceUp b) row col) = true) →
  let b' := if turn then with_faceUp (set_cell (faceUp b) row col true) b else b in
  Consistent (with_controller (set_cell (controller b') row col (Some playerId)) b').
Proof.
  intros Hb Hreg Hpic Hup b'.
  assert (Hb' : Consistent b').
  { subst b'. destruct turn; [|done]. by apply Consistent_set_faceUp. }
  apply Consistent_set_controller; [done|].
  intros id [= <-] [k Hk].
  assert (Hk0 : cell (controller b) row col = Some k) by (by subst b'; destruct turn).
  destruct (Consistent_cell_defined b (controller b) row col k)
    as (card & up & ? & Hc & Hf & ?); [done | by apply Hb | done |].
  subst b'. destruct turn; simpl.
  - rewrite cell_set_cell_eq, Hf. by split.
  - rewrite Hf in Hup |- *. simpl in Hup. rewrite Hup by done. by split.
Qed.

Lemma Consistent_firstCardRules playerId row col b :
  Consistent b → registered playerId b →
  Consistent (board_after (firstCardRules playerId row col b)).
Proof.
  intros Hb Hreg. unfold firstCardRules.
  rewrite board_after_get_bind.
  case_bool_decide as Hpic; [done|].
  destruct (default false (cell (faceUp b) row col)) eqn:Hup; cbn [negb].
  - case_bool_decide as Hctrl.
    + (* 1-C *)
      rewrite !board_after_modify_bind.
      apply (Consistent_take_first _ _ (ret ())); [apply preserves_ret|].
      by apply (Consistent_take_control b playerId row col false).
    + case_bool_decide as Hother.
      * (* 1-D *)
        rewrite !board_after_modify_bind. simpl.
        by apply Consistent_with_waitingForControl.
      * by apply (Consistent_take_first _ _ notifyChange);
          [apply Consistent_notifyChange|].
  - (* 1-B *)
    rewrite !board_after_modify_bind.
    apply (Consistent_take_first _ _ notifyChange); [apply Consistent_notifyChange|].
    by apply (Consistent_take_control b playerId row col true).
Qed.

Lemma Consistent_flipFirst playerId row col b :
  Consistent b → registered playerId b →
  Consistent (board_after (flipFirst playerId row col b)).
Proof.
  intros Hb Hreg. unfold flipFirst. rewrite board_after_bind.
  pose proof (Consistent_cleanupPreviousPlay playerId b Hb) as Hb1.
  pose proof (registered_cleanupPreviousPlay playerId playerId b Hreg) as Hreg1.
  destruct (result (cleanupPreviousPlay playerId b)) as [e|[]]; [done|].
  by apply Consistent_firstCardRules.
Qed.

Lemma thePlayer_bind {B : Type} key (k : Player → M B) b p :
  JsMap.get key (players b) = Some p →
  bind (thePlayer key) k b = k p b.
Proof.
  intros Hp. unfold bind, thePlayer. rewrite Hp. simpl. by destruct (k p b).
Qed.

Lemma thePlayer_bind_unknown {B : Type} key (k : Player → M B) b :
  JsMap.get key (players b) = None →
  bind (thePlayer key) k b = Out (inl UnknownPlayer) b [].
Proof. intros Hp. unfold bind at 1, thePlayer. by rewrite Hp. Qed.

Lemma Consistent_release row col :
  preserves Consistent
    (modify (λ b, with_controller (set_cell (controller b) row col None) b)).
Proof. apply preserves_modify. intros b Hb. by apply Consistent_set_controller. Qed.

Lemma Consistent_failSecond playerId first e :
  preserves Consistent (failSecond playerId first e).
Proof. unfold failSecond. preserves_structure consistent_leaf. Qed.

Lemma Consistent_compare playerId (firstCard : Pos) row col pic :
  preserves Consistent
    (updatePlayer playerId recordFlip >>
     let* firstPic := pictureAt firstCard.1 firstCard.2 in
     (if bool_decide (Some firstPic = pic) && bool_decide (firstPic ≠ None)
      then ret ()
      else relinquish playerId firstCard >>
           modify (λ b, with_controller (set_cell (controller b) row col None) b) >>
           notifyWaiters row col) >>
     assertRep >> notifyChange >> ret Returned).
Proof.
  preserves_structure
    ltac:(first [consistent_leaf
                | match goal with
                  | |- preserves _ (modify _) => apply Consistent_release
                  end]).
Qed.

Lemma Consistent_flipSecond playerId row col b :
  Consistent b → registered playerId b →
  Consistent (board_after (flipSecond playerId row col b)).
Proof.
  intros Hb Hreg. unfold flipSecond.
  destruct (JsMap.get playerId (players b)) as [p|] eqn:Hp.
  2: { by rewrite thePlayer_bind_unknown. }
  rewrite (thePlayer_bind _ _ _ _ Hp).
  destruct (getFirstCard p) as [firstCard|] eqn:Hfirst; [|done].
  unfold secondCardRules.
  case_bool_decide; [by apply Consistent_failSecond|].
  rewrite board_after_get_bind.
  case_bool_decide as Hpic; [by apply Consistent_failSecond|].
  destruct (default false (cell (faceUp b) row col) && _) eqn:Hbusy;
    [by apply Consistent_failSecond|].
  assert (Hgo : ∀ b2, Consistent b2 → players b2 = players b →
    Consistent (board_after
      ((updatePlayer playerId (setSecondCard (row, col)) >>
        updatePlayer playerId recordFlip >>
        let* firstPic := pictureAt firstCard.1 firstCard.2 in
        (if bool_decide (Some firstPic = cell (cards b) row col)
            && bool_decide (firstPic ≠ None)
         then ret ()
         else relinquish playerId firstCard >>
              modify (λ b, with_controller (set_cell (controller b) row col None) b) >>
              notifyWaiters row col) >>
        assertRep >> notifyChange >> ret Returned) b2))).
  { intros b2 Hb2 Hpl.
    rewrite (board_after_updatePlayer_bind _ _ _ _ p) by (by rewrite Hpl).
    apply Consistent_compare.
    destruct (c_players b Hb playerId p Hp) as [Hid _].
    apply Consistent_set_player; [done | done |].
    unfold getFirstCard in Hfirst. simpl. by rewrite Hfirst. }
  destruct (default false (cell (faceUp b) row col)) eqn:Hup; cbn [negb].
  - rewrite ret_bind, board_after_modify_bind. apply Hgo; [|done].
    by apply (Consistent_take_control b playerId row col false).
  - rewrite !board_after_modify_bind. apply Hgo; [|done].
    by apply (Consistent_take_control b playerId row col true).
Qed.

Lemma Consistent_flipUp playerId row col : preserves Consistent (flipUp playerId row col).
Proof.
  unfold flipUp.
  apply preserves_bind; [apply preserves_requireInBounds | intros _].
  apply preserves_get_bind. intros b Hb.
  destruct (JsMap.has playerId (players b)) eqn:Hreg; [|done]. cbn [negb].
  destruct (cards b !! index row); [|done].
  destruct (faceUp b !! index row); [|done].
  destruct (controller b !! index row); [|done].
  rewrite board_after_bind.
  destruct (result (thePlayer playerId b)) as [e|player] eqn:Hplayer;
    [by apply preserves_thePlayer|].
  assert (Hsame : board_after (thePlayer playerId b) = b).
  { unfold thePlayer. by destruct (JsMap.get playerId (players b)). }
  rewrite Hsame. clear Hsame Hplayer.
  rewrite board_after_bind.
  set (pre := if bool_decide (getSecondCard player ≠ None)
              then cleanupPreviousPlay playerId else ret ()).
  assert (Hpre : Consistent (board_after (pre b)) ∧ registered playerId (board_after (pre b))).
  { subst pre. case_bool_decide; [|done]. split.
    - by apply Consistent_cleanupPreviousPlay.
    - by apply registered_cleanupPreviousPlay. }
  destruct Hpre as [Hb1 Hreg1].
  destruct (result (pre b)) as [e|[]]; [done|].
  generalize dependent (board_after (pre b)). clear. intros b1 Hb1 Hreg1.
  destruct (JsMap.get playerId (players b1)) as [p|] eqn:Hp.
  2: { by rewrite thePlayer_bind_unknown. }
  rewrite (thePlayer_bind _ _ _ _ Hp).
  destruct (isFirstCardFlip p).
  - by apply Consistent_flipFirst.
  - by apply Consistent_flipSecond.
Qed.

Lemma Consistent_flipDown row col : preserves Consistent (flipDown row col).
Proof.
  unfold flipDown.
  apply preserves_bind; [apply preserves_requireInBounds | intros _].
  generalize (index row) (index col). clear row col. intros row col.
  apply preserves_get_bind. intros b Hb.
  destruct (cards b !! row) as [cardsRow|] eqn:H1; [|done].
  destruct (faceUp b !! row) as [faceUpRow|] eqn:H2; [|done].
  destruct (controller b !! row) as [controllerRow|] eqn:H3; [|done].
  case_bool_decide as Hpic; [done|].
  destruct (negb _) eqn:Hup; [done|].
  rewrite !board_after_modify_bind.
  assert (Htail : preserves Consistent (assertRep >> notifyChange)).
  { preserves_structure consistent_leaf. }
  apply Htail. simpl.
  destruct (cell (cards b) row col) as [card|] eqn:Hcard.
  - destruct (Consistent_cell_defined b (cards b) row col card)
      as (? & up & ctrl & ? & Hf & Hk); [done | by apply Hb | done |].
    pose proof (Consistent_rewrite_cell b row col card false None Hb) as Hnew.
    unfold rewrite_cell in Hnew.
    rewrite (set_cell_same (cards b) row col card) in Hnew by done.
    replace (with_cards (cards b) b) with b in Hnew by (by destruct b).
    apply Hnew; [|done]. intros ->.
    rewrite (cell_row _ _ col _ H1) in Hcard. done.
  - destruct (Consistent_undefined_cell b row col Hb) as (_ & Hf & Hk); [by left|].
    rewrite !set_cell_undefined by done. by destruct b.
Qed.

Lemma Consistent_registerPlayer id displayName :
  preserves Consistent (registerPlayer id displayName).
Proof.
  unfold registerPlayer. destruct (_ || _); [apply preserves_throw|].
  apply preserves_get_bind. intros b Hb.
  destruct (JsMap.get id (players b)); [done|].
  rewrite board_after_modify_bind.
  assert (Htail : preserves Consistent (assertRep >> ret (newPlayer id))).
  { preserves_structure consistent_leaf. }
  apply Htail. by apply Consistent_set_player.
Qed.

Lemma Consistent_addChangeWatcher playerId resolver :
  preserves Consistent (addChangeWatcher playerId resolver).
Proof. apply preserves_modify. intros b Hb. by apply Consistent_with_changeResolvers. Qed.

Lemma Consistent_map {S : Type} (f : string → S → string * S) (s : S) :
  preserves Consistent (map f s).
Proof.
  intros b Hb. unfold map.
  assert (Hfold : ∀ cells acc, Consistent acc.1 →
            Consistent (foldl (map_cell f) acc cells).1).
  { induction cells as [|pos cells IH]; [done|]. intros [b0 s0] Hb0. simpl.
    apply IH. simpl in Hb0.
    destruct (cell (cards b0) pos.1 pos.2) as [[pic|]|] eqn:Hpic; try done.
    destruct (f pic s0) as [pic' s']. simpl.
    apply Consistent_set_cards; [done | congruence]. }
  specialize (Hfold (row_major (rows b) (cols b)) (b, s) Hb).
  destruct (foldl _ _ _) as [b' s']. simpl in Hfold.
  assert (Htail : preserves Consistent (assertRep >> notifyChange >> ret s')).
  { preserves_structure consistent_leaf. }
  by apply Htail.
Qed.

(** ** A freshly constructed board *)

Lemma cell_replicate {A : Type} (n m : nat) (x y : A) r c :
  cell (replicate n (replicate m x)) r c = Some y ↔ y = x ∧ r < n ∧ c < m.
Proof.
  rewrite cell_Some. split.
  - intros (line & [-> ?]%lookup_replicate & [-> ?]%lookup_replicate). done.
  - intros (-> & ? & ?). exists (replicate m x).
    split; by apply lookup_replicate_2.
Qed.

Lemma shape_replicate {A : Type} (n m : nat) (x : A) :
  shape n m (replicate n (replicate m x)).
Proof.
  split; [apply length_replicate|].
  intros r line [-> _]%lookup_replicate. apply length_replicate.
Qed.

Lemma shape_layout nrows ncols layout :
  shape nrows ncols (layout_row ncols layout <$> seq 0 nrows).
Proof.
  split.
  - by rewrite length_fmap, length_seq.
  - intros r line (k & -> & _)%list_lookup_fmap_Some.
    unfold layout_row. by rewrite length_fmap, length_seq.
Qed.

Lemma newBoard_fields nrows ncols layout b :
  newBoard nrows ncols layout = inr b →
  b = mkBoard nrows ncols (layout_row ncols layout <$> seq 0 nrows)
        (replicate nrows (replicate ncols false))
        (replicate nrows (replicate ncols None)) [] ∅ ∅ []
  ∧ checkRep b = true.
Proof.
  unfold newBoard. destruct (checkRep _) eqn:Hrep; [|done].
  by intros [= <-].
Qed.

Lemma Consistent_newBoard nrows ncols layout b :
  newBoard nrows ncols layout = inr b → Consistent b.
Proof.
  intros [-> _]%newBoard_fields. split; simpl.
  - apply shape_layout.
  - apply shape_replicate.
  - apply shape_replicate.
  - intros r c Hcard.
    destruct (cell_in_shape _ _ _ _ _ _ (shape_layout nrows ncols layout) Hcard).
    split; by apply cell_replicate.
  - intros r c id [? _]%cell_replicate. done.
  - done.
Qed.

Lemma parseFromFile_newBoard text b :
  parseFromFile text = inr b →
  ∃ headerLine cardLines m1 m2 nrows ncols layout,
    file_lines text = headerLine :: cardLines
    ∧ Text.match_header (Text.trim headerLine) = Some (m1, m2)
    ∧ Text.Number m1 = Some nrows ∧ Text.Number m2 = Some ncols
    ∧ 1 ≤ nrows ∧ 1 ≤ ncols
    ∧ length cardLines = nrows * ncols
    ∧ read_cards 0 cardLines = inr layout
    ∧ newBoard nrows ncols layout = inr b.
Proof.
  unfold parseFromFile.
  destruct (file_lines text) as [|headerLine cardLines]; [done|].
  case_bool_decide; [done|].
  destruct (Text.match_header _) as [[m1 m2]|] eqn:Hheader; [|done].
  destruct (Text.Number m1) as [nrows|] eqn:Hrows; [|done].
  destruct (Text.Number m2) as [ncols|] eqn:Hcols; [|done].
  case_bool_decide as Hdim; [done|].
  case_bool_decide as Hlen; [done|].
  destruct (read_cards 0 cardLines) as [e|layout] eqn:Hcards; [done|].
  intros Hnew. exists headerLine, cardLines, m1, m2, nrows, ncols, layout.
  assert (1 ≤ nrows ∧ 1 ≤ ncols) as [? ?] by lia.
  done.
Qed.

Lemma Consistent_parseFromFile text b : parseFromFile text = inr b → Consistent b.
Proof.
  intros (?&?&?&?&?&?&?&_&_&_&_&_&_&_&_&Hnew)%parseFromFile_newBoard.
  by eapply Consistent_newBoard.
Qed.

(** ** The boards that the public operations can produce *)

Lemma reachable_Consistent b : reachable b → Consistent b.
Proof.
  induction 1 as [text b Hparse| | | | |].
  - by eapply Consistent_parseFromFile.
  - by apply Consistent_registerPlayer.
  - by apply Consistent_flipUp.
  - by apply Consistent_flipDown.
  - by apply Consistent_map.
  - by apply Consistent_addChangeWatcher.
Qed.

(** ** The public queries on a consistent board *)

Lemma requireInBounds_ok b row col :
  row < rows b → col < cols b → requireInBounds row col b = Out (inr ()) b [].
Proof.
  intros Hr Hc. rewrite requireInBounds_nat. rewrite bool_decide_eq_false_2; [done | lia].
Qed.

Lemma requireInBounds_fails b row col :
  rows b ≤ row ∨ cols b ≤ col → requireInBounds row col b = Out (inl OutOfBounds) b [].
Proof. intros H. rewrite requireInBounds_nat. by rewrite bool_decide_eq_true_2. Qed.

Lemma pictureAt_cell b row col card :
  row < rows b → col < cols b → cell (cards b) row col = Some card →
  pictureAt row col b = Out (inr card) b [].
Proof.
  intros Hr Hc (line & Hline & Hcard)%cell_Some. unfold pictureAt, bind. rewrite !index_nat.
  rewrite requireInBounds_ok by done. simpl. by rewrite Hline, Hcard.
Qed.

Lemma isFaceUp_cell b row col up :
  row < rows b → col < cols b → cell (faceUp b) row col = Some up →
  isFaceUp row col b = Out (inr up) b [].
Proof.
  intros Hr Hc (line & Hline & Hcard)%cell_Some. unfold isFaceUp, bind. rewrite !index_nat.
  rewrite requireInBounds_ok by done. simpl. by rewrite Hline, Hcard.
Qed.

Lemma controllerAt_cell b row col ctrl :
  row < rows b → col < cols b → cell (controller b) row col = Some ctrl →
  controllerAt row col b = Out (inr ctrl) b [].
Proof.
  intros Hr Hc (line & Hline & Hcard)%cell_Some. unfold controllerAt, bind. rewrite !index_nat.
  rewrite requireInBounds_ok by done. simpl. by rewrite Hline, Hcard.
Qed.

Lemma registered_listPlayers id b : registered id b → id ∈ listPlayers b.
Proof.
  unfold registered, listPlayers, JsMap.keys.
  intros [p Hp%JsMap_get_elem_of]%JsMap_has_true.
  apply list_elem_of_fmap. by exists (id, p).
Qed.

Lemma Consistent_board_invariants b : Consistent b → board_invariants b.
Proof.
  intros Hb. split.
  - intros r c Hr Hc.
    destruct (Consistent_cells b r c Hb Hr Hc) as (card & up & ctrl & H1 & H2 & H3).
    exists card, up, ctrl.
    rewrite (pictureAt_cell b r c card), (isFaceUp_cell b r c up),
      (controllerAt_cell b r c ctrl) by done.
    split_and!; [done | done | done | |].
    + intros ->. destruct (c_empty b Hb r c H1). split; congruence.
    + intros id ->. destruct (c_ctrl b Hb r c id H3) as (? & [pic ?] & ?).
      split_and!; [congruence | congruence | by apply registered_listPlayers].
  - intros id p Hp. by destruct (c_players b Hb id p Hp).
Qed.

(** ** Sample boards and plays *)

Lemma parse_two_pairs : parseFromFile two_pairs = inr two_pairs_board.
Proof. vm_compute. reflexivity. Qed.

Lemma reachable_alice_matched : reachable alice_matched.
Proof.
  unfold alice_matched, after.
  do 2 apply reach_flipUp. apply reach_registerPlayer.
  apply (reach_parseFromFile two_pairs). apply parse_two_pairs.
Qed.

(** ** C1: the invariants hold after every operation *)

(** C1. Every board that the public operations can produce, starting from a
    parsed file and applying [registerPlayer], [flipUp], [flipDown], [map]
    and [addChangeWatcher] in any order, whether the calls return, throw or
    park, satisfies: an empty cell is face down and uncontrolled; a controlled
    cell is face up, holds a card and its controller is a registered player;
    and a player without a first card has no second card. *)
Theorem invariants_after_every_operation (b : Board) :
  reachable b → board_invariants b.
Proof. intros Hb. by apply Consistent_board_invariants, reachable_Consistent. Qed.

Lemma invariants_after_every_operation_witness :
  reachable alice_matched ∧ board_invariants alice_matched.
Proof.
  split; [apply reachable_alice_matched|].
  apply (invariants_after_every_operation alice_matched).
  apply reachable_alice_matched.
Defined.

(** ** The representation invariant

    [Rep] is what [checkRep] asserts beyond the shape of the grids and the
    consistency of the cells; [Positions] says that the cards a player has
    recorded are cells of the board. *)

Lemma valid_token_check s :
  bool_decide (s ≠ "") && negb (Text.has_space s) = true ↔ valid_token s.
Proof.
  unfold valid_token. rewrite andb_true_iff, bool_decide_eq_true, negb_true_iff. done.
Qed.

Lemma forallb_seq (f : nat → bool) n :
  forallb f (seq 0 n) = true ↔ ∀ i, i < n → f i = true.
Proof.
  rewrite forallb_forall. split.
  - intros H i Hi. apply H, in_seq. lia.
  - intros H i [_ Hi]%in_seq. apply H. lia.
Qed.

Lemma forallb_Forall {A : Type} (f : A → bool) (P : A → Prop) l :
  (∀ x, f x = true ↔ P x) → forallb f l = true ↔ Forall P l.
Proof.
  intros Hf. rewrite forallb_forall, Forall_forall.
  split; intros H x Hx; apply Hf, H; by apply list_elem_of_In.
Qed.

Lemma check_cell_card b r c pic :
  check_cell b r c = true → cell (cards b) r c = Some (Some pic) → valid_token pic.
Proof.
  unfold check_cell. intros Hcheck Hcard. rewrite Hcard in Hcheck.
  apply andb_prop in Hcheck as [Htok _]. by apply valid_token_check.
Qed.

Lemma checkRep_shape b :
  checkRep b = true →
  shape (rows b) (cols b) (cards b) ∧ shape (rows b) (cols b) (faceUp b)
  ∧ shape (rows b) (cols b) (controller b)
  ∧ ∀ r c, r < rows b → c < cols b → check_cell b r c = true.
Proof.
  unfold checkRep. rewrite !andb_true_iff, !bool_decide_eq_true, forallb_seq.
  intros [[[[[[[[[_ _] H1] H2] H3] Hrows] _] _] _] _].
  assert (Hrow : ∀ r, r < rows b →
            length <$> cards b !! r = Some (cols b)
            ∧ length <$> faceUp b !! r = Some (cols b)
            ∧ length <$> controller b !! r = Some (cols b)
            ∧ ∀ c, c < cols b → check_cell b r c = true).
  { intros r Hr. specialize (Hrows r Hr). unfold check_row in Hrows.
    rewrite !andb_true_iff, !bool_decide_eq_true, forallb_seq in Hrows.
    by destruct Hrows as [[[? ?] ?] ?]. }
  assert (Hshape : ∀ {A} (g : list (list A)),
            length g = rows b →
            (∀ r, r < rows b → length <$> g !! r = Some (cols b)) →
            shape (rows b) (cols b) g).
  { intros A g Hlen Hg. split; [done|]. intros r line Hline.
    assert (Hr : r < rows b) by (rewrite <- Hlen; by eapply lookup_lt_Some).
    specialize (Hg r Hr). rewrite Hline in Hg. by injection Hg. }
  split_and!.
  - apply Hshape; [done|]. intros r Hr. by destruct (Hrow r Hr) as (? & ? & ? & ?).
  - apply Hshape; [done|]. intros r Hr. by destruct (Hrow r Hr) as (? & ? & ? & ?).
  - apply Hshape; [done|]. intros r Hr. by destruct (Hrow r Hr) as (? & ? & ? & ?).
  - intros r c Hr Hc. destruct (Hrow r Hr) as (_ & _ & _ & Hcells). by apply Hcells.
Qed.

Lemma checkRep_Rep b : checkRep b = true → Rep b.
Proof.
  intros Hrep. destruct (checkRep_shape b Hrep) as (Hc & _ & _ & Hcells).
  revert Hrep. unfold checkRep.
  rewrite !andb_true_iff, !bool_decide_eq_true.
  intros [[[[[[[[[? ?] _] _] _] _] Hids] Hwait] Hling] Hwatch].
  split; try done.
  - intros r c pic Hcard.
    destruct (cell_in_shape _ _ _ _ _ _ Hc Hcard) as [Hr Hcol].
    by eapply check_cell_card; [apply Hcells|].
  - revert Hids. apply forallb_Forall. intros id. apply valid_token_check.
  - revert Hwatch. by apply forallb_Forall.
Qed.

Lemma Rep_checkRep b : Consistent b → Rep b → checkRep b = true.
Proof.
  intros Hb [Hrows Hcols Hcards Hids Hwait Hling Hwatch].
  unfold checkRep. rewrite !andb_true_iff, !bool_decide_eq_true, forallb_seq.
  split_and!; try done; try apply Hb.
  - intros r Hr. unfold check_row.
    rewrite !andb_true_iff, !bool_decide_eq_true, forallb_seq.
    destruct (shape_row _ _ (cards b) r (c_cards b Hb) Hr) as (l1 & Hl1 & Hlen1).
    destruct (shape_row _ _ (faceUp b) r (c_faceUp b Hb) Hr) as (l2 & Hl2 & Hlen2).
    destruct (shape_row _ _ (controller b) r (c_controller b Hb) Hr)
      as (l3 & Hl3 & Hlen3).
    rewrite Hl1, Hl2, Hl3. simpl. rewrite Hlen1, Hlen2, Hlen3.
    split_and!; try done.
    intros c Hc.
    destruct (Consistent_cells b r c Hb Hr Hc) as (card & up & ctrl & H1 & H2 & H3).
    unfold check_cell. rewrite H1, H2, H3. destruct card as [pic|].
    + apply andb_true_iff. split; [by eapply valid_token_check, Hcards|].
      destruct ctrl as [id|]; [|done]. by destruct (c_ctrl b Hb r c id H3) as (_ & _ & ?).
    + destruct (c_empty b Hb r c H1) as [? ?]. simplify_eq.
      by rewrite !bool_decide_eq_true_2.
  - revert Hids. apply forallb_Forall. intros id. apply valid_token_check.
  - revert Hwatch. by apply forallb_Forall.
Qed.

Section Good.
Context (cs : list Pos) (ids : list string).

Lemma Good_with_faceUp b g : Good cs ids b → Good cs ids (with_faceUp g b).
Proof. by intros ([] & ? & ? & ?). Qed.

Lemma Good_with_controller b g : Good cs ids b → Good cs ids (with_controller g b).
Proof. by intros ([] & ? & ? & ?). Qed.

Lemma Good_with_changeResolvers_nil b :
Good cs ids b → Good cs ids (with_changeResolvers [] b).
Proof. intros ([] & ? & ? & ?). by split_and!. Qed.

Lemma Good_remove_card b r c :
Good cs ids b → Good cs ids (with_cards (set_cell (cards b) r c None) b).
Proof.
intros ([? ? Hcards ? ? ? ?] & ? & ? & ?). split_and!; try done.
split; try done. simpl. intros r' c' pic. rewrite cell_set_cell.
case_decide; [|by apply Hcards]. by destruct (cell (cards b) r c).
Qed.

Lemma Good_delete_waiting b key :
Good cs ids b →
Good cs ids (with_waitingForControl (delete key (waitingForControl b)) b).
Proof.
intros ([? ? ? ? Hwait ? ?] & ? & ? & ?). split_and!; try done.
split; try done. simpl. by apply map_Forall_delete.
Qed.

Lemma Good_insert_waiting b key queue :
key ∈ cs → Good cs ids b →
Good cs ids (with_waitingForControl (<[key := queue]> (waitingForControl b)) b).
Proof.
intros Hkey ([? ? ? ? Hwait ? ?] & ? & Hcs & ?). split_and!; try done.
split; try done. simpl. apply map_Forall_insert_2; [|done].
by apply (proj1 (Forall_forall _ _) Hcs).
Qed.

Lemma Good_delete_lingering b id :
Good cs ids b → Good cs ids (with_lingering (delete id (lingering b)) b).
Proof.
intros ([? ? ? ? ? Hling ?] & ? & ? & ?). split_and!; try done.
split; try done. simpl. by apply map_Forall_delete.
Qed.

Lemma Good_remember b id pos :
id ∈ ids → pos ∈ cs → Good cs ids b →
Good cs ids
(with_lingering (<[id := default [] (lingering b !! id) ++ [pos]]> (lingering b)) b).
Proof.
intros Hid Hpos ([? ? ? ? ? Hling ?] & ? & Hcs & Hids). split_and!; try done.
split; try done. simpl. apply map_Forall_insert_2; [|done]. split.
- by apply (proj1 (Forall_forall _ _) Hids).
- apply Forall_app. split.
+ destruct (lingering b !! id) as [l|] eqn:Hl; [|constructor].
by destruct (Hling id l Hl).
+ constructor; [|constructor]. by apply (proj1 (Forall_forall _ _) Hcs).
Qed.

Lemma Good_set_player b key p p' :
JsMap.get key (players b) = Some p →
(∀ pos, p_firstCard p' = Some pos ∨ p_secondCard p' = Some pos →
pos ∈ cs ∨ p_firstCard p = Some pos ∨ p_secondCard p = Some pos) →
Good cs ids b → Good cs ids (with_players (JsMap.set key p' (players b)) b).
Proof.
intros Hp Hpos ([? ? ? Hids ? Hling Hwatch] & Hposs & Hcs & Hreg).
assert (Hhas : ∀ id, JsMap.has id (JsMap.set key p' (players b))
         = JsMap.has id (players b)).
{ intros id. rewrite JsMap_has_set. case_bool_decide as Heq; [|done].
subst id. simpl. unfold JsMap.has. by rewrite Hp. }
split_and!.
- split; try done; simpl.
+ rewrite JsMap_keys_set_has; [done|]. unfold JsMap.has. by rewrite Hp.
+ eapply map_Forall_impl; [exact Hling|]. simpl. intros id l [? ?].
by rewrite Hhas.
+ eapply Forall_impl; [exact Hwatch|]. unfold registered. simpl.
intros id ?. by rewrite Hhas.
- intros k q pos. simpl. rewrite JsMap_get_set. case_decide as Heq.
+ intros [= <-] Hq. subst k. destruct (Hpos pos Hq) as [Hin|Hold].
* by apply (proj1 (Forall_forall _ _) Hcs).
* by apply (Hposs key p pos).
+ apply Hposs.
- done.
- eapply Forall_impl; [exact Hreg|]. unfold registered. simpl.
intros id ?. by rewrite Hhas.
Qed.

Lemma Good_updatePlayer key f :
(∀ p pos, p_firstCard (f p) = Some pos ∨ p_secondCard (f p) = Some pos →
pos ∈ cs ∨ p_firstCard p = Some pos ∨ p_secondCard p = Some pos) →
preserves (Good cs ids) (updatePlayer key f).
Proof.
intros Hf. apply preserves_modify. intros b Hb.
destruct (JsMap.get key (players b)) as [p|] eqn:Hp; [|done].
apply (Good_set_player b key p); [done | apply Hf | done].
Qed.
End Good.

Ltac elem_of_cells :=
  solve [ assumption
        | match goal with
          | H : ?p ∈ _ |- (?p.1, ?p.2) ∈ _ => by destruct p
          end
        | repeat first [by left | right] ].

Ltac good_leaf :=
  idtac;
  match goal with
  | |- preserves _ (updatePlayer _ _) =>
      apply Good_updatePlayer; intros ? ?; simpl; intros [[= <-]|[= <-]];
      first [ by (right; left) | by (right; right) | left; elem_of_cells ]
  | |- preserves _ (updatePlayer _ _) =>
      apply Good_updatePlayer; intros ? ?; simpl; intros [?|?];
      first [ done | by (right; left) | by (right; right) ]
  | |- preserves _ (modify _) =>
      apply preserves_modify; intros ? ?; simpl; repeat case_match;
      first [ assumption
            | by apply Good_with_faceUp
            | by apply Good_with_controller
            | by apply Good_with_changeResolvers_nil
            | by apply Good_remove_card
            | by apply Good_delete_waiting
            | by apply Good_delete_lingering
            | apply Good_insert_waiting; [elem_of_cells | done]
            | apply Good_remember; [elem_of_cells | elem_of_cells | done] ]
  end.

Lemma Good_cleanupPreviousPlay cs ids player :
  preserves (Good cs ids) (cleanupPreviousPlay player).
Proof.
  unfold cleanupPreviousPlay, cleanLingering, cleanCards, removeIfControlled,
    notifyWaiters, pictureAt, flipDownIfUncontrolled.
  preserves_structure good_leaf.
Qed.

Lemma Good_failSecond cs ids playerId first e :
  playerId ∈ ids → first ∈ cs →
  preserves (Good cs ids) (failSecond playerId first e).
Proof.
  intros Hid Hfirst.
  unfold failSecond, relinquish, notifyWaiters, rememberLingering.
  preserves_structure good_leaf.
Qed.

Lemma Good_firstCardRules ids playerId row col :
  preserves (Good [(row, col)] ids) (firstCardRules playerId row col).
Proof.
  unfold firstCardRules, notifyChange.
  preserves_structure good_leaf.
Qed.

Lemma Good_secondCardRules ids playerId first row col :
  playerId ∈ ids →
  preserves (Good [(row, col); first] ids) (secondCardRules playerId first row col).
Proof.
  intros Hid. unfold secondCardRules.
  assert (Hfail : ∀ e, preserves (Good [(row, col); first] ids)
                         (failSecond playerId first e)).
  { intros e. apply Good_failSecond; [done | by right; left]. }
  unfold relinquish, notifyWaiters, notifyChange, pictureAt.
  preserves_structure ltac:(first [apply Hfail | good_leaf]).
Qed.

Lemma Good_intro b cs ids :
  Rep b → Positions b → Forall (in_bounds b) cs → Forall (λ id, registered id b) ids →
  Good cs ids b.
Proof. by unfold Good. Qed.

Lemma Good_Rep b cs ids : Good cs ids b → Rep b ∧ Positions b.
Proof. by intros (? & ? & _). Qed.

Lemma requireInBounds_cases b (row col : nat) :
  (requireInBounds row col b = Out (inr ()) b [] ∧ in_bounds b (row, col))
  ∨ requireInBounds row col b = Out (inl OutOfBounds) b [].
Proof.
  rewrite requireInBounds_nat. unfold in_bounds. case_bool_decide; [by right|].
  left. split; [done|]. simpl. lia.
Qed.

Lemma Good_flipUp playerId row col b :
  Rep b → Positions b →
  Rep (board_after (flipUp playerId row col b))
  ∧ Positions (board_after (flipUp playerId row col b)).
Proof.
  intros Hrep Hpos.
  destruct (requireInBounds_number row col b) as [(r & c & -> & ->) | (e & _ & Hreq)].
  2: { unfold flipUp. by rewrite board_after_bind, Hreq. }
  rename r into row, c into col.
  unfold flipUp. rewrite !index_nat. rewrite board_after_bind.
  destruct (requireInBounds_cases b row col) as [[-> Hin]| ->];
    cbn [result board_after]; [|done].
  rewrite board_after_get_bind.
  destruct (JsMap.has playerId (players b)) eqn:Hreg; [|done]. cbn [negb].
  destruct (cards b !! row); [|done].
  destruct (faceUp b !! row); [|done].
  destruct (controller b !! row); [|done].
  assert (Hgood : Good [(row, col)] [playerId] b).
  { apply Good_intro; [done | done | |].
    - constructor; [exact Hin | constructor].
    - constructor; [exact Hreg | constructor]. }
  clear Hrep Hpos Hin.
  destruct (JsMap.get playerId (players b)) as [p|] eqn:Hp.
  2: { rewrite thePlayer_bind_unknown by done. by eapply Good_Rep. }
  rewrite (thePlayer_bind _ _ _ _ Hp). rewrite board_after_bind.
  set (pre := if bool_decide (getSecondCard p ≠ None)
              then cleanupPreviousPlay playerId else ret ()).
  assert (Hpre : Good [(row, col)] [playerId] (board_after (pre b))).
  { subst pre. case_bool_decide; [|done]. by apply Good_cleanupPreviousPlay. }
  destruct (result (pre b)) as [e|[]]; [by eapply Good_Rep|].
  generalize dependent (board_after (pre b)). clear. intros b Hgood.
  destruct (JsMap.get playerId (players b)) as [p|] eqn:Hp.
  2: { rewrite thePlayer_bind_unknown by done. by eapply Good_Rep. }
  rewrite (thePlayer_bind _ _ _ _ Hp).
  destruct (isFirstCardFlip p).
  - apply (Good_Rep _ [(row, col)] [playerId]).
    revert b Hgood Hp. intros b Hgood _. revert b Hgood.
    apply (preserves_bind (Good [(row, col)] [playerId]));
      [apply Good_cleanupPreviousPlay | intros _; apply Good_firstCardRules].
  - unfold flipSecond. rewrite (thePlayer_bind _ _ _ _ Hp).
    destruct (getFirstCard p) as [first|] eqn:Hfirst; [|by eapply Good_Rep].
    apply (Good_Rep _ [(row, col); first] [playerId]).
    apply Good_secondCardRules; [by left|].
    destruct Hgood as (Hrep & Hpos & Hcs & Hids).
    apply Good_intro; try done.
    constructor; [by apply Forall_inv in Hcs|]. constructor; [|constructor].
    apply (Hpos playerId p first Hp). by left.
Qed.

Lemma Valid_flipUp playerId row col : preserves Valid (flipUp playerId row col).
Proof.
  intros b (Hb & Hrep & Hpos). split; [by apply Consistent_flipUp|].
  by apply Good_flipUp.
Qed.

Lemma Valid_checkRep b : Valid b → checkRep b = true.
Proof. intros (Hb & Hrep & _). by apply Rep_checkRep. Qed.

(** ** C10: [registerPlayer] does not look at the display name *)

(** C10. For every board and every id, two calls of [registerPlayer] that
    differ only in the display name end in the same way: the same result (the
    same [Player] record or the same error), the same board and the same
    events; hence whatever is run next behaves the same. *)
Theorem registerPlayer_ignores_displayName
    (b : Board) (id : string) (d1 d2 : option string) :
  registerPlayer id d1 b = registerPlayer id d2 b
  ∧ ∀ (A : Type) (next : Player → M A),
      bind (registerPlayer id d1) next b = bind (registerPlayer id d2) next b.
Proof. done. Qed.

(** ** C5: the token [none] in a board file *)

(** C5 (what the code does at the failing input). The file of one cell whose
    card line is the literal token [none] is accepted, and the cell is not
    empty: its picture is the string "none", which [render] shows as a card
    lying face down. *)
Theorem none_token_is_a_card :
  ∃ b, parseFromFile (Text.unlines ["1x1"; "none"]) = inr b
       ∧ result (pictureAt 0 0 b) = inr (Some "none")
       ∧ render b "alice" = Text.unlines ["1x1"; "down"].
Proof. eexists. split; [vm_compute; reflexivity|]. by vm_compute. Qed.

(** ** C4: releasing a card and waking its waiters *)

(** C4 (what the code does at the failing input). With [bob] parked on the
    card that [alice] controls, [flipDown] succeeds and takes the control of
    the card away from [alice], but it resolves no waiter and leaves [bob]'s
    deferred in the queue of the cell. *)
Theorem flipDown_leaves_waiters_parked :
  cell (controller bob_parked) 0 0 = Some (Some "alice")
  ∧ waitingForControl bob_parked !! (0, 0) = Some [mkDeferred "bob" 0 0]
  ∧ result (flipDown 0 0 bob_parked) = inr ()
  ∧ cell (cards (after (flipDown 0 0) bob_parked)) 0 0 = Some (Some "A")
  ∧ cell (controller (after (flipDown 0 0) bob_parked)) 0 0 = Some None
  ∧ waitingForControl (after (flipDown 0 0) bob_parked) !! (0, 0)
    = Some [mkDeferred "bob" 0 0]
  ∧ events (flipDown 0 0 bob_parked) = [].
Proof. by vm_compute. Qed.

(** ** C9: [map] *)

Section map_facts.
Context {S : Type} (f : string → S → string * S).

Lemma transform_cards_app l1 l2 s :
transform_cards f (l1 ++ l2) s
= let '(l1', s1) := transform_cards f l1 s in
let '(l2', s2) := transform_cards f l2 s1 in
(l1' ++ l2', s2).
Proof.
revert s. induction l1 as [|[pic|] l1 IH]; intros s; simpl.
- by destruct (transform_cards f l2 s).
- destruct (f pic s) as [pic' s1]. rewrite IH.
destruct (transform_cards f l1 s1) as [l1' s2].
by destruct (transform_cards f l2 s2).
- rewrite IH. destruct (transform_cards f l1 s) as [l1' s1].
by destruct (transform_cards f l2 s1).
Qed.

(** Row-major order: the grid transformed row after row is the flat list of
its cells transformed from first to last. *)
Lemma transform_grid_concat g s :
concat (transform_grid f g s).1 = (transform_cards f (concat g) s).1
∧ (transform_grid f g s).2 = (transform_cards f (concat g) s).2.
Proof.
revert s. induction g as [|line g IH]; intros s; simpl; [done|].
rewrite transform_cards_app.
destruct (transform_cards f line s) as [line' s1].
destruct (IH s1) as [IH1 IH2].
destruct (transform_grid f g s1) as [g' s2].
destruct (transform_cards f (concat g) s1) as [flat' s2'].
simpl in *. by subst.
Qed.

Lemma transform_cards_length cells s :
length (transform_cards f cells s).1 = length cells.
Proof.
revert s. induction cells as [|[pic|] cells IH]; intros s; simpl; [done| |].
- destruct (f pic s) as [pic' s1]. specialize (IH s1).
destruct (transform_cards f cells s1). simpl in *. by rewrite IH.
- specialize (IH s). destruct (transform_cards f cells s). simpl in *. by rewrite IH.
Qed.

Lemma with_cards_same b : with_cards (cards b) b = b.
Proof. by destruct b. Qed.

Lemma insert_set_cell (g : list (list (option string))) r c v line :
<[r := line]> (set_cell g r c v) = <[r := line]> g.
Proof.
unfold set_cell. apply list_eq. intros i.
destruct (decide (r = i)) as [<-|Hne].
- destruct (g !! r) as [old|] eqn:Hold.
+ rewrite !list_lookup_insert_eq; [done | |].
* by eapply lookup_lt_Some.
* rewrite length_alter. by eapply lookup_lt_Some.
+ rewrite !list_insert_ge; [by rewrite list_lookup_alter_eq, Hold | |].
* by apply lookup_ge_None.
* rewrite length_alter. by apply lookup_ge_None.
- by rewrite !list_lookup_insert_ne, list_lookup_alter_ne.
Qed.

(** The inner loop, from column [length pre] on. *)
Lemma map_row b r pre suf s :
cards b !! r = Some (pre ++ suf) →
foldl (λ acc c, map_cell f acc (r, c)) (b, s) (seq (length pre) (length suf))
= (with_cards (<[r := pre ++ (transform_cards f suf s).1]> (cards b)) b,
 (transform_cards f suf s).2).
Proof.
revert pre b s. induction suf as [|x suf IH]; intros pre b s Hrow; simpl.
- rewrite list_insert_id by done. by rewrite with_cards_same.
- assert (Hcell : cell (cards b) r (length pre) = Some x).
{ rewrite (cell_row _ _ _ _ Hrow). by apply list_lookup_middle. }
rewrite Hcell. destruct x as [pic|].
+ destruct (f pic s) as [pic' s1] eqn:Hf.
specialize (IH (pre ++ [Some pic'])
       (with_cards (set_cell (cards b) r (length pre) (Some pic')) b) s1).
rewrite length_app, Nat.add_1_r in IH. rewrite IH; clear IH.
* destruct (transform_cards f suf s1) as [suf' s2]. simpl.
rewrite insert_set_cell. by rewrite <- app_assoc.
* simpl. unfold set_cell. rewrite list_lookup_alter_eq, Hrow. simpl.
rewrite insert_app_r_alt by done. rewrite Nat.sub_diag. simpl.
by rewrite <- app_assoc.
+ specialize (IH (pre ++ [None]) b s).
rewrite length_app, Nat.add_1_r in IH. rewrite IH; clear IH.
* destruct (transform_cards f suf s) as [suf' s2]. simpl.
by rewrite <- app_assoc.
* by rewrite <- app_assoc.
Qed.

(** The outer loop, from row [length done] on. *)
Lemma map_rows b done todo s :
cards b = done ++ todo → Forall (λ line, length line = cols b) todo →
foldl (map_cell f) (b, s)
(r ← seq (length done) (length todo); (λ c, (r, c)) <$> seq 0 (cols b))
= (with_cards (done ++ (transform_grid f todo s).1) b, (transform_grid f todo s).2).
Proof.
revert done b s. induction todo as [|line todo IH]; intros done b s Hcards Hlen.
- simpl. rewrite <- Hcards. by rewrite with_cards_same.
- apply Forall_cons in Hlen as [Hline Htodo].
cbn [length seq]. rewrite bind_cons, foldl_app, foldl_fmap.
assert (Hrow : cards b !! length done = Some ([] ++ line)).
{ rewrite Hcards. by apply list_lookup_middle. }
pose proof (map_row b (length done) [] line s Hrow) as Hr.
simpl in Hr. rewrite Hline in Hr. rewrite Hr. clear Hr. simpl.
destruct (transform_cards f line s) as [line' s1]. simpl.
specialize (IH (done ++ [line'])
     (with_cards (<[length done := line']> (cards b)) b) s1).
rewrite length_app, Nat.add_1_r in IH. simpl in IH. rewrite IH; clear IH.
+ destruct (transform_grid f todo s1) as [todo' s2]. simpl.
by rewrite <- app_assoc.
+ rewrite Hcards. rewrite insert_app_r_alt by done.
rewrite Nat.sub_diag. simpl. by rewrite <- app_assoc.
+ done.
Qed.

Lemma map_sweep b s :
shape (rows b) (cols b) (cards b) →
foldl (map_cell f) (b, s) (row_major (rows b) (cols b))
= (with_cards (transform_grid f (cards b) s).1 b, (transform_grid f (cards b) s).2).
Proof.
intros [Hlen Hrows]. unfold row_major.
pose proof (map_rows b [] (cards b) s eq_refl) as H.
simpl in H. rewrite Hlen in H. apply H.
apply Forall_forall. intros line [r Hr]%list_elem_of_lookup. by eapply Hrows.
Qed.

End map_facts.

Lemma transform_grid_lengths {S : Type} (f : string → S → string * S) g s :
  length <$> (transform_grid f g s).1 = length <$> g.
Proof.
  revert s. induction g as [|line g IH]; intros s; simpl; [done|].
  pose proof (transform_cards_length f line s) as Hline.
  destruct (transform_cards f line s) as [line' s1]. specialize (IH s1).
  destruct (transform_grid f g s1) as [g' s2]. simpl in *. by f_equal.
Qed.

Lemma assertRep_notifyChange {A : Type} (a : A) b :
  (assertRep >> notifyChange >> ret a) b
  = if checkRep b
    then Out (inr a) (with_changeResolvers [] b) (deliveries b)
    else Out (inl RepInvariantViolated) b [].
Proof.
  unfold bind at 1, assertRep. destruct (checkRep b); [|done].
  simpl. by rewrite !app_nil_r.
Qed.

(** C9 (counterexample). On the board parsed from a one-card file, a transform
    that returns the empty picture breaks the picture contract; [map] then
    fails with the assertion failure of [checkRep], not with [InvalidCard],
    after it has replaced the card. *)
Lemma map_blank_is_not_InvalidCard :
  parseFromFile one_card = inr one_card_board
  ∧ ¬ valid_token (blank "A" ()).1
  ∧ result (map blank () one_card_board) = inl RepInvariantViolated
  ∧ (∀ line, result (map blank () one_card_board) ≠ inl (InvalidCard line))
  ∧ cards (board_after (map blank () one_card_board)) = [[Some ""]].
Proof.
  split_and!; try by vm_compute.
  by intros [? _].
Qed.

(** C9 (amended). On a board whose card grid has the declared shape, [map f]
    replaces the cards by the grid in which [f] has been applied to every
    non-empty card exactly once, in row-major order, the state of [f]
    threaded from one call to the next, empty cells and the length of every
    row unchanged.  Then [checkRep] is run on the result: if it passes, every
    registered watcher is delivered its render of the new board and the
    watchers are cleared; if it fails, which it does whenever [f] has produced
    a picture that is empty or contains whitespace, [map] fails with the
    assertion failure of [checkRep] ([RepInvariantViolated]), the cards stay
    replaced and no watcher is notified. *)
Theorem map_transforms_then_checks {S : Type} (f : string → S → string * S)
    (s : S) (b : Board) :
  shape (rows b) (cols b) (cards b) →
  let cards' := (transform_grid f (cards b) s).1 in
  let s' := (transform_grid f (cards b) s).2 in
  let b' := with_cards cards' b in
  concat cards' = (transform_cards f (concat (cards b)) s).1
  ∧ s' = (transform_cards f (concat (cards b)) s).2
  ∧ length <$> cards' = length <$> cards b
  ∧ map f s b
    = (if checkRep b'
       then Out (inr s') (with_changeResolvers [] b') (deliveries b')
       else Out (inl RepInvariantViolated) b' [])
  ∧ ((∃ r c pic, cell cards' r c = Some (Some pic) ∧ ¬ valid_token pic) →
     checkRep b' = false).
Proof.
  intros Hshape cards' s' b'. split_and!.
  - apply transform_grid_concat.
  - apply transform_grid_concat.
  - apply transform_grid_lengths.
  - unfold map. rewrite (map_sweep f b s Hshape). apply assertRep_notifyChange.
  - intros (r & c & pic & Hcell & Hbad).
    destruct (checkRep b') eqn:Hrep; [|done].
    destruct Hbad. by apply (r_cards b' (checkRep_Rep b' Hrep) r c pic).
Qed.

Lemma map_transforms_then_checks_witness :
  shape (rows two_pairs_board) (cols two_pairs_board) (cards two_pairs_board)
  ∧ map double [] two_pairs_board
    = Out (inr ["A"; "A"; "B"; "B"])
          (with_cards [[Some "AA"; Some "AA"]; [Some "BB"; Some "BB"]] two_pairs_board)
          [].
Proof.
  assert (Hshape : shape (rows two_pairs_board) (cols two_pairs_board)
                     (cards two_pairs_board)).
  { apply checkRep_shape. vm_compute. reflexivity. }
  split; [exact Hshape|].
  destruct (map_transforms_then_checks double [] two_pairs_board Hshape)
    as (_ & _ & _ & Hmap & _).
  rewrite Hmap. vm_compute. reflexivity.
Defined.

(** ** Lines of a text *)

Section text_facts.
Import Text.

Lemma append_cons (a : ascii) (s t : string) : String a s +:+ t = String a (s +:+ t).
Proof. done. Qed.

Lemma append_nil_l (s : string) : "" +:+ s = s.
Proof. done. Qed.

Lemma append_nil_r (s : string) : s +:+ "" = s.
Proof. induction s as [|a s IH]; [done|]. by rewrite append_cons, IH. Qed.

Lemma append_assoc (s1 s2 s3 : string) : (s1 +:+ s2) +:+ s3 = s1 +:+ s2 +:+ s3.
Proof. induction s1 as [|a s1 IH]; [done|]. by rewrite !append_cons, IH. Qed.

Lemma length_append (s u : string) :
String.length (s +:+ u) = String.length s + String.length u.
Proof. induction s as [|a s IH]; [done|]. rewrite append_cons. simpl. by rewrite IH. Qed.

Lemma append_inv_tail (s1 s2 t : string) : s1 +:+ t = s2 +:+ t → s1 = s2.
Proof.
revert s2. induction s1 as [|a s1 IH]; intros [|b s2];
rewrite ?append_cons, ?append_nil_l; try done.
- intros H. apply (f_equal String.length) in H. simpl in H.
rewrite length_append in H. lia.
- intros H. apply (f_equal String.length) in H. simpl in H.
rewrite length_append in H. lia.
- intros [= -> H]. f_equal. by apply IH.
Qed.

Lemma split_lf_not_nil s : split_lf s ≠ [].
Proof.
destruct s as [|a s]; simpl; [done|].
destruct (Ascii.eqb a LF); [done|]. by destruct (split_lf s).
Qed.

Lemma join_split_lf s : join_lf (split_lf s) = s.
Proof.
induction s as [|a s IH]; simpl; [done|].
destruct (Ascii.eqb_spec a LF) as [->|Hne].
- pose proof (split_lf_not_nil s). simpl.
destruct (split_lf s) as [|l ls]; [done|]. simpl in *. by rewrite IH.
- pose proof (split_lf_not_nil s).
destruct (split_lf s) as [|l ls]; [done|].
simpl in *. destruct ls; simpl in *; by rewrite <- IH.
Qed.

(** The last line is empty exactly when the text is empty or ends with a
line feed. *)
Lemma last_split_lf s :
last (split_lf s) = Some "" ↔ s = "" ∨ ends_with_lf s = true.
Proof.
induction s as [|a s IH]; simpl; [by split; [left|]|].
pose proof (split_lf_not_nil s) as Hne.
destruct (Ascii.eqb_spec a LF) as [->|Ha].
- destruct (split_lf s) as [|l ls] eqn:Hsplit; [done|].
change (last ("" :: l :: ls)) with (last (l :: ls)). rewrite IH.
destruct s as [|b s]; simpl; [by split; [right|left]|].
split; [intros [?|?]; [done | by right] | intros [?|?]; [done | by right]].
- destruct (split_lf s) as [|l ls] eqn:Hsplit; [done|].
destruct ls as [|l' ls].
+ simpl in *. split; [done|]. intros [?|Hends]; [done|].
destruct s as [|b s]; [done|].
assert (Hl : Some l = Some "") by (apply IH; by right).
pose proof (join_split_lf (String b s)) as Hjoin.
rewrite Hsplit in Hjoin. simpl in Hjoin. by simplify_eq.
+ change (last (String a l :: l' :: ls)) with (last (l :: l' :: ls)).
rewrite IH. destruct s as [|b s]; [done|].
split; [intros [?|?]; [done | by right] | intros [?|?]; [done | by right]].
Qed.

Lemma join_lf_snoc_empty (init : list string) :
init ≠ [] → join_lf (init ++ [""]) = unlines init.
Proof.
unfold unlines. induction init as [|x init IH]; [done|]. intros _.
destruct init as [|y init]; simpl; [done|].
simpl in IH. rewrite IH by done. by rewrite append_assoc.
Qed.

Lemma unlines_cons x l : unlines (x :: l) = x +:+ String LF (match l with [] => "" | _ => unlines l end).
Proof.
unfold unlines. destruct l as [|y l]; simpl; [done|]. by rewrite append_assoc.
Qed.

Lemma unlines_header_inj x y l : unlines (x :: l) = unlines (y :: l) → x = y.
Proof. rewrite !unlines_cons. apply append_inv_tail. Qed.

End text_facts.

Lemma unlines_file_lines text :
  file_lines text ≠ [] → Text.unlines (file_lines text) = normalised text.
Proof.
  unfold file_lines, normalised.
  set (norm := Text.replace_cr (Text.replace_crlf text)).
  pose proof (join_split_lf norm) as Hjoin.
  pose proof (last_split_lf norm) as Hlast.
  pose proof (split_lf_not_nil norm) as Hne.
  destruct (Text.split_lf norm) as [|l ls] using rev_ind; [done|]. clear IHls.
  rewrite last_snoc in *. rewrite removelast_last.
  case_bool_decide as Hempty.
  - injection Hempty as ->. intros Hls.
    rewrite join_lf_snoc_empty in Hjoin by done. rewrite Hjoin.
    destruct (proj1 Hlast eq_refl) as [Hnorm| ->]; [|done].
    rewrite Hnorm in Hjoin. destruct ls as [|x ls]; [done|].
    rewrite unlines_cons in Hjoin. by destruct x.
  - intros _. unfold Text.unlines. rewrite Hjoin.
    destruct (Text.ends_with_lf norm) eqn:Hends; [|done].
    destruct Hempty. f_equal. symmetry.
    assert (H : Some l = Some "") by (apply Hlast; by right). by injection H.
Qed.

(** ** The dump of a parsed board *)

Lemma read_cards_layout i cardLines layout :
  read_cards i cardLines = inr layout →
  layout = Some <$> cardLines ∧ Forall valid_token cardLines.
Proof.
  revert i layout. induction cardLines as [|tok rest IH]; intros i layout; simpl.
  - by intros [= <-].
  - destruct (bool_decide (tok = "") || Text.has_space tok) eqn:Htok; [done|].
    destruct (read_cards (S i) rest) as [e|layout'] eqn:Hrest; [done|].
    intros [= <-]. destruct (IH _ _ Hrest) as [-> Hvalid].
    split; [done|]. constructor; [|done].
    apply orb_false_iff in Htok as [Hne%bool_decide_eq_false Hsp]. by split.
Qed.

(** The nested loops [for r, for c] visit the indices [r * ncols + c] in
    increasing order. *)
Lemma row_major_flat {A : Type} (g : nat → A) nrows ncols :
  (r ← seq 0 nrows; (λ c, g (r * ncols + c)) <$> seq 0 ncols)
  = g <$> seq 0 (nrows * ncols).
Proof.
  induction nrows as [|n IH]; [done|].
  rewrite seq_S, bind_app, IH. change (0 + n) with n.
  rewrite bind_cons. change ([] ≫= _) with (@nil A). rewrite app_nil_r.
  replace (Datatypes.S n * ncols) with (n * ncols + ncols) by lia.
  rewrite seq_app, fmap_app. f_equal. change (0 + n * ncols) with (n * ncols).
  replace (seq (n * ncols) ncols) with (Nat.add (n * ncols) <$> seq 0 ncols)
    by (rewrite fmap_add_seq; f_equal; lia).
  by rewrite <- list_fmap_compose.
Qed.

Lemma list_bind_ext_in {A B : Type} (f g : A → list B) (l : list A) :
  (∀ x, x ∈ l → f x = g x) → l ≫= f = l ≫= g.
Proof.
  induction l as [|x l IH]; intros Hfg; [done|].
  rewrite !bind_cons. rewrite (Hfg x) by left. f_equal.
  apply IH. intros y Hy. apply Hfg. by right.
Qed.

Lemma fmap_lookup_seq (l : list string) :
  (λ i, default "none" (default None ((Some <$> l) !! i))) <$> seq 0 (length l) = l.
Proof.
  apply list_eq. intros i. rewrite list_lookup_fmap.
  destruct (decide (i < length l)) as [Hi|Hi].
  - rewrite lookup_seq_lt by done. simpl. rewrite list_lookup_fmap.
    destruct (lookup_lt_is_Some_2 l i Hi) as [x Hx]. by rewrite Hx.
  - rewrite lookup_seq_ge by lia. simpl. symmetry. apply lookup_ge_None. lia.
Qed.

Lemma dump_newBoard nrows ncols cardLines b :
  length cardLines = nrows * ncols →
  newBoard nrows ncols (Some <$> cardLines) = inr b →
  seq 0 (rows b) ≫= dump_row b = cardLines.
Proof.
  intros Hlen [-> _]%newBoard_fields. simpl.
  rewrite <- (fmap_lookup_seq cardLines) at 2. rewrite Hlen.
  rewrite <- row_major_flat. apply list_bind_ext_in.
  intros r [_ Hr]%elem_of_seq. unfold dump_row. simpl in *.
  rewrite list_lookup_fmap, lookup_seq_lt by done. simpl.
  apply list_fmap_ext. intros i c [-> Hc]%lookup_seq. simpl.
  unfold layout_row. rewrite list_lookup_fmap, lookup_seq_lt by done. done.
Qed.

(** ** C6: parsing then dumping *)

(** C6 (counterexample). The file [01x1 / A] is accepted and is already in
    normalised form, but the dump of the board parsed from it starts with the
    header [1x1]: it differs from the normalised contents of the file. *)
Lemma dump_rewrites_header :
  parseFromFile zero_padded = inr one_card_board
  ∧ normalised zero_padded = zero_padded
  ∧ picturesDump one_card_board = Text.unlines ["1x1"; "A"]
  ∧ picturesDump one_card_board ≠ normalised zero_padded.
Proof. split_and!; by vm_compute. Qed.

(** C6 (amended). For every file that [parseFromFile] accepts, the dump of
    the parsed board is the normalised contents of the file (line ends turned
    into LF, exactly one trailing LF) in which the header line is replaced by
    the dimensions printed as [<rows>x<cols>] in decimal; so the dump equals
    the normalised contents exactly when the header line of the file is
    already written that way, with no blank around it and no leading zero. *)
Theorem dump_of_parsed_file (text : string) (b : Board) :
  parseFromFile text = inr b →
  ∃ headerLine cardLines,
    file_lines text = headerLine :: cardLines
    ∧ Text.unlines (headerLine :: cardLines) = normalised text
    ∧ picturesDump b
      = Text.unlines ((Text.show (rows b) +:+ "x" +:+ Text.show (cols b)) :: cardLines)
    ∧ (picturesDump b = normalised text
       ↔ headerLine = Text.show (rows b) +:+ "x" +:+ Text.show (cols b)).
Proof.
  intros (headerLine & cardLines & m1 & m2 & nrows & ncols & layout & Hlines & _ &
          _ & _ & _ & _ & Hlen & Hcards & Hnew)%parseFromFile_newBoard.
  exists headerLine, cardLines.
  apply read_cards_layout in Hcards as [-> _].
  assert (Hnorm : Text.unlines (headerLine :: cardLines) = normalised text).
  { rewrite <- Hlines. apply unlines_file_lines. by rewrite Hlines. }
  assert (Hdump : picturesDump b
            = Text.unlines ((Text.show (rows b) +:+ "x" +:+ Text.show (cols b))
                              :: cardLines)).
  { unfold picturesDump. by rewrite (dump_newBoard nrows ncols cardLines b). }
  split_and!; [done | done | done |].
  rewrite Hdump, <- Hnorm. split.
  - intros H. symmetry. by eapply unlines_header_inj.
  - by intros ->.
Qed.

Lemma dump_of_parsed_file_witness :
  parseFromFile two_pairs = inr two_pairs_board
  ∧ picturesDump two_pairs_board = normalised two_pairs.
Proof.
  assert (Hparse : parseFromFile two_pairs = inr two_pairs_board)
    by (vm_compute; reflexivity).
  split; [exact Hparse|].
  destruct (dump_of_parsed_file two_pairs two_pairs_board Hparse)
    as (headerLine & cardLines & Hlines & _ & _ & Hiff).
  apply Hiff. vm_compute in Hlines. by injection Hlines as <- _.
Defined.

(** ** How a call of [flipUp] unfolds *)

Lemma board_after_Out {A : Type} (r : Error + A) b evs : board_after (Out r b evs) = b.
Proof. done. Qed.

Lemma events_Out {A : Type} (r : Error + A) b evs : events (Out r b evs) = evs.
Proof. done. Qed.

Lemma result_Out {A : Type} (r : Error + A) b evs : result (Out r b evs) = r.
Proof. done. Qed.

Lemma result_bind {A B : Type} (m : M A) (f : A → M B) b :
  result (bind m f b)
  = match result (m b) with
    | inl e => inl e
    | inr a => result (f a (board_after (m b)))
    end.
Proof. unfold bind. by destruct (result (m b)). Qed.

Lemma events_bind {A B : Type} (m : M A) (f : A → M B) b :
  events (bind m f b)
  = match result (m b) with
    | inl e => events (m b)
    | inr a => events (m b) ++ events (f a (board_after (m b)))
    end.
Proof. unfold bind. by destruct (result (m b)). Qed.

(** [bind] when the first part is known. *)
Lemma bind_Out {A B : Type} (m : M A) (f : A → M B) b a b1 evs :
  m b = Out (inr a) b1 evs →
  bind m f b = Out (result (f a b1)) (board_after (f a b1)) (evs ++ events (f a b1)).
Proof. intros Hm. unfold bind. by rewrite Hm. Qed.

Lemma bind_Out_quiet {A B : Type} (m : M A) (f : A → M B) b a b1 :
  m b = Out (inr a) b1 [] → bind m f b = f a b1.
Proof. intros Hm. rewrite (bind_Out _ _ _ _ _ _ Hm). simpl. by destruct (f a b1). Qed.

Lemma bind_Out_throw {A B : Type} (m : M A) (f : A → M B) b e b1 evs :
  m b = Out (inl e) b1 evs → bind m f b = Out (inl e) b1 evs.
Proof. intros Hm. unfold bind. by rewrite Hm. Qed.

Lemma get_bind {B : Type} (f : Board → M B) b : bind get f b = f b b.
Proof. by apply bind_Out_quiet. Qed.

Lemma modify_bind {B : Type} (g : Board → Board) (k : unit → M B) b :
  bind (modify g) k b = k () (g b).
Proof. by apply bind_Out_quiet. Qed.

Lemma updatePlayer_Out key f b p :
  JsMap.get key (players b) = Some p →
  updatePlayer key f b
  = Out (inr ()) (with_players (JsMap.set key (f p) (players b)) b) [].
Proof. intros Hp. unfold updatePlayer, modify. by rewrite Hp. Qed.

(** The dispatch at the top of [flipUp]. *)
Lemma flipUp_dispatch b playerId row col p :
  Consistent b → row < rows b → col < cols b →
  JsMap.get playerId (players b) = Some p →
  flipUp playerId row col b
  = ((if bool_decide (getSecondCard p ≠ None)
      then cleanupPreviousPlay playerId else ret ()) >>
     let* player := thePlayer playerId in
     if isFirstCardFlip player
     then flipFirst playerId row col
     else flipSecond playerId row col) b.
Proof.
  intros Hb Hr Hc Hp. unfold flipUp. rewrite ?index_nat.
  rewrite (bind_Out_quiet _ _ _ _ _ (requireInBounds_ok b row col Hr Hc)).
  rewrite get_bind. unfold JsMap.has. rewrite Hp. cbn [negb].
  destruct (shape_row _ _ _ row (c_cards b Hb) Hr) as (? & -> & _).
  destruct (shape_row _ _ _ row (c_faceUp b Hb) Hr) as (? & -> & _).
  destruct (shape_row _ _ _ row (c_controller b Hb) Hr) as (? & -> & _).
  by rewrite (thePlayer_bind _ _ _ _ Hp).
Qed.

(** ** What a method leaves untouched *)

(** [frame_leaf] closes an invariant of the form "this part of the board is
    what it was" at a write to another part. *)
Ltac frame_leaf :=
  idtac;
  match goal with
  | |- preserves _ (updatePlayer _ _) =>
      apply preserves_modify; intros ? ?; simpl; repeat case_match; simpl; done
  | |- preserves _ (modify _) =>
      apply preserves_modify; intros ? ?; simpl; repeat case_match; simpl; done
  end.

Ltac frame :=
  unfold cleanLingering, cleanCards, removeIfControlled, relinquish, notifyWaiters,
    notifyChange, pictureAt, rememberLingering, flipDownIfUncontrolled, failSecond;
  preserves_structure frame_leaf.

Lemma same_but_faces_cleanLingering b0 pid :
  preserves (same_but_faces b0) (cleanLingering pid).
Proof. unfold same_but_faces. frame. Qed.

Lemma quiet_ret {A : Type} (a : A) : quiet (ret a).
Proof. intros b. by exists a. Qed.

Lemma quiet_modify g : quiet (modify g).
Proof. intros b. by exists (). Qed.

Lemma quiet_get : quiet get.
Proof. intros b. by exists b. Qed.

Lemma quiet_bind {A B : Type} (m : M A) (f : A → M B) :
  quiet m → (∀ a, quiet (f a)) → quiet (bind m f).
Proof.
  intros Hm Hf b. destruct (Hm b) as (a & Ha & Hev).
  destruct (Hf a (board_after (m b))) as (a' & Ha' & Hev').
  exists a'. rewrite result_bind, events_bind, Ha, Hev. by split.
Qed.

Lemma quiet_for_each {A : Type} (xs : list A) (body : A → M unit) :
  (∀ x, quiet (body x)) → quiet (for_each xs body).
Proof.
  intros Hbody. induction xs as [|x xs IH]; simpl; [apply quiet_ret|].
  apply quiet_bind; [apply Hbody | by intros _].
Qed.

Lemma quiet_Out (m : M unit) b : quiet m → m b = Out (inr ()) (board_after (m b)) [].
Proof.
  intros Hm. destruct (Hm b) as ([] & Ha & Hev).
  destruct (m b) as [res b' evs]. simpl in *. by subst.
Qed.

Lemma quiet_flipDownIfUncontrolled row col : quiet (flipDownIfUncontrolled row col).
Proof. apply quiet_modify. Qed.

Lemma quiet_updatePlayer key f : quiet (updatePlayer key f).
Proof. apply quiet_modify. Qed.

Lemma quiet_cleanLingering pid : quiet (cleanLingering pid).
Proof.
  unfold cleanLingering. apply quiet_bind; [apply quiet_get | intros b].
  destruct (lingering b !! pid) as [[|pos linger]|]; try apply quiet_ret.
  apply quiet_bind; [|intros _; apply quiet_modify].
  apply quiet_for_each. intros [row col]. apply quiet_flipDownIfUncontrolled.
Qed.

Lemma JsMap_set_same {V : Type} k (v : V) m : JsMap.get k m = Some v → JsMap.set k v m = m.
Proof.
  induction m as [|[k' v'] m IH]; simpl; [done|].
  destruct (decide (k = k')) as [->|Hne].
  - by intros [= ->].
  - intros H. by rewrite IH.
Qed.

Lemma with_players_same b : with_players (players b) b = b.
Proof. by destruct b. Qed.

Lemma clearCards_idle p :
  p_firstCard p = None → p_secondCard p = None → clearCards p = p.
Proof. destruct p. simpl. by intros -> ->. Qed.

(** ** The previous-play cleanup *)

(** A player with nothing left from a previous play: the cleanup does
    nothing. *)
Lemma cleanupPreviousPlay_idle b pid p :
  JsMap.get pid (players b) = Some p → p_id p = pid →
  p_firstCard p = None → p_secondCard p = None →
  default [] (lingering b !! pid) = [] →
  cleanupPreviousPlay pid b = Out (inr ()) b [].
Proof.
  intros Hp Hid Hfirst Hsecond Hling. unfold cleanupPreviousPlay.
  rewrite (thePlayer_bind _ _ _ _ Hp). unfold getId, getFirstCard, getSecondCard.
  rewrite Hid, Hfirst, Hsecond.
  assert (Hclean : cleanLingering pid b = Out (inr ()) b []).
  { unfold cleanLingering. rewrite get_bind.
    by destruct (lingering b !! pid) as [[|pos linger]|]. }
  rewrite (bind_Out_quiet _ _ _ _ _ Hclean). simpl.
  rewrite ret_bind, (updatePlayer_Out _ _ _ _ Hp).
  rewrite clearCards_idle by done.
  by rewrite JsMap_set_same, with_players_same.
Qed.

Lemma quiet_turn_down (cells : list Pos) :
  quiet (for_each cells (λ '(row, col), flipDownIfUncontrolled row col)).
Proof. apply quiet_for_each. intros [row col]. apply quiet_flipDownIfUncontrolled. Qed.

(** The lingering list of [pid] once [cleanLingering] has run. *)
Lemma cleanLingering_lingering b pid :
  default [] (lingering (board_after (cleanLingering pid b)) !! pid) = [].
Proof.
  unfold cleanLingering. rewrite get_bind.
  destruct (lingering b !! pid) as [[|pos linger]|] eqn:Hl; simpl; try by rewrite Hl.
  rewrite (bind_Out_quiet _ _ _ _ _ (quiet_Out _ b (quiet_turn_down (pos :: linger)))).
  simpl. by rewrite lookup_delete_eq.
Qed.

Lemma cleanLingering_Out b pid :
  cleanLingering pid b = Out (inr ()) (board_after (cleanLingering pid b)) [].
Proof. apply quiet_Out, quiet_cleanLingering. Qed.

(** [removeIfControlled] never throws. *)
Lemma removeIfControlled_returns id pos b : result (removeIfControlled id pos b) = inr ().
Proof.
  unfold removeIfControlled. rewrite get_bind.
  destruct (cards b !! pos.1); [|done].
  destruct (controller b !! pos.1); [|done].
  destruct (faceUp b !! pos.1); [|done].
  case_bool_decide; [|done].
  rewrite !modify_bind. unfold notifyWaiters. rewrite get_bind.
  by rewrite !result_bind.
Qed.

Lemma pictureAt_Out b row col :
  shape (rows b) (cols b) (cards b) → in_bounds b (row, col) →
  ∃ pic, cell (cards b) row col = Some pic ∧ pictureAt row col b = Out (inr pic) b [].
Proof.
  intros Hshape [Hr Hc]. simpl in *.
  destruct (shape_cell _ _ _ row col Hshape Hr Hc) as [pic Hpic].
  exists pic. split; [done|]. by apply pictureAt_cell.
Qed.

(** On a board whose recorded cards are cells of the grid, the cleanup of the
    recorded cards returns. *)
Lemma cleanCards_returns b pid firstCard secondCard :
  shape (rows b) (cols b) (cards b) →
  (∀ pos, firstCard = Some pos ∨ secondCard = Some pos → in_bounds b pos) →
  result (cleanCards pid firstCard secondCard b) = inr ().
Proof.
  intros Hshape Hin. unfold cleanCards.
  destruct firstCard as [first|]; [|done].
  destruct secondCard as [second|]; [|done].
  destruct (pictureAt_Out b first.1 first.2 Hshape) as (pic1 & _ & H1).
  { destruct first. apply Hin. by left. }
  destruct (pictureAt_Out b second.1 second.2 Hshape) as (pic2 & _ & H2).
  { destruct second. apply Hin. by right. }
  rewrite (bind_Out_quiet _ _ _ _ _ H1), (bind_Out_quiet _ _ _ _ _ H2).
  destruct (_ && _).
  - rewrite result_bind, removeIfControlled_returns. apply removeIfControlled_returns.
  - done.
Qed.

Lemma same_registry_cleanCards b0 pid firstCard secondCard :
  preserves (same_registry b0) (cleanCards pid firstCard secondCard).
Proof. unfold same_registry. frame. Qed.

(** The board after the cleanup: the player's record is cleared, its
    lingering list is gone, the registry of players and the watchers are
    untouched. *)
Lemma cleanupPreviousPlay_Out b pid p :
  Consistent b → Positions b → JsMap.get pid (players b) = Some p →
  ∃ b2 evs,
    cleanupPreviousPlay pid b
    = Out (inr ()) (with_players (JsMap.set pid (clearCards p) (players b)) b2) evs
    ∧ players b2 = players b ∧ rows b2 = rows b ∧ cols b2 = cols b
    ∧ changeResolvers b2 = changeResolvers b
    ∧ default [] (lingering b2 !! pid) = [].
Proof.
  intros Hb Hpos Hp. destruct (c_players b Hb pid p Hp) as [Hid _].
  unfold cleanupPreviousPlay. rewrite (thePlayer_bind _ _ _ _ Hp).
  unfold getId. rewrite Hid.
  rewrite (bind_Out_quiet _ _ _ _ _ (cleanLingering_Out b pid)).
  set (b1 := board_after (cleanLingering pid b)).
  assert (Hsame : same_but_faces b b1).
  { apply same_but_faces_cleanLingering. by unfold same_but_faces. }
  destruct Hsame as (Hrows & Hcols & Hcards & _ & Hplayers & _ & Hwatch).
  pose proof (cleanLingering_lingering b pid) as Hling. fold b1 in Hling.
  set (o := cleanCards pid (getFirstCard p) (getSecondCard p) b1).
  assert (Hres : result o = inr ()).
  { apply cleanCards_returns.
    - rewrite Hrows, Hcols, Hcards. apply Hb.
    - intros pos Hcard. unfold in_bounds. rewrite Hrows, Hcols.
      by apply (Hpos pid p pos Hp). }
  assert (Hreg : same_registry b1 (board_after o)).
  { apply same_registry_cleanCards. by unfold same_registry. }
  destruct Hreg as (Hrows2 & Hcols2 & Hplayers2 & Hling2 & Hwatch2).
  exists (board_after o), (events o).
  split_and!; try congruence.
  assert (Ho : o = Out (inr ()) (board_after o) (events o)).
  { destruct o as [res b2 evs]. simpl in *. by subst. }
  rewrite (bind_Out _ _ _ _ _ _ Ho).
  rewrite (updatePlayer_Out _ _ _ p) by congruence. simpl.
  by rewrite app_nil_r, Hplayers2, Hplayers.
Qed.

Lemma flipUp_first_flip b playerId row col p :
  Consistent b → Positions b → row < rows b → col < cols b →
  JsMap.get playerId (players b) = Some p → first_flip p →
  flipUp playerId row col b
  = (cleanupPreviousPlay playerId >> firstCardRules playerId row col) b.
Proof.
  intros Hb Hpos Hr Hc Hp Hfirst.
  rewrite (flipUp_dispatch b playerId row col p) by done.
  destruct (c_players b Hb playerId p Hp) as [Hid Hcards].
  case_bool_decide as Hsecond.
  - destruct (cleanupPreviousPlay_Out b playerId p Hb Hpos Hp)
      as (b2 & evs & Hclean & Hpl & _ & _ & _ & Hling).
    rewrite !(bind_Out _ _ _ _ _ _ Hclean).
    set (b1 := with_players _ b2).
    assert (Hp1 : JsMap.get playerId (players b1) = Some (clearCards p)).
    { subst b1. simpl. apply JsMap_get_set_eq. }
    rewrite (thePlayer_bind _ _ _ _ Hp1).
    change (isFirstCardFlip (clearCards p)) with true. cbn iota.
    unfold flipFirst.
    by rewrite (bind_Out_quiet _ _ _ _ _
                  (cleanupPreviousPlay_idle b1 playerId (clearCards p) Hp1 Hid
                     eq_refl eq_refl Hling)).
  - rewrite ret_bind, (thePlayer_bind _ _ _ _ Hp).
    unfold isFirstCardFlip. destruct Hfirst as [->|?]; [done|].
    by destruct Hsecond.
Qed.

(** An empty cell stays empty through the cleanup. *)
Lemma empty_cleanupPreviousPlay row col player :
  preserves (λ b, cell (cards b) row col = Some None) (cleanupPreviousPlay player).
Proof.
  unfold cleanupPreviousPlay, cleanLingering, cleanCards, removeIfControlled,
    notifyWaiters, pictureAt, flipDownIfUncontrolled.
  preserves_structure
    ltac:(idtac;
          match goal with
          | |- preserves _ (modify _) =>
              apply preserves_modify; intros ? ?; simpl; repeat case_match; simpl;
              rewrite ?cell_set_cell; repeat case_decide; simpl;
              first [ done
                    | match goal with
                      | H : _ ∧ _ |- _ => destruct H as [<- <-]
                      end;
                      match goal with
                      | H : cell _ _ _ = Some None |- _ => by rewrite H
                      end ]
          | |- preserves _ (updatePlayer _ _) =>
              apply preserves_modify; intros ? ?; simpl; repeat case_match; done
          end).
Qed.

(** ** Boards in good order *)

Lemma Valid_parseFromFile text b : parseFromFile text = inr b → Valid b.
Proof.
  intros Hparse. split; [by eapply Consistent_parseFromFile|].
  apply parseFromFile_newBoard in Hparse
    as (?&?&?&?&?&?&?&_&_&_&_&_&_&_&_&[-> Hrep]%newBoard_fields).
  split; [by apply checkRep_Rep|]. by intros k p pos.
Qed.

Lemma Valid_registerPlayer id displayName : preserves Valid (registerPlayer id displayName).
Proof.
  intros b (Hb & Hrep & Hpos).
  split; [by apply Consistent_registerPlayer|].
  unfold registerPlayer.
  destruct (bool_decide (id = "") || Text.has_space id) eqn:Hid; [done|].
  apply orb_false_iff in Hid as [Hne%bool_decide_eq_false Hsp].
  rewrite board_after_get_bind.
  destruct (JsMap.get id (players b)) as [existing|] eqn:Hp; [done|].
  rewrite board_after_modify_bind.
  assert (Htail : ∀ b', board_after ((assertRep >> ret (newPlayer id)) b') = b').
  { intros b'. unfold bind, assertRep. by destruct (checkRep b'). }
  rewrite Htail.
  assert (Hkeys : JsMap.keys (JsMap.set id (newPlayer id) (players b))
                  = JsMap.keys (players b) ++ [id]).
  { clear -Hp. unfold JsMap.keys. induction (players b) as [|[k v] m IH]; [done|].
    simpl in *. destruct (decide (id = k)); [done|]. simpl. f_equal. by apply IH. }
  assert (Hhas : ∀ k, JsMap.has k (players b) = true →
                      JsMap.has k (JsMap.set id (newPlayer id) (players b)) = true).
  { intros k Hk. rewrite JsMap_has_set, Hk. apply orb_true_r. }
  destruct Hrep as [? ? ? Hids ? Hling Hwatch]. split; [split; try done; simpl|].
  - rewrite Hkeys. apply Forall_app. split; [done|]. by repeat constructor.
  - eapply map_Forall_impl; [exact Hling|]. simpl. intros k l [? ?]. split; auto.
  - eapply Forall_impl; [exact Hwatch|]. unfold registered. simpl. auto.
  - intros k p pos. simpl. rewrite JsMap_get_set. case_decide.
    + intros [= <-]. simpl. by intros [?|?].
    + apply Hpos.
Qed.

Lemma Valid_alice_matched : Valid alice_matched.
Proof.
  unfold alice_matched, after.
  do 2 apply Valid_flipUp. apply Valid_registerPlayer.
  apply (Valid_parseFromFile two_pairs), parse_two_pairs.
Qed.

(** ** C7: a first flip on an empty cell *)

Lemma Valid_bob_lingers : Valid bob_lingers.
Proof.
  unfold bob_lingers, after.
  do 3 apply Valid_flipUp. apply Valid_registerPlayer, Valid_alice_matched.
Qed.

(** C7 (counterexample). [bob] is registered, has no first card, and the cell
    (0,0) is in bounds and empty: his [flipUp] there fails with [EmptySpace],
    but it has turned his lingering card at (1,0) face down and removed his
    lingering list. *)
Lemma first_flip_on_empty_cleans_up :
  reachable bob_lingers
  ∧ (∃ p, JsMap.get "bob" (players bob_lingers) = Some p ∧ p_firstCard p = None)
  ∧ in_bounds bob_lingers (0, 0)
  ∧ cell (cards bob_lingers) 0 0 = Some None
  ∧ result (flipUp "bob" 0 0 bob_lingers) = inl EmptySpace
  ∧ cell (faceUp bob_lingers) 1 0 = Some true
  ∧ cell (faceUp (after (flipUp "bob" 0 0) bob_lingers)) 1 0 = Some false
  ∧ lingering bob_lingers !! "bob" = Some [(1, 0)]
  ∧ lingering (after (flipUp "bob" 0 0) bob_lingers) !! "bob" = None.
Proof.
  split_and!; try by vm_compute.
  - unfold bob_lingers, after. do 3 apply reach_flipUp.
    apply reach_registerPlayer, reachable_alice_matched.
  - eexists. split; by vm_compute.
  - vm_compute. split; lia.
Qed.

Lemma firstCardRules_empty b playerId row col :
  cell (cards b) row col = Some None →
  firstCardRules playerId row col b = Out (inl EmptySpace) b [].
Proof.
  intros Hcell. unfold firstCardRules. rewrite get_bind.
  by rewrite bool_decide_eq_true_2.
Qed.

(** The cleanup for a player with no recorded card: only the lingering cards
    are dealt with. *)
Lemma cleanupPreviousPlay_no_cards b pid p :
  JsMap.get pid (players b) = Some p → p_id p = pid →
  p_firstCard p = None → p_secondCard p = None →
  cleanupPreviousPlay pid b = Out (inr ()) (board_after (cleanLingering pid b)) [].
Proof.
  intros Hp Hid Hfirst Hsecond. unfold cleanupPreviousPlay.
  rewrite (thePlayer_bind _ _ _ _ Hp). unfold getId, getFirstCard, getSecondCard.
  rewrite Hid, Hfirst, Hsecond.
  rewrite (bind_Out_quiet _ _ _ _ _ (cleanLingering_Out b pid)). simpl.
  rewrite ret_bind.
  assert (Hsame : same_but_faces b (board_after (cleanLingering pid b))).
  { apply same_but_faces_cleanLingering. by unfold same_but_faces. }
  destruct Hsame as (_ & _ & _ & _ & Hpl & _).
  assert (Hp1 : JsMap.get pid (players (board_after (cleanLingering pid b))) = Some p)
    by (by rewrite Hpl).
  rewrite (updatePlayer_Out _ _ _ p Hp1), clearCards_idle by done.
  by rewrite (JsMap_set_same _ _ _ Hp1), with_players_same.
Qed.

(** C7 (amended). For a registered player whose call is a first flip and an
    in-bounds empty target, [flipUp] fails with [EmptySpace], and what it has
    changed is what the previous-play cleanup, which runs before rule 1-A,
    changes.  When the player has no recorded first card, the call fires no
    event and leaves the cards, the controllers, the waiter queues, the
    players and the watchers exactly as before: it can only turn lingering
    cards face down and remove the player's lingering list; and when the
    player has no lingering card either, the board is exactly as before the
    call. *)
Theorem first_flip_on_empty (b : Board) (playerId : string) (row col : nat) (p : Player) :
  Consistent b → Positions b → row < rows b → col < cols b →
  JsMap.get playerId (players b) = Some p → first_flip p →
  cell (cards b) row col = Some None →
  flipUp playerId row col b
  = Out (inl EmptySpace) (board_after (cleanupPreviousPlay playerId b))
        (events (cleanupPreviousPlay playerId b))
  ∧ (p_firstCard p = None →
       events (flipUp playerId row col b) = []
       ∧ same_but_faces b (board_after (flipUp playerId row col b))
       ∧ (default [] (lingering b !! playerId) = [] →
          flipUp playerId row col b = Out (inl EmptySpace) b [])).
Proof.
  intros Hb Hpos Hr Hc Hp Hfirst Hempty.
  destruct (c_players b Hb playerId p Hp) as [Hid Hcards].
  assert (Hflip : flipUp playerId row col b
            = Out (inl EmptySpace) (board_after (cleanupPreviousPlay playerId b))
                  (events (cleanupPreviousPlay playerId b))).
  { rewrite (flipUp_first_flip b playerId row col p) by done.
    destruct (cleanupPreviousPlay_Out b playerId p Hb Hpos Hp)
      as (b2 & evs & Hclean & _).
    pose proof (empty_cleanupPreviousPlay row col playerId b Hempty) as Hempty1.
    rewrite (bind_Out _ _ _ _ _ _ Hclean).
    rewrite Hclean in Hempty1 |- *. rewrite board_after_Out in Hempty1.
    rewrite board_after_Out, events_Out.
    rewrite (firstCardRules_empty _ playerId _ _ Hempty1).
    by rewrite board_after_Out, events_Out, result_Out, app_nil_r. }
  split; [done|]. intros Hnone. pose proof (Hcards Hnone) as Hsecond.
  pose proof (cleanupPreviousPlay_no_cards b playerId p Hp Hid Hnone Hsecond) as Hclean.
  rewrite Hflip, Hclean. rewrite !board_after_Out, !events_Out.
  split_and!; [done | |].
  - apply same_but_faces_cleanLingering. by unfold same_but_faces.
  - intros Hling.
    rewrite (cleanupPreviousPlay_idle b playerId p Hp Hid Hnone Hsecond Hling) in Hclean.
    apply (f_equal board_after) in Hclean. rewrite !board_after_Out in Hclean.
    by rewrite <- Hclean.
Qed.

Lemma first_flip_on_empty_witness :
  flipUp "bob" 0 0 bob_lingers
  = Out (inl EmptySpace) (after (cleanupPreviousPlay "bob") bob_lingers)
        (events (cleanupPreviousPlay "bob" bob_lingers)).
Proof.
  destruct Valid_bob_lingers as (Hb & _ & Hpos).
  refine (proj1 (first_flip_on_empty bob_lingers "bob" 0 0
                   (mkPlayer "bob" None None 1) Hb Hpos _ _ _ _ _)).
  - vm_compute. lia.
  - vm_compute. lia.
  - vm_compute. reflexivity.
  - by left.
  - vm_compute. reflexivity.
Defined.

(** ** The events of a method *)

Section emits.
Context (P : Event → Prop).

Lemma emits_ret {A : Type} (a : A) : emits P (ret a).
Proof. intros b. constructor. Qed.

Lemma emits_throw {A : Type} (e : Error) : emits P (throw (A:=A) e).
Proof. intros b. constructor. Qed.

Lemma emits_get : emits P get.
Proof. intros b. constructor. Qed.

Lemma emits_modify g : emits P (modify g).
Proof. intros b. constructor. Qed.

Lemma emits_emit evs : Forall P evs → emits P (emit evs).
Proof. by intros Hevs b. Qed.

Lemma emits_bind {A B : Type} (m : M A) (f : A → M B) :
emits P m → (∀ a, emits P (f a)) → emits P (bind m f).
Proof.
intros Hm Hf b. rewrite events_bind.
destruct (result (m b)); [apply Hm|]. apply Forall_app. split; [apply Hm | apply Hf].
Qed.

Lemma emits_for_each {A : Type} (xs : list A) (body : A → M unit) :
(∀ x, emits P (body x)) → emits P (for_each xs body).
Proof.
intros Hbody. induction xs as [|x xs IH]; simpl; [apply emits_ret|].
apply emits_bind; [apply Hbody | by intros _].
Qed.

Lemma emits_requireInBounds row col : emits P (requireInBounds row col).
Proof.
intros b. unfold requireInBounds.
destruct row, col; try constructor. case_bool_decide; constructor.
Qed.

Lemma emits_thePlayer key : emits P (thePlayer key).
Proof. intros b. unfold thePlayer. destruct (JsMap.get key (players b)); constructor. Qed.

End emits.

Ltac emits_structure leaf :=
  repeat first
    [ leaf
    | apply emits_ret | apply emits_throw | apply emits_get | apply emits_modify
    | apply emits_requireInBounds | apply emits_thePlayer
    | match goal with
      | |- emits _ (bind _ _) => apply emits_bind; [|intros ?]
      | |- emits _ (for_each _ _) => apply emits_for_each; intros ?
      | |- emits _ (updatePlayer _ _) => apply emits_modify
      | |- emits _ (match ?x with _ => _ end) => destruct x
      end ].

(** The cleanup only wakes waiters: it never notifies a watcher. *)
Lemma cleanupPreviousPlay_emits player : emits is_Resolved (cleanupPreviousPlay player).
Proof.
  unfold cleanupPreviousPlay, cleanLingering, cleanCards, removeIfControlled,
    notifyWaiters, pictureAt, flipDownIfUncontrolled.
  emits_structure
    ltac:(idtac;
          match goal with
          | |- emits _ (emit (Resolved <$> _)) =>
              apply emits_emit, Forall_fmap, Forall_true; intros d; by exists d
          end).
Qed.

(** ** Rules 1-B and 1-C *)

Lemma Valid_cleanupPreviousPlay player : preserves Valid (cleanupPreviousPlay player).
Proof.
  intros b (Hb & Hrep & Hpos). split; [by apply Consistent_cleanupPreviousPlay|].
  apply (Good_Rep _ [] []), Good_cleanupPreviousPlay.
  apply Good_intro; [done | done | constructor | constructor].
Qed.

Lemma Valid_firstCardRules playerId row col b :
  Valid b → registered playerId b → in_bounds b (row, col) →
  Valid (board_after (firstCardRules playerId row col b)).
Proof.
  intros (Hb & Hrep & Hpos) Hreg Hin. split; [by apply Consistent_firstCardRules|].
  apply (Good_Rep _ [(row, col)] [playerId]), Good_firstCardRules.
  apply Good_intro; [done | done | |].
  - constructor; [exact Hin | constructor].
  - constructor; [exact Hreg | constructor].
Qed.

Lemma assertRep_ret {A : Type} (a : A) b :
  (assertRep >> ret a) b
  = if checkRep b then Out (inr a) b [] else Out (inl RepInvariantViolated) b [].
Proof. unfold bind at 1, assertRep. by destruct (checkRep b). Qed.

Lemma JsMap_set_set {V : Type} k (v v' : V) m :
  JsMap.set k v' (JsMap.set k v m) = JsMap.set k v' m.
Proof.
  induction m as [|[k0 v0] m IH]; simpl.
  - by rewrite decide_True.
  - destruct (decide (k = k0)) as [->|Hne]; simpl.
    + by rewrite decide_True.
    + rewrite decide_False by done. by rewrite IH.
Qed.

Lemma take_first_Out {A : Type} playerId row col p b (k : M A) :
  JsMap.get playerId (players b) = Some p →
  (updatePlayer playerId (setFirstCard (row, col)) >>
   updatePlayer playerId recordFlip >> k) b
  = k (with_players
         (JsMap.set playerId (recordFlip (setFirstCard (row, col) p)) (players b)) b).
Proof.
  intros Hp.
  rewrite (bind_Out_quiet _ _ _ _ _ (updatePlayer_Out _ _ _ _ Hp)).
  assert (Hp' : JsMap.get playerId
                  (players (with_players
                     (JsMap.set playerId (setFirstCard (row, col) p) (players b)) b))
                = Some (setFirstCard (row, col) p)).
  { simpl. apply JsMap_get_set_eq. }
  rewrite (bind_Out_quiet _ _ _ _ _ (updatePlayer_Out _ recordFlip _ _ Hp')).
  simpl. by rewrite JsMap_set_set.
Qed.

Lemma firstCardRules_1B b playerId row col p pic :
  Valid b → in_bounds b (row, col) → JsMap.get playerId (players b) = Some p →
  cell (cards b) row col = Some (Some pic) → cell (faceUp b) row col = Some false →
  firstCardRules playerId row col b
  = Out (inr Returned)
        (with_changeResolvers [] (first_taken playerId row col p true b))
        (deliveries (first_taken playerId row col p true b)).
Proof.
  intros Hvalid Hin Hp Hpic Hup.
  assert (Hreg : registered playerId b) by (unfold registered, JsMap.has; by rewrite Hp).
  pose proof (Valid_firstCardRules playerId row col b Hvalid Hreg Hin) as Hafter.
  assert (Hrules : firstCardRules playerId row col b
            = (assertRep >> notifyChange >> ret Returned)
                (first_taken playerId row col p true b)).
  { unfold firstCardRules. rewrite get_bind, Hpic, Hup.
    rewrite bool_decide_eq_false_2 by done.
    change (negb (default false (Some false))) with true. cbn iota.
    rewrite !modify_bind. by rewrite (take_first_Out _ _ _ p). }
  rewrite Hrules in Hafter |- *. rewrite assertRep_notifyChange in Hafter |- *.
  destruct (checkRep (first_taken playerId row col p true b)) eqn:Hrep; [done|].
  rewrite board_after_Out in Hafter. apply Valid_checkRep in Hafter. congruence.
Qed.

Lemma firstCardRules_1C b playerId row col p pic :
  Valid b → in_bounds b (row, col) → JsMap.get playerId (players b) = Some p →
  cell (cards b) row col = Some (Some pic) → cell (faceUp b) row col = Some true →
  cell (controller b) row col = Some None →
  firstCardRules playerId row col b
  = Out (inr Returned) (first_taken playerId row col p false b) [].
Proof.
  intros Hvalid Hin Hp Hpic Hup Hctrl.
  assert (Hreg : registered playerId b) by (unfold registered, JsMap.has; by rewrite Hp).
  pose proof (Valid_firstCardRules playerId row col b Hvalid Hreg Hin) as Hafter.
  assert (Hrules : firstCardRules playerId row col b
            = (assertRep >> ret Returned) (first_taken playerId row col p false b)).
  { unfold firstCardRules. rewrite get_bind, Hpic, Hup, Hctrl.
    rewrite bool_decide_eq_false_2 by done.
    change (negb (default false (Some true))) with false. cbn iota.
    rewrite bool_decide_eq_true_2 by done.
    rewrite !modify_bind. by rewrite (take_first_Out _ _ _ p). }
  rewrite Hrules in Hafter |- *. rewrite assertRep_ret in Hafter |- *.
  destruct (checkRep (first_taken playerId row col p false b)) eqn:Hrep; [done|].
  rewrite board_after_Out in Hafter. apply Valid_checkRep in Hafter. congruence.
Qed.

Lemma delivered_to_changeResolvers watchers m b :
  delivered_to watchers (with_changeResolvers m b) = delivered_to watchers b.
Proof. done. Qed.

(** ** C8: rules 1-B and 1-C *)

(** C8. Let a registered player make a first flip on an in-bounds cell of a
    board in good order, and look at the cell once the previous play has
    been cleaned up.  If it holds a card lying face down (rule 1-B), the call
    returns, the card is face up and controlled by the player, the player's
    first card is the cell and its flip count has grown by one, every
    registered watcher has been delivered its render of the new board, and
    the watchers are cleared.  If it holds a card that is face up and
    uncontrolled (rule 1-C), the call returns with the same controller and
    player updates, but no watcher is notified: the only events are those of
    the cleanup, which are wake-ups of waiters, and the watchers are as they
    were. *)
Theorem first_flip_takes_control
    (b : Board) (playerId : string) (row col : nat) (p : Player) (pic : string) :
  Valid b → row < rows b → col < cols b →
  JsMap.get playerId (players b) = Some p → first_flip p →
  let clean := cleanupPreviousPlay playerId b in
  let o := flipUp playerId row col b in
  let taken := mkPlayer playerId (Some (row, col)) None (S (p_flipCount p)) in
  cell (cards (board_after clean)) row col = Some (Some pic) →
  (cell (faceUp (board_after clean)) row col = Some false →
     result o = inr Returned
     ∧ cell (faceUp (board_after o)) row col = Some true
     ∧ cell (controller (board_after o)) row col = Some (Some playerId)
     ∧ JsMap.get playerId (players (board_after o)) = Some taken
     ∧ changeResolvers (board_after o) = []
     ∧ events o = events clean ++ delivered_to (changeResolvers b) (board_after o))
  ∧ (cell (faceUp (board_after clean)) row col = Some true →
     cell (controller (board_after clean)) row col = Some None →
     result o = inr Returned
     ∧ cell (faceUp (board_after o)) row col = Some true
     ∧ cell (controller (board_after o)) row col = Some (Some playerId)
     ∧ JsMap.get playerId (players (board_after o)) = Some taken
     ∧ changeResolvers (board_after o) = changeResolvers b
     ∧ events o = events clean
     ∧ Forall is_Resolved (events o)).
Proof.
  intros Hvalid Hr Hc Hp Hfirst clean o taken.
  destruct Hvalid as (Hb & Hrep & Hpos).
  destruct (c_players b Hb playerId p Hp) as [Hid _].
  pose proof (Valid_cleanupPreviousPlay playerId b (conj Hb (conj Hrep Hpos))) as Hvalid1.
  pose proof (cleanupPreviousPlay_emits playerId b) as Hemits.
  destruct (cleanupPreviousPlay_Out b playerId p Hb Hpos Hp)
    as (b2 & evs & Hclean & Hpl & Hrows & Hcols & Hwatch & _).
  assert (Ho : o = (cleanupPreviousPlay playerId >> firstCardRules playerId row col) b).
  { by apply (flipUp_first_flip b playerId row col p). }
  rewrite (bind_Out _ _ _ _ _ _ Hclean) in Ho.
  subst clean. rewrite Hclean in Hvalid1, Hemits |- *.
  rewrite board_after_Out in Hvalid1. rewrite !board_after_Out, !events_Out.
  rewrite events_Out in Hemits.
  set (b1 := with_players (JsMap.set playerId (clearCards p) (players b)) b2) in *.
  assert (Hp1 : JsMap.get playerId (players b1) = Some (clearCards p)).
  { subst b1. simpl. apply JsMap_get_set_eq. }
  assert (Hin : in_bounds b1 (row, col)).
  { subst b1. unfold in_bounds. simpl. lia. }
  assert (Htaken : recordFlip (setFirstCard (row, col) (clearCards p)) = taken).
  { subst taken. unfold recordFlip, setFirstCard, clearCards. simpl. by rewrite Hid. }
  assert (Hwatch1 : changeResolvers b1 = changeResolvers b) by (by subst b1).
  clearbody b1. intros Hpic.
  destruct (Consistent_cell_defined b1 (cards b1) row col (Some pic))
    as (? & up & ctrl & _ & Hup0 & Hctrl0); [apply Hvalid1 | apply Hvalid1 | done |].
  split.
  - intros Hup.
    rewrite (firstCardRules_1B b1 playerId row col (clearCards p) pic) in Ho by done.
    rewrite Ho. rewrite !result_Out, !board_after_Out, !events_Out.
    unfold first_taken, deliveries. simpl.
    rewrite !cell_set_cell_eq, Hup, Hctrl0, JsMap_get_set_eq, Htaken. simpl.
    by rewrite Hwatch1.
  - intros Hup Hctrl.
    rewrite (firstCardRules_1C b1 playerId row col (clearCards p) pic) in Ho by done.
    rewrite Ho. rewrite !result_Out, !board_after_Out, !events_Out.
    unfold first_taken. simpl.
    rewrite !cell_set_cell_eq, Hup, Hctrl, JsMap_get_set_eq, Htaken. simpl.
    rewrite app_nil_r. by rewrite Hwatch1.
Qed.

Lemma Forall_keys_set {V : Type} (P : string → Prop) k (v : V) m :
  P k → Forall P (JsMap.keys m) → Forall P (JsMap.keys (JsMap.set k v m)).
Proof.
  intros Hk. unfold JsMap.keys. induction m as [|[k' v'] m IH]; simpl.
  - intros _. by repeat constructor.
  - intros [Hk' Hm]%Forall_cons. destruct (decide (k = k')); simpl.
    + by constructor.
    + constructor; [done|]. by apply IH.
Qed.

Lemma Valid_addChangeWatcher playerId resolver b :
  registered playerId b → Valid b → Valid (after (addChangeWatcher playerId resolver) b).
Proof.
  intros Hreg (Hb & Hrep & Hpos). split; [by apply Consistent_addChangeWatcher|].
  split; [|done]. destruct Hrep. split; try done. simpl.
  by apply Forall_keys_set.
Qed.

Lemma Valid_alice_watches : Valid alice_watches.
Proof.
  unfold alice_watches. apply Valid_addChangeWatcher.
  - by vm_compute.
  - apply Valid_registerPlayer, (Valid_parseFromFile two_pairs), parse_two_pairs.
Qed.

Lemma first_flip_takes_control_witness :
  result (flipUp "alice" 0 0 alice_watches) = inr Returned
  ∧ events (flipUp "alice" 0 0 alice_watches)
    = [Delivered "alice" 7 (Text.unlines ["2x2"; "my A"; "down"; "down"; "down"])].
Proof.
  assert (Hr : 0 < rows alice_watches) by (vm_compute; lia).
  assert (Hc : 0 < cols alice_watches) by (vm_compute; lia).
  assert (Hp : JsMap.get "alice" (players alice_watches)
               = Some (mkPlayer "alice" None None 0)) by (vm_compute; reflexivity).
  destruct (first_flip_takes_control alice_watches "alice" 0 0 _ "A"
              Valid_alice_watches Hr Hc Hp (or_introl eq_refl)) as [H1B _].
  { vm_compute. reflexivity. }
  destruct H1B as (Hres & _ & _ & _ & _ & Hev).
  { vm_compute. reflexivity. }
  split; [exact Hres|]. rewrite Hev. vm_compute. reflexivity.
Defined.

(** ** Releases and wake-ups *)

Section tracks.
Context (I : Board → list Event → Prop).

Lemma tracks_ret {A : Type} (a : A) : tracks I (ret a).
Proof. intros b evs H. simpl. by rewrite app_nil_r. Qed.

Lemma tracks_throw {A : Type} (e : Error) : tracks I (throw (A:=A) e).
Proof. intros b evs H. simpl. by rewrite app_nil_r. Qed.

Lemma tracks_get : tracks I get.
Proof. intros b evs H. simpl. by rewrite app_nil_r. Qed.

Lemma tracks_modify g : (∀ b evs, I b evs → I (g b) evs) → tracks I (modify g).
Proof. intros Hg b evs H. simpl. rewrite app_nil_r. by apply Hg. Qed.

Lemma tracks_bind {A B : Type} (m : M A) (f : A → M B) :
tracks I m → (∀ a, tracks I (f a)) → tracks I (bind m f).
Proof.
intros Hm Hf b evs H. rewrite board_after_bind, events_bind.
destruct (result (m b)) as [e|a]; [by apply Hm|].
rewrite app_assoc. by apply Hf, Hm.
Qed.

Lemma tracks_for_each {A : Type} (xs : list A) (body : A → M unit) :
(∀ x, tracks I (body x)) → tracks I (for_each xs body).
Proof.
intros Hbody. induction xs as [|x xs IH]; simpl; [apply tracks_ret|].
apply tracks_bind; [apply Hbody | by intros _].
Qed.

Lemma tracks_quiet {A : Type} (m : M A) :
(∀ b, board_after (m b) = b ∧ events (m b) = []) → tracks I m.
Proof. intros Hm b evs H. destruct (Hm b) as [-> ->]. by rewrite app_nil_r. Qed.

Lemma tracks_requireInBounds row col : tracks I (requireInBounds row col).
Proof.
apply tracks_quiet. intros b. unfold requireInBounds.
destruct row, col; try done. by case_bool_decide.
Qed.

Lemma tracks_thePlayer key : tracks I (thePlayer key).
Proof.
apply tracks_quiet. intros b. unfold thePlayer.
by destruct (JsMap.get key (players b)).
Qed.

Lemma tracks_pictureAt (row col : nat) : tracks I (pictureAt row col).
Proof.
apply tracks_quiet. intros b. unfold pictureAt. rewrite !index_nat.
rewrite board_after_bind, events_bind.
destruct (requireInBounds_cases b row col) as [[-> _]| ->]; [|done].
rewrite result_Out, board_after_Out, events_Out, get_bind.
by destruct (cards b !! row).
Qed.

End tracks.

Lemma Notified_start b : Notified b b [].
Proof. intros pos. by left. Qed.

(** A release as the source writes it: the controller is cleared, then the
    waiters of the cell are notified. *)
Lemma Notified_release b0 row col :
  tracks (Notified b0)
    (modify (λ b, with_controller (set_cell (controller b) row col None) b) >>
     notifyWaiters row col).
Proof.
  intros b evs H. rewrite modify_bind. unfold notifyWaiters.
  rewrite get_bind, board_after_bind, events_bind. simpl. rewrite app_nil_r.
  intros pos. destruct (decide (pos = (row, col))) as [->|Hne].
  - right. simpl. rewrite lookup_delete_eq. split; [done|]. intros d Hd.
    apply elem_of_app. destruct (H (row, col)) as [[_ Hq]|[_ Hres]].
    + right. apply list_elem_of_fmap. exists d. by rewrite Hq.
    + left. by apply Hres.
  - destruct (H pos) as [[Hc Hq]|[Hq Hres]].
    + left. simpl. rewrite lookup_delete_ne by done. split; [|done].
      rewrite cell_set_cell_ne; [done|]. destruct pos. by intros [= <- <-].
    + right. simpl. rewrite lookup_delete_ne by done. split; [done|].
      intros d Hd. apply elem_of_app. left. by apply Hres.
Qed.

Lemma Notified_frame b0 (g : Board → Board) :
  (∀ b, controller (g b) = controller b ∧ waitingForControl (g b) = waitingForControl b) →
  tracks (Notified b0) (modify g).
Proof.
  intros Hg. apply tracks_modify. intros b evs H pos.
  destruct (Hg b) as [Hc Hq]. rewrite Hc, Hq. apply H.
Qed.

Ltac tracks_structure leaf :=
  repeat first
    [ leaf
    | apply tracks_ret | apply tracks_throw | apply tracks_get
    | apply tracks_requireInBounds | apply tracks_thePlayer | apply tracks_pictureAt
    | match goal with
      | |- tracks _ (bind (modify (λ b, with_controller (set_cell _ _ _ None) b))
                          (λ _, notifyWaiters _ _)) => apply Notified_release
      | |- tracks _ (bind _ _) => apply tracks_bind; [|intros ?]
      | |- tracks _ (for_each _ _) => apply tracks_for_each; intros ?
      | |- tracks _ (updatePlayer _ _) =>
          apply Notified_frame; intros ?; simpl; by repeat case_match
      | |- tracks _ (modify _) =>
          apply Notified_frame; intros ?; simpl; by repeat case_match
      | |- tracks _ (match ?x with _ => _ end) => destruct x
      end ].

Lemma Notified_cleanupPreviousPlay b0 player :
  tracks (Notified b0) (cleanupPreviousPlay player).
Proof.
  unfold cleanupPreviousPlay, cleanLingering, cleanCards, removeIfControlled,
    flipDownIfUncontrolled.
  tracks_structure fail.
Qed.

Lemma Notified_failSecond b0 playerId first e :
  tracks (Notified b0) (failSecond playerId first e).
Proof.
  unfold failSecond, relinquish, rememberLingering.
  tracks_structure fail.
Qed.

(** ** What a method can throw *)

Section throws.
Context (E : Error → Prop).

Lemma throws_ret {A : Type} (a : A) : throws E (ret a).
Proof. by intros b e. Qed.

Lemma throws_get : throws E get.
Proof. by intros b e. Qed.

Lemma throws_modify g : throws E (modify g).
Proof. by intros b e. Qed.

Lemma throws_emit evs : throws E (emit evs).
Proof. by intros b e. Qed.

Lemma throws_throw {A : Type} (e : Error) : E e → throws E (throw (A:=A) e).
Proof. intros He b e'. by intros [= <-]. Qed.

Lemma throws_bind {A B : Type} (m : M A) (f : A → M B) :
throws E m → (∀ a, throws E (f a)) → throws E (bind m f).
Proof.
intros Hm Hf b e. rewrite result_bind.
destruct (result (m b)) as [e'|a] eqn:Hr.
- intros [= <-]. by eapply Hm.
- apply Hf.
Qed.

Lemma throws_assertRep : E RepInvariantViolated → throws E assertRep.
Proof. intros He b e. unfold assertRep. destruct (checkRep b); [done|]. by intros [= <-]. Qed.

Lemma throws_requireInBounds (row col : nat) :
E OutOfBounds → throws E (requireInBounds row col).
Proof.
intros He b e. rewrite requireInBounds_nat. case_bool_decide; [|done]. by intros [= <-].
Qed.

End throws.

Ltac throws_structure :=
  repeat first
    [ apply throws_ret | apply throws_get | apply throws_modify | apply throws_emit
    | apply throws_throw; by auto
    | apply throws_assertRep; by auto
    | apply throws_requireInBounds; by auto
    | match goal with
      | |- throws _ (bind _ _) => apply throws_bind; [|intros ?]
      | |- throws _ (updatePlayer _ _) => apply throws_modify
      | |- throws _ (match ?x with _ => _ end) => destruct x
      end ].

Lemma failSecond_result playerId first e b :
  result (failSecond playerId first e b) = inl e.
Proof.
  unfold failSecond, relinquish. rewrite result_bind, get_bind.
  assert (Hrel : ∀ m : M unit,
            (∀ b', result (m b') = inr ()) →
            result ((if bool_decide (cell (controller b) first.1 first.2
                                     = Some (Some playerId))
                     then m else ret ()) b) = inr ()).
  { intros m Hm. by case_bool_decide. }
  rewrite Hrel; [done|]. intros b'. rewrite modify_bind.
  unfold notifyWaiters. by rewrite get_bind, !result_bind.
Qed.

(** Rule 1-A is the only rule of a first flip that fails. *)
Lemma firstCardRules_fails b playerId row col e :
  result (firstCardRules playerId row col b) = inl e → ¬ internal e →
  cell (cards b) row col = Some None ∧ e = EmptySpace.
Proof.
  unfold firstCardRules. rewrite get_bind.
  case_bool_decide as Hpic; [by intros [= <-]|].
  intros Hres Hint. destruct Hint. revert Hres.
  destruct (negb _); [|case_bool_decide; [|case_bool_decide]];
    (match goal with
     | |- result (?m b) = inl e → _ =>
         intros Hres; apply (λ Ht : throws internal m, Ht b e Hres)
     end);
    unfold internal, notifyChange; throws_structure.
Qed.

(** The rules of a second flip fail only through [failSecond]. *)
Lemma secondCardRules_fails b playerId first row col e :
  result (secondCardRules playerId first row col b) = inl e → ¬ internal e →
  secondCardRules playerId first row col b = failSecond playerId first e b.
Proof.
  unfold secondCardRules. intros Hres Hint. revert Hres.
  case_bool_decide as Hsame.
  { rewrite failSecond_result. by intros [= <-]. }
  rewrite get_bind. case_bool_decide as Hpic.
  { rewrite failSecond_result. by intros [= <-]. }
  destruct (default false (cell (faceUp b) row col) && _) eqn:Hbusy.
  { rewrite failSecond_result. by intros [= <-]. }
  intros Hres. destruct Hint. revert Hres.
  match goal with
  | |- result (?m b) = inl e → _ =>
      intros Hres; apply (λ Ht : throws internal m, Ht b e Hres)
  end.
  unfold internal, notifyChange, pictureAt, relinquish, notifyWaiters.
  throws_structure.
Qed.

Lemma flipUp_second_flip b playerId row col p first :
  Consistent b → row < rows b → col < cols b →
  JsMap.get playerId (players b) = Some p →
  p_firstCard p = Some first → p_secondCard p = None →
  flipUp playerId row col b = secondCardRules playerId first row col b.
Proof.
  intros Hb Hr Hc Hp Hfirst Hsecond.
  rewrite (flipUp_dispatch b playerId row col p) by done.
  unfold getSecondCard. rewrite Hsecond.
  rewrite bool_decide_eq_false_2 by (by intros ?).
  rewrite ret_bind, (thePlayer_bind _ _ _ _ Hp).
  unfold isFirstCardFlip. rewrite Hfirst. unfold flipSecond.
  rewrite (thePlayer_bind _ _ _ _ Hp). unfold getFirstCard. by rewrite Hfirst.
Qed.

Lemma relinquish_returns playerId pos b : result (relinquish playerId pos b) = inr ().
Proof.
  unfold relinquish. rewrite get_bind. case_bool_decide; [|done].
  rewrite modify_bind. unfold notifyWaiters. by rewrite get_bind, !result_bind.
Qed.

Lemma players_relinquish b0 playerId pos :
  preserves (λ b, players b = players b0) (relinquish playerId pos).
Proof. frame. Qed.

(** The player's record after a failed second flip. *)
Lemma failSecond_player b playerId first e p :
  JsMap.get playerId (players b) = Some p →
  JsMap.get playerId (players (board_after (failSecond playerId first e b)))
  = Some (clearCards p).
Proof.
  intros Hp. unfold failSecond.
  rewrite board_after_bind, relinquish_returns.
  pose proof (players_relinquish b playerId first b eq_refl) as Hpl.
  generalize dependent (board_after (relinquish playerId first b)).
  intros b1 Hpl. unfold rememberLingering. rewrite modify_bind.
  set (b2 := with_lingering _ b1).
  assert (Hp2 : JsMap.get playerId (players b2) = Some p) by (subst b2; simpl; by rewrite Hpl).
  rewrite (bind_Out_quiet _ _ _ _ _ (updatePlayer_Out playerId clearCards _ p Hp2)).
  simpl. apply JsMap_get_set_eq.
Qed.

(** ** C3: the failures of [flipUp] *)

(** C3. Let a registered player call [flipUp] on an in-bounds cell of a board
    in good order, and let the call fail with [EmptySpace], [Controlled] or
    [SameCardTwice].  Then the board it leaves is in good order (it is
    consistent and [checkRep] passes on it); the player has neither a first
    nor a second card, so that its next [flipUp] is a first flip; and every
    cell whose control the call has released has had its queue removed and
    every waiter of that queue resolved. *)
Theorem failed_flip_resets_the_player
    (b : Board) (playerId : string) (row col : nat) (p : Player) (e : Error) :
  Valid b → row < rows b → col < cols b →
  JsMap.get playerId (players b) = Some p →
  result (flipUp playerId row col b) = inl e →
  e = EmptySpace ∨ e = Controlled ∨ e = SameCardTwice →
  let o := flipUp playerId row col b in
  Valid (board_after o)
  ∧ checkRep (board_after o) = true
  ∧ (∃ p', JsMap.get playerId (players (board_after o)) = Some p'
           ∧ p_firstCard p' = None ∧ p_secondCard p' = None)
  ∧ (∀ row' col', row' < rows (board_after o) → col' < cols (board_after o) →
       flipUp playerId row' col' (board_after o)
       = (cleanupPreviousPlay playerId >> firstCardRules playerId row' col')
           (board_after o))
  ∧ (∀ (pos : Pos) id,
       cell (controller b) pos.1 pos.2 = Some (Some id) →
       cell (controller (board_after o)) pos.1 pos.2 = Some None →
       waitingForControl (board_after o) !! pos = None
       ∧ ∀ d, d ∈ default [] (waitingForControl b !! pos) → Resolved d ∈ events o).
Proof.
  intros Hvalid Hr Hc Hp Hres He o.
  assert (Hext : ¬ internal e).
  { unfold internal. by destruct He as [->|[->| ->]]; intros [?|[?|[?|[?|?]]]]. }
  pose proof (Valid_flipUp playerId row col b Hvalid) as Hvalid'. fold o in Hvalid'.
  assert (Hcleared : ∃ p', JsMap.get playerId (players (board_after o)) = Some p'
                           ∧ p_firstCard p' = None ∧ p_secondCard p' = None).
  { destruct Hvalid as (Hb & _ & Hpos).
    destruct (p_firstCard p) as [first|] eqn:Hfirst;
      [destruct (p_secondCard p) as [second|] eqn:Hsecond|].
    2: { subst o. rewrite (flipUp_second_flip b playerId row col p first) in Hres |- * by done.
         rewrite (secondCardRules_fails _ _ _ _ _ _ Hres Hext).
         exists (clearCards p). split; [by apply failSecond_player | done]. }
    all: assert (Hflip : first_flip p) by (unfold first_flip; rewrite ?Hfirst, ?Hsecond; auto).
    all: destruct (cleanupPreviousPlay_Out b playerId p Hb Hpos Hp)
           as (b2 & evs & Hclean & _).
    all: subst o; rewrite (flipUp_first_flip b playerId row col p) in Hres |- * by done.
    all: rewrite (bind_Out _ _ _ _ _ _ Hclean) in Hres |- *.
    all: rewrite result_Out in Hres; rewrite board_after_Out.
    all: destruct (firstCardRules_fails _ _ _ _ _ Hres Hext) as [Hempty _].
    all: rewrite (firstCardRules_empty _ playerId _ _ Hempty), board_after_Out.
    all: exists (clearCards p); split; [apply JsMap_get_set_eq | done]. }
  split_and!; [done | by apply Valid_checkRep | done | |].
  - intros row' col' Hr' Hc'. destruct Hcleared as (p' & Hp' & Hfirst' & _).
    apply (flipUp_first_flip _ _ _ _ p'); try done; try apply Hvalid'. by left.
  - assert (Hnotified : Notified b (board_after o) (events o)).
    { destruct Hvalid as (Hb & _ & Hpos).
      destruct (p_firstCard p) as [first|] eqn:Hfirst;
        [destruct (p_secondCard p) as [second|] eqn:Hsecond|].
      2: { subst o. rewrite (flipUp_second_flip b playerId row col p first) in Hres |- * by done.
           rewrite (secondCardRules_fails _ _ _ _ _ _ Hres Hext).
           apply (Notified_failSecond b playerId first e b []), Notified_start. }
      all: assert (Hflip : first_flip p) by (unfold first_flip; rewrite ?Hfirst, ?Hsecond; auto).
      all: pose proof (Notified_cleanupPreviousPlay b playerId b [] (Notified_start b))
             as Hnot.
      all: destruct (cleanupPreviousPlay_Out b playerId p Hb Hpos Hp)
             as (b2 & evs & Hclean & _).
      all: subst o; rewrite (flipUp_first_flip b playerId row col p) in Hres |- * by done.
      all: rewrite (bind_Out _ _ _ _ _ _ Hclean) in Hres |- *.
      all: rewrite Hclean in Hnot.
      all: rewrite result_Out in Hres; rewrite board_after_Out, events_Out.
      all: destruct (firstCardRules_fails _ _ _ _ _ Hres Hext) as [Hempty _].
      all: rewrite (firstCardRules_empty _ playerId _ _ Hempty), events_Out, app_nil_r.
      all: by rewrite board_after_Out, events_Out in Hnot. }
    intros pos id Hbefore Hafter. destruct (Hnotified pos) as [[Hsame _]|Hdone]; [|done].
    congruence.
Qed.

Lemma Valid_bob_parked : Valid bob_parked.
Proof.
  unfold bob_parked, after.
  do 2 apply Valid_flipUp. do 2 apply Valid_registerPlayer.
  apply (Valid_parseFromFile two_pairs), parse_two_pairs.
Qed.

Lemma failed_flip_resets_the_player_witness :
  result (flipUp "alice" 0 0 bob_parked) = inl SameCardTwice
  ∧ checkRep (after (flipUp "alice" 0 0) bob_parked) = true
  ∧ waitingForControl (after (flipUp "alice" 0 0) bob_parked) !! (0, 0) = None
  ∧ Resolved (mkDeferred "bob" 0 0) ∈ events (flipUp "alice" 0 0 bob_parked).
Proof.
  assert (Hr : 0 < rows bob_parked) by (vm_compute; lia).
  assert (Hc : 0 < cols bob_parked) by (vm_compute; lia).
  assert (Hp : JsMap.get "alice" (players bob_parked)
               = Some (mkPlayer "alice" (Some (0, 0)) None 1))
    by (vm_compute; reflexivity).
  assert (Hres : result (flipUp "alice" 0 0 bob_parked) = inl SameCardTwice)
    by (vm_compute; reflexivity).
  destruct (failed_flip_resets_the_player bob_parked "alice" 0 0 _ SameCardTwice
              Valid_bob_parked Hr Hc Hp Hres) as (_ & Hrep & _ & _ & Hnotify); [auto|].
  destruct (Hnotify (0, 0) "alice") as [Hqueue Hwoken];
    [vm_compute; reflexivity | vm_compute; reflexivity |].
  split_and!; [exact Hres | exact Hrep | exact Hqueue |].
  apply Hwoken. vm_compute. left.
Defined.

(** ** Removing a matched pair (rule 3-A) *)









(** ** A matching second card (rule 2-D) *)

Lemma take_second_Out {A : Type} playerId row col p b (k : M A) :
  JsMap.get playerId (players b) = Some p →
  (updatePlayer playerId (setSecondCard (row, col)) >>
   updatePlayer playerId recordFlip >> k) b
  = k (with_players
         (JsMap.set playerId (recordFlip (setSecondCard (row, col) p)) (players b)) b).
Proof.
  intros Hp.
  rewrite (bind_Out_quiet _ _ _ _ _ (updatePlayer_Out _ _ _ _ Hp)).
  assert (Hp' : JsMap.get playerId
                  (players (with_players
                     (JsMap.set playerId (setSecondCard (row, col) p) (players b)) b))
                = Some (setSecondCard (row, col) p)).
  { simpl. apply JsMap_get_set_eq. }
  rewrite (bind_Out_quiet _ _ _ _ _ (updatePlayer_Out _ recordFlip _ _ Hp')).
  simpl. by rewrite JsMap_set_set.
Qed.


Lemma Valid_carol_arrives : Valid carol_arrives.
Proof. apply Valid_registerPlayer, Valid_flipUp, Valid_bob_parked. Qed.

(** * More of the board *)

(** ** Where a failed assertion leaves the board *)

Section blames.

Lemma blames_ret {A : Type} (a : A) : blames (ret a).
Proof. by intros b. Qed.

Lemma blames_get : blames get.
Proof. by intros b. Qed.

Lemma blames_modify g : blames (modify g).
Proof. by intros b. Qed.

Lemma blames_emit evs : blames (emit evs).
Proof. by intros b. Qed.

Lemma blames_throw {A : Type} (e : Error) :
e ≠ RepInvariantViolated → blames (throw (A:=A) e).
Proof. intros He b. simpl. by intros [= ->]. Qed.

Lemma blames_assertRep : blames assertRep.
Proof. intros b. unfold assertRep. by destruct (checkRep b) eqn:Hrep. Qed.

Lemma blames_bind {A B : Type} (m : M A) (f : A → M B) :
blames m → (∀ a, blames (f a)) → blames (bind m f).
Proof.
intros Hm Hf b. rewrite result_bind, board_after_bind.
destruct (result (m b)) as [e|a] eqn:Hr.
- intros [= ->]. by apply Hm.
- apply Hf.
Qed.

Lemma blames_for_each {A : Type} (xs : list A) (body : A → M unit) :
(∀ x, blames (body x)) → blames (for_each xs body).
Proof.
intros Hbody. induction xs as [|x xs IH]; simpl.
- apply blames_ret.
- apply blames_bind; [apply Hbody | by intros _].
Qed.

End blames.

Lemma blames_requireInBounds row col : blames (requireInBounds row col).
Proof.
  intros b. unfold requireInBounds.
  destruct row, col; try done. by case_bool_decide.
Qed.

Lemma blames_thePlayer key : blames (thePlayer key).
Proof. intros b. unfold thePlayer. by destruct (JsMap.get key (players b)). Qed.

Lemma blames_pictureAt (row col : nat) : blames (pictureAt row col).
Proof.
  intros b. unfold pictureAt. rewrite !index_nat, result_bind.
  rewrite requireInBounds_nat. case_bool_decide; [done|]. simpl.
  by destruct (cards b !! row).
Qed.

Ltac blames_structure :=
  repeat
    match goal with
    | |- blames (ret _) => apply blames_ret
    | |- blames get => apply blames_get
    | |- blames (modify _) => apply blames_modify
    | |- blames (emit _) => apply blames_emit
    | |- blames (throw _) => apply blames_throw; discriminate
    | |- blames assertRep => apply blames_assertRep
    | |- blames (requireInBounds _ _) => apply blames_requireInBounds
    | |- blames (thePlayer _) => apply blames_thePlayer
    | |- blames (pictureAt _ _) => apply blames_pictureAt
    | |- blames (updatePlayer _ _) => apply blames_modify
    | |- blames (flipDownIfUncontrolled _ _) => apply blames_modify
    | |- blames (rememberLingering _ _ _) => apply blames_modify
    | |- blames (bind _ _) => apply blames_bind; [|intros ?]
    | |- blames (for_each _ _) => apply blames_for_each; intros ?
    | |- blames (match ?x with _ => _ end) => destruct x
    end.

Lemma blames_flipUp playerId row col : blames (flipUp playerId row col).
Proof.
  unfold flipUp, flipFirst, firstCardRules, flipSecond, secondCardRules,
    failSecond, cleanupPreviousPlay, cleanLingering, cleanCards,
    relinquish, removeIfControlled, notifyWaiters, notifyChange.
  blames_structure.
Qed.

(** On a board in good order [flipUp] does not fail on the representation
    invariant. *)
Lemma flipUp_keeps_rep b playerId row col :
  Valid b → result (flipUp playerId row col b) ≠ inl RepInvariantViolated.
Proof.
  intros Hvalid Hres.
  pose proof (Valid_checkRep _ (Valid_flipUp playerId row col b Hvalid)) as Hrep.
  by rewrite (blames_flipUp playerId row col b Hres) in Hrep.
Qed.

(** ** The failures of [flipUp] *)

Lemma flipUp_out_of_bounds b playerId row col :
  rows b ≤ row ∨ cols b ≤ col →
  flipUp playerId row col b = Out (inl OutOfBounds) b [].
Proof.
  intros Hout. unfold flipUp. rewrite ?index_nat.
  by rewrite (bind_Out_throw _ _ _ _ _ _ (requireInBounds_fails b row col Hout)).
Qed.

Lemma flipUp_unknown_player b playerId row col :
  row < rows b → col < cols b → JsMap.has playerId (players b) = false →
  flipUp playerId row col b = Out (inl UnknownPlayer) b [].
Proof.
  intros Hr Hc Hreg. unfold flipUp. rewrite ?index_nat.
  rewrite (bind_Out_quiet _ _ _ _ _ (requireInBounds_ok b row col Hr Hc)).
  by rewrite get_bind, Hreg.
Qed.


Lemma firstCardRules_throws playerId row col :
  throws (λ e, e = EmptySpace ∨ e = RepInvariantViolated)
    (firstCardRules playerId row col).
Proof. unfold firstCardRules, notifyChange. throws_structure. Qed.

(** A second flip fails by one of the rules or on the representation
    invariant. *)
Lemma secondCardRules_throws b playerId (first : Pos) row col p e :
  shape (rows b) (cols b) (cards b) → in_bounds b first →
  JsMap.get playerId (players b) = Some p →
  result (secondCardRules playerId first row col b) = inl e →
  rule_failure e ∨ e = RepInvariantViolated.
Proof.
  intros Hshape [Hr Hc] Hp. unfold secondCardRules, rule_failure.
  case_bool_decide as Hsame; [rewrite failSecond_result; intros [= <-]; auto|].
  rewrite get_bind.
  case_bool_decide as Hpic; [rewrite failSecond_result; intros [= <-]; auto|].
  destruct (default false (cell (faceUp b) row col)
            && bool_decide (cell (controller b) row col ≠ Some None)) eqn:Hbusy;
    [rewrite failSecond_result; intros [= <-]; auto|].
  destruct (shape_cell _ _ _ first.1 first.2 Hshape Hr Hc) as [firstPic Hfirst].
  destruct (negb (default false (cell (faceUp b) row col)));
    rewrite ?ret_bind, !modify_bind;
    rewrite (take_second_Out _ _ _ p) by done;
    match goal with
    | |- result (bind (pictureAt _ _) _ ?s) = _ → _ =>
        rewrite (bind_Out_quiet _ _ s _ _
                   (pictureAt_cell s first.1 first.2 firstPic Hr Hc Hfirst))
    end;
    (match goal with
     | |- result (?m ?s) = inl e → _ =>
         intros Hres;
         apply (λ Ht : throws (λ e, (e = EmptySpace ∨ e = Controlled ∨ e = SameCardTwice)
                                    ∨ e = RepInvariantViolated) m, Ht s e Hres)
     end);
    unfold relinquish, notifyWaiters, notifyChange; throws_structure.
Qed.

(** With indices that are natural numbers, a call of [flipUp] that fails on
    a board in good order is out of bounds, or by an unknown player, or
    rejected by a rule of the game. *)
Lemma flipUp_failure_of_indices
    (b : Board) (playerId : string) (row col : nat) (e : Error) :
  Valid b → result (flipUp playerId row col b) = inl e →
  (e = OutOfBounds ∧ (rows b ≤ row ∨ cols b ≤ col))
  ∨ (e = UnknownPlayer ∧ row < rows b ∧ col < cols b
     ∧ JsMap.has playerId (players b) = false)
  ∨ (rule_failure e ∧ row < rows b ∧ col < cols b
     ∧ JsMap.has playerId (players b) = true).
Proof.
  intros Hvalid Hres.
  pose proof (flipUp_keeps_rep b playerId row col Hvalid) as Hrep.
  destruct Hvalid as (Hb & _ & Hpos).
  destruct (decide (row < rows b ∧ col < cols b)) as [[Hr Hc]|Hout].
  2: { left. assert (Hout' : rows b ≤ row ∨ cols b ≤ col) by lia.
       rewrite (flipUp_out_of_bounds b playerId row col Hout') in Hres.
       split; [by injection Hres as <- | done]. }
  right. destruct (JsMap.get playerId (players b)) as [p|] eqn:Hp.
  2: { left. assert (Hreg : JsMap.has playerId (players b) = false)
         by (unfold JsMap.has; by rewrite Hp).
       rewrite (flipUp_unknown_player b playerId row col Hr Hc Hreg) in Hres.
       split; [by injection Hres as <- | done]. }
  right. assert (Hreg : JsMap.has playerId (players b) = true)
    by (unfold JsMap.has; by rewrite Hp).
  split; [|done].
  assert (Hcases : first_flip p
            ∨ ∃ first, p_firstCard p = Some first ∧ p_secondCard p = None).
  { unfold first_flip.
    destruct (p_firstCard p) as [first|]; [|by left; left].
    destruct (p_secondCard p) as [second|]; [by left; right | right; by exists first]. }
  destruct Hcases as [Hfirst | (first & Hfirst & Hsecond)].
  - rewrite (flipUp_first_flip b playerId row col p) in Hres, Hrep by done.
    destruct (cleanupPreviousPlay_Out b playerId p Hb Hpos Hp)
      as (b2 & evs & Hclean & _).
    rewrite (bind_Out _ _ _ _ _ _ Hclean), result_Out in Hres, Hrep.
    destruct (firstCardRules_throws playerId row col _ e Hres) as [-> | ->];
      [by left | done].
  - rewrite (flipUp_second_flip b playerId row col p first) in Hres, Hrep by done.
    destruct (secondCardRules_throws b playerId first row col p e) as [He | ->];
      try done.
    + apply Hb.
    + apply (Hpos playerId p first Hp). by left.
Qed.

(** ** [flipDown] *)

Lemma Rep_same_registry b b' :
  rows b' = rows b → cols b' = cols b → cards b' = cards b →
  players b' = players b → waitingForControl b' = waitingForControl b →
  lingering b' = lingering b →
  Forall (λ id, registered id b') (JsMap.keys (changeResolvers b')) →
  Rep b → Rep b'.
Proof.
  intros Hrows Hcols Hcards Hplayers Hwait Hling Hwatch [].
  constructor; unfold in_bounds in *;
    rewrite ?Hrows, ?Hcols, ?Hcards, ?Hplayers, ?Hwait, ?Hling; done.
Qed.

Lemma Valid_turned_down b row col card :
  Valid b → cell (cards b) row col = Some card →
  Valid (turned_down row col b)
  ∧ Valid (with_changeResolvers [] (turned_down row col b)).
Proof.
  intros (Hb & Hrep & Hpos) Hcard.
  assert (Hs : turned_down row col b = rewrite_cell row col card false None b).
  { unfold turned_down, rewrite_cell.
    by rewrite (set_cell_same _ _ _ _ Hcard), with_cards_same. }
  assert (Hcons : Consistent (turned_down row col b)).
  { rewrite Hs. by apply Consistent_rewrite_cell. }
  split; (split; [|split]).
  - exact Hcons.
  - apply (Rep_same_registry b); try done; apply Hrep.
  - exact Hpos.
  - by apply Consistent_with_changeResolvers.
  - apply (Rep_same_registry b); try done; constructor.
  - exact Hpos.
Qed.

Lemma flipDown_cases b row col cardsRow faceUpRow controllerRow :
  row < rows b → col < cols b →
  cards b !! row = Some cardsRow → faceUp b !! row = Some faceUpRow →
  controller b !! row = Some controllerRow →
  flipDown row col b
  = if bool_decide (cell (cards b) row col = Some None)
    then Out (inl EmptySpace) b []
    else if negb (default false (cell (faceUp b) row col))
         then Out (inl AlreadyFaceDown) b []
         else (assertRep >> notifyChange) (turned_down row col b).
Proof.
  intros Hr Hc H1 H2 H3. unfold flipDown. rewrite ?index_nat.
  rewrite (bind_Out_quiet _ _ _ _ _ (requireInBounds_ok b row col Hr Hc)).
  rewrite get_bind, H1, H2, H3.
  rewrite (cell_row _ _ col _ H1), (cell_row _ _ col _ H2).
  case_bool_decide; [done|].
  destruct (negb (default false (faceUpRow !! col))); [done|].
  by rewrite !modify_bind.
Qed.

(** X3. [flipDown] on an in-bounds cell of a board in good order: an empty
    cell gives [EmptySpace] and a card that is face down [AlreadyFaceDown],
    the board untouched in both cases; a card that is face up is turned face
    down and loses its controller, nothing else of the board changes but the
    list of watchers, which is emptied after each watcher has received the
    render of the new board, and the board is in good order again. *)
Theorem flipDown_turns_a_card_down (b : Board) (row col : nat) :
  Valid b → row < rows b → col < cols b →
  (cell (cards b) row col = Some None →
     flipDown row col b = Out (inl EmptySpace) b [])
  ∧ (cell (cards b) row col ≠ Some None → cell (faceUp b) row col = Some false →
     flipDown row col b = Out (inl AlreadyFaceDown) b [])
  ∧ (cell (faceUp b) row col = Some true →
     let b' := with_changeResolvers [] (turned_down row col b) in
     flipDown row col b = Out (inr ()) b' (delivered_to (changeResolvers b) b')
     ∧ cell (faceUp b') row col = Some false
     ∧ cell (controller b') row col = Some None
     ∧ Valid b').
Proof.
  intros Hvalid Hr Hc. pose proof Hvalid as (Hb & _).
  destruct (shape_row _ _ _ row (c_cards b Hb) Hr) as (l1 & H1 & _).
  destruct (shape_row _ _ _ row (c_faceUp b Hb) Hr) as (l2 & H2 & _).
  destruct (shape_row _ _ _ row (c_controller b Hb) Hr) as (l3 & H3 & _).
  rewrite (flipDown_cases b row col l1 l2 l3) by done.
  destruct (Consistent_cells b row col Hb Hr Hc) as (card & up & ctrl & Hcard & Hup & Hctrl).
  split_and!.
  - intros Hempty. by rewrite bool_decide_eq_true_2.
  - intros Hfull Hdown. rewrite bool_decide_eq_false_2 by done. by rewrite Hdown.
  - intros Hfaceup b'.
    assert (Hfull : cell (cards b) row col ≠ Some None).
    { intros Hempty. destruct (c_empty b Hb row col Hempty) as [Hdown _]. congruence. }
    rewrite bool_decide_eq_false_2 by done. rewrite Hfaceup. cbn [default negb].
    destruct (Valid_turned_down b row col card Hvalid Hcard) as [Hv Hv'].
    pose proof (assertRep_notifyChange () (turned_down row col b)) as Hrun.
    rewrite (Valid_checkRep _ Hv) in Hrun.
    assert (Hrun' : (assertRep >> notifyChange) (turned_down row col b)
                    = Out (inr ()) b' (deliveries (turned_down row col b))).
    { revert Hrun. unfold bind, assertRep, notifyChange.
      destruct (checkRep (turned_down row col b)); [|done]. simpl.
      rewrite !app_nil_r. by intros _. }
    rewrite Hrun'. split_and!; try done.
    + unfold b', turned_down. simpl. by rewrite cell_set_cell_eq, Hup.
    + unfold b', turned_down. simpl. by rewrite cell_set_cell_eq, Hctrl.
Qed.

Lemma flipDown_turns_a_card_down_witness :
  flipDown 1 1 bob_parked = Out (inl AlreadyFaceDown) bob_parked []
  ∧ result (flipDown 0 0 bob_parked) = inr ()
  ∧ cell (controller (board_after (flipDown 0 0 bob_parked))) 0 0 = Some None.
Proof.
  assert (Hr : 1 < rows bob_parked) by (vm_compute; lia).
  assert (Hc : 1 < cols bob_parked) by (vm_compute; lia).
  assert (Hr0 : 0 < rows bob_parked) by (vm_compute; lia).
  assert (Hc0 : 0 < cols bob_parked) by (vm_compute; lia).
  destruct (flipDown_turns_a_card_down bob_parked 1 1 Valid_bob_parked Hr Hc)
    as (_ & Hdown & _).
  destruct (flipDown_turns_a_card_down bob_parked 0 0 Valid_bob_parked Hr0 Hc0)
    as (_ & _ & Hup).
  destruct Hup as (Hrun & _ & Hfree & _); [vm_compute; reflexivity|].
  split_and!.
  - apply Hdown; [vm_compute; discriminate | vm_compute; reflexivity].
  - by rewrite Hrun.
  - by rewrite Hrun.
Defined.

(** ** [registerPlayer] and [listPlayers] *)

Lemma JsMap_keys_set_new {V : Type} k (v : V) m :
  JsMap.get k m = None → JsMap.keys (JsMap.set k v m) = JsMap.keys m ++ [k].
Proof.
  unfold JsMap.keys. induction m as [|[k' v'] m IH]; simpl; [done|].
  destruct (decide (k = k')) as [->|Hne]; [done|].
  intros Hget. simpl. f_equal. by apply IH.
Qed.

Lemma registerPlayer_checks_id b id displayName :
  ¬ valid_token id → registerPlayer id displayName b = Out (inl InvalidPlayerId) b [].
Proof.
  intros Hbad. unfold registerPlayer.
  destruct (bool_decide (id = "") || Text.has_space id) eqn:Hcheck; [done|].
  destruct Hbad. apply orb_false_iff in Hcheck as [Hne Hsp].
  split; [by apply bool_decide_eq_false in Hne | done].
Qed.

Lemma registerPlayer_valid_id b id displayName :
  valid_token id →
  registerPlayer id displayName b
  = match JsMap.get id (players b) with
    | Some existing => Out (inr existing) b []
    | None =>
        (assertRep >> ret (newPlayer id))
          (with_players (JsMap.set id (newPlayer id) (players b)) b)
    end.
Proof.
  intros [Hne Hsp]. unfold registerPlayer.
  rewrite Hsp, bool_decide_eq_false_2 by done. cbn [orb].
  rewrite get_bind. destruct (JsMap.get id (players b)); [done|].
  by rewrite modify_bind.
Qed.

(** X4. [registerPlayer] on a board in good order. An id that is empty or
    holds white space is refused with [InvalidPlayerId]; the id of a
    registered player gives back the player object as it is, cards and flip
    count included; a new id gives a fresh player, added after the players
    that [listPlayers] already lists. In the first two cases the board is
    untouched; in the third only the map of players changes and the board is
    in good order again. No watcher is notified. *)
Theorem registerPlayer_registers_once
    (b : Board) (id : string) (displayName : option string) :
  Valid b →
  (¬ valid_token id →
     registerPlayer id displayName b = Out (inl InvalidPlayerId) b [])
  ∧ (∀ p, JsMap.get id (players b) = Some p →
       registerPlayer id displayName b = Out (inr p) b [])
  ∧ (valid_token id → JsMap.get id (players b) = None →
     let b' := with_players (JsMap.set id (newPlayer id) (players b)) b in
     registerPlayer id displayName b = Out (inr (newPlayer id)) b' []
     ∧ listPlayers b' = listPlayers b ++ [id]
     ∧ Valid b').
Proof.
  intros Hvalid. split_and!.
  - apply registerPlayer_checks_id.
  - intros p Hp.
    assert (Hid : valid_token id).
    { destruct Hvalid as (_ & Hrep & _).
      pose proof (r_ids b Hrep) as Hids. rewrite Forall_forall in Hids.
      apply Hids. apply JsMap_get_elem_of in Hp.
      unfold JsMap.keys. apply list_elem_of_fmap. by exists (id, p). }
    by rewrite (registerPlayer_valid_id b id displayName Hid), Hp.
  - intros Hid Hnew b'.
    pose proof (Valid_registerPlayer id displayName b Hvalid) as Hafter.
    rewrite (registerPlayer_valid_id b id displayName Hid), Hnew in Hafter |- *.
    fold b' in Hafter |- *. rewrite assertRep_ret in Hafter |- *.
    assert (Hb' : Valid b') by (by destruct (checkRep b')).
    rewrite (Valid_checkRep _ Hb'). split_and!; [done | | done].
    unfold listPlayers, b'. simpl. by apply JsMap_keys_set_new.
Qed.

Lemma registerPlayer_registers_once_witness :
  registerPlayer "alice" None two_pairs_board
  = Out (inr (newPlayer "alice"))
        (with_players [("alice", newPlayer "alice")] two_pairs_board) []
  ∧ registerPlayer "" None two_pairs_board
    = Out (inl InvalidPlayerId) two_pairs_board [].
Proof.
  assert (Hvalid : Valid two_pairs_board)
    by apply (Valid_parseFromFile two_pairs), parse_two_pairs.
  destruct (registerPlayer_registers_once two_pairs_board "alice" None Hvalid)
    as (_ & _ & Hnew).
  destruct (registerPlayer_registers_once two_pairs_board "" None Hvalid)
    as (Hbad & _).
  split.
  - apply Hnew; [split; [discriminate | reflexivity] | reflexivity].
  - apply Hbad. by intros [? _].
Defined.

(** ** Change watchers *)

Lemma delivered_to_set watchers playerId resolver b :
  delivered_to
    (JsMap.set playerId (default [] (JsMap.get playerId watchers) ++ [resolver]) watchers) b
  ≡ₚ delivered_to watchers b ++ [Delivered playerId resolver (render b playerId)].
Proof.
  unfold delivered_to.
  induction watchers as [|[k l] watchers IH]; simpl; [done|].
  destruct (decide (playerId = k)) as [->|Hne]; simpl.
  - rewrite fmap_app. simpl. rewrite <- !app_assoc.
    apply Permutation_app_head. apply Permutation_app_comm.
  - rewrite <- app_assoc. by apply Permutation_app_head.
Qed.

Lemma delivered_to_new watchers playerId resolver b :
  JsMap.get playerId watchers = None →
  delivered_to (JsMap.set playerId [resolver] watchers) b
  = delivered_to watchers b ++ [Delivered playerId resolver (render b playerId)].
Proof.
  unfold delivered_to.
  induction watchers as [|[k l] watchers IH]; simpl; [done|].
  destruct (decide (playerId = k)) as [->|Hne]; [done|].
  intros Hnew. simpl. rewrite <- app_assoc. f_equal. by apply IH.
Qed.

(** X5. [addChangeWatcher] changes nothing of the board but the map of
    watchers and fires nothing. At the next notification, on whatever board
    [b'] it happens, the deliveries are those that were due before, and one
    more: the new resolver receives the render of [b'] for its player. When
    the player was not watching yet, this delivery comes last. *)
Theorem addChangeWatcher_adds_one_delivery
    (b : Board) (playerId : string) (resolver : Resolver) (b' : Board) :
  let o := addChangeWatcher playerId resolver b in
  let due := Delivered playerId resolver (render b' playerId) in
  result o = inr () ∧ events o = []
  ∧ board_after o = with_changeResolvers (changeResolvers (board_after o)) b
  ∧ delivered_to (changeResolvers (board_after o)) b'
    ≡ₚ delivered_to (changeResolvers b) b' ++ [due]
  ∧ (JsMap.get playerId (changeResolvers b) = None →
     delivered_to (changeResolvers (board_after o)) b'
     = delivered_to (changeResolvers b) b' ++ [due]).
Proof.
  simpl. split_and!; try done.
  - apply delivered_to_set.
  - intros Hnew. rewrite Hnew. simpl. by apply delivered_to_new.
Qed.

Lemma unregistered_watcher b playerId :
  JsMap.has playerId (players b) = false →
  is_Some (JsMap.get playerId (changeResolvers b)) →
  checkRep b = false.
Proof.
  intros Hreg [l Hl]. destruct (checkRep b) eqn:Hcheck; [|done].
  pose proof (r_watchers b (checkRep_Rep b Hcheck)) as Hwatch.
  rewrite Forall_forall in Hwatch.
  assert (Hin : playerId ∈ JsMap.keys (changeResolvers b)).
  { apply JsMap_get_elem_of in Hl. unfold JsMap.keys.
    apply list_elem_of_fmap. by exists (playerId, l). }
  apply Hwatch in Hin. unfold registered in Hin. congruence.
Qed.

(** X6. [addChangeWatcher] does not check that the player is registered. With
    a watcher whose id is not registered, the board fails [checkRep]; then
    [flipDown] on a card that is face up turns the card down, releases it,
    and fails on the assertion, before any watcher is told. *)
Theorem unregistered_watcher_breaks_checkRep
    (b : Board) (playerId : string) (resolver : Resolver) (row col : nat) :
  Consistent b → JsMap.has playerId (players b) = false →
  row < rows b → col < cols b → cell (faceUp b) row col = Some true →
  let b1 := board_after (addChangeWatcher playerId resolver b) in
  checkRep b1 = false
  ∧ flipDown row col b1 = Out (inl RepInvariantViolated) (turned_down row col b1) []
  ∧ cell (faceUp (turned_down row col b1)) row col = Some false.
Proof.
  intros Hb Hreg Hr Hc Hup b1.
  assert (Hwatch : is_Some (JsMap.get playerId (changeResolvers b1))).
  { unfold b1. simpl. rewrite JsMap_get_set_eq. by eexists. }
  destruct (shape_row _ _ _ row (c_cards b Hb) Hr) as (l1 & H1 & _).
  destruct (shape_row _ _ _ row (c_faceUp b Hb) Hr) as (l2 & H2 & _).
  destruct (shape_row _ _ _ row (c_controller b Hb) Hr) as (l3 & H3 & _).
  assert (Hfull : cell (cards b) row col ≠ Some None).
  { intros Hempty. destruct (c_empty b Hb row col Hempty) as [Hdown _]. congruence. }
  split_and!.
  - by apply (unregistered_watcher b1 playerId).
  - rewrite (flipDown_cases b1 row col l1 l2 l3) by done.
    change (cell (cards b1) row col) with (cell (cards b) row col).
    change (cell (faceUp b1) row col) with (cell (faceUp b) row col).
    rewrite bool_decide_eq_false_2 by done. rewrite Hup. cbn [default negb].
    unfold bind at 1, assertRep.
    by rewrite (unregistered_watcher (turned_down row col b1) playerId).
  - unfold turned_down. simpl. by rewrite cell_set_cell_eq, Hup.
Qed.

Lemma unregistered_watcher_breaks_checkRep_witness :
  checkRep bob_parked = true
  ∧ checkRep (board_after (addChangeWatcher "zoe" 7 bob_parked)) = false
  ∧ result (flipDown 0 0 (board_after (addChangeWatcher "zoe" 7 bob_parked)))
    = inl RepInvariantViolated.
Proof.
  assert (Hb : Consistent bob_parked) by apply Valid_bob_parked.
  assert (Hreg : JsMap.has "zoe" (players bob_parked) = false)
    by (vm_compute; reflexivity).
  assert (Hr : 0 < rows bob_parked) by (vm_compute; lia).
  assert (Hc : 0 < cols bob_parked) by (vm_compute; lia).
  assert (Hup : cell (faceUp bob_parked) 0 0 = Some true) by (vm_compute; reflexivity).
  destruct (unregistered_watcher_breaks_checkRep bob_parked "zoe" 7 0 0
              Hb Hreg Hr Hc Hup) as (Hcheck & Hflip & _).
  split_and!; [apply Valid_checkRep, Valid_bob_parked | exact Hcheck |].
  by rewrite Hflip.
Defined.

(** ** [render] *)

Lemma elem_of_row_major nrows ncols (pos : Pos) :
  pos ∈ row_major nrows ncols ↔ pos.1 < nrows ∧ pos.2 < ncols.
Proof.
  unfold row_major. rewrite list_elem_of_bind. split.
  - intros (r & Hc & Hr). apply list_elem_of_fmap in Hc as (c & -> & Hc).
    apply elem_of_seq in Hr, Hc. simpl. lia.
  - intros [Hr Hc]. exists pos.1. split.
    + apply list_elem_of_fmap. exists pos.2. split; [by destruct pos|].
      apply elem_of_seq. lia.
    + apply elem_of_seq. lia.
Qed.

(** X7. [render] shows a player nothing but the dimensions and, cell by
    cell, what [shown] says: two boards of the same dimensions that agree on
    it render alike for that player, whatever the pictures of their face-down
    cards, the players that control the other cards, the players, the queues
    and the watchers. *)
Theorem render_hides_what_is_not_shown (b1 b2 : Board) (playerId : string) :
  rows b1 = rows b2 → cols b1 = cols b2 →
  (∀ pos : Pos, pos.1 < rows b1 → pos.2 < cols b1 →
     shown b1 playerId pos = shown b2 playerId pos) →
  render b1 playerId = render b2 playerId.
Proof.
  intros Hrows Hcols Hshown. unfold render. rewrite <- Hrows, <- Hcols.
  f_equal. f_equal. apply list_fmap_ext. intros i pos Hpos.
  apply list_elem_of_lookup_2, elem_of_row_major in Hpos as [Hr Hc].
  specialize (Hshown pos Hr Hc). unfold shown, render_cell in *.
  destruct (default None (cell (cards b1) pos.1 pos.2)) as [pic1|],
    (default None (cell (cards b2) pos.1 pos.2)) as [pic2|]; try done.
  destruct (default false (cell (faceUp b1) pos.1 pos.2)),
    (default false (cell (faceUp b2) pos.1 pos.2)); try done.
  simpl. injection Hshown as -> Hmine.
  by repeat case_bool_decide.
Qed.

Lemma render_hides_what_is_not_shown_witness :
  render two_pairs_board "alice"
  = render (with_cards [[Some "B"; Some "A"]; [Some "A"; Some "B"]] two_pairs_board)
      "alice".
Proof.
  apply (render_hides_what_is_not_shown two_pairs_board
           (with_cards [[Some "B"; Some "A"]; [Some "A"; Some "B"]] two_pairs_board)
           "alice"); [reflexivity | reflexivity |].
  intros [r c] Hr Hc. simpl in Hr, Hc.
  assert (Hcases : (r = 0 ∨ r = 1) ∧ (c = 0 ∨ c = 1)) by (vm_compute in Hr, Hc; lia).
  by destruct Hcases as [[-> | ->] [-> | ->]].
Defined.

(** ** More about text *)

Section text_more.
Import Text.

Lemma occurs_append a s t : occurs a (s +:+ t) = occurs a s || occurs a t.
Proof.
induction s as [|c s IH]; [done|]. rewrite append_cons. simpl. by rewrite IH, orb_assoc.
Qed.

Lemma has_space_occurs a s : is_space a = true → has_space s = false → occurs a s = false.
Proof.
intros Ha. induction s as [|c s IH]; [done|]. simpl.
intros [Hc Hs]%orb_false_iff. rewrite (IH Hs), orb_false_r.
destruct (Ascii.eqb c a) eqn:Heq; [|done].
apply Ascii.eqb_eq in Heq as ->. congruence.
Qed.

Lemma replace_crlf_id s : occurs CR s = false → replace_crlf s = s.
Proof.
induction s as [|a s IH]; [done|]. simpl.
intros [Ha Hs]%orb_false_iff. destruct s as [|b s']; [done|].
rewrite Ha. cbn [andb]. f_equal. by apply IH.
Qed.

Lemma replace_cr_id s : occurs CR s = false → replace_cr s = s.
Proof.
induction s as [|a s IH]; [done|]. simpl.
intros [Ha Hs]%orb_false_iff. rewrite Ha. f_equal. by apply IH.
Qed.

Lemma split_lf_no_lf s : occurs LF s = false → split_lf s = [s].
Proof.
induction s as [|a s IH]; [done|]. simpl.
intros [Ha Hs]%orb_false_iff. by rewrite Ha, (IH Hs).
Qed.

Lemma split_lf_app s t :
occurs LF s = false → split_lf (s +:+ String LF t) = s :: split_lf t.
Proof.
induction s as [|a s IH].
- intros _. by rewrite append_nil_l.
- intros H. simpl in H. apply orb_false_iff in H as [Ha Hs].
rewrite append_cons. simpl. by rewrite Ha, (IH Hs).
Qed.

Lemma split_join_lf l :
l ≠ [] → Forall (λ x, occurs LF x = false) l → split_lf (join_lf l) = l.
Proof.
induction l as [|x l IH]; [done|]. intros _ Hall.
apply Forall_cons in Hall as [Hx Hl].
destruct l as [|y l']; simpl.
- by apply split_lf_no_lf.
- rewrite split_lf_app by done. f_equal. by apply IH.
Qed.

Lemma occurs_join_lf a l :
a ≠ LF → Forall (λ x, occurs a x = false) l → occurs a (join_lf l) = false.
Proof.
intros Ha. induction l as [|x l IH]; [done|].
intros [Hx Hl]%Forall_cons. destruct l as [|y l']; [exact Hx|].
change (join_lf (x :: y :: l')) with (x +:+ String LF (join_lf (y :: l'))).
rewrite occurs_append, Hx. cbn [orb].
change (occurs a (String LF (join_lf (y :: l'))))
with (Ascii.eqb LF a || occurs a (join_lf (y :: l'))).
rewrite (IH Hl), orb_false_r. apply Ascii.eqb_neq. by intros <-.
Qed.

Lemma file_lines_unlines l :
l ≠ [] → Forall (λ x, occurs LF x = false ∧ occurs CR x = false) l →
file_lines (unlines l) = l.
Proof.
intros Hne Hall. unfold file_lines.
assert (Hcr : occurs CR (unlines l) = false).
{ unfold unlines. rewrite occurs_append. simpl.
rewrite occurs_join_lf; [done | done |].
eapply Forall_impl; [exact Hall | by intros x [_ ?]]. }
rewrite (replace_crlf_id _ Hcr), (replace_cr_id _ Hcr).
rewrite <- (join_lf_snoc_empty l Hne).
rewrite split_join_lf.
- rewrite last_snoc, bool_decide_eq_true_2 by done. apply removelast_last.
- by destruct l.
- apply Forall_app. split; [|by constructor].
eapply Forall_impl; [exact Hall | by intros x [? _]].
Qed.

Lemma split_lf_occurs s : Forall (λ x, occurs LF x = false) (split_lf s).
Proof.
induction s as [|a s IH]; simpl; [by constructor|].
destruct (Ascii.eqb a LF) eqn:Ha; [by constructor|].
destruct (split_lf s) as [|l ls]; [by constructor; [simpl; rewrite Ha|]|].
apply Forall_cons in IH as [Hl Hls]. constructor; [|done]. simpl. by rewrite Ha, Hl.
Qed.

Lemma split_lf_occurs_other a s :
occurs a s = false → Forall (λ x, occurs a x = false) (split_lf s).
Proof.
induction s as [|c s IH]; simpl; [by constructor|].
intros [Hc Hs]%orb_false_iff. specialize (IH Hs).
destruct (Ascii.eqb c LF); [by constructor|].
destruct (split_lf s) as [|l ls]; [by constructor; [simpl; rewrite Hc|]|].
apply Forall_cons in IH as [Hl Hls]. constructor; [|done]. simpl. by rewrite Hc, Hl.
Qed.

Lemma replace_cr_no_cr s : occurs CR (replace_cr s) = false.
Proof.
induction s as [|a s IH]; [done|]. simpl. rewrite IH, orb_false_r.
destruct (Ascii.eqb a CR) eqn:Ha; [done | exact Ha].
Qed.

Lemma file_lines_clean text :
Forall (λ x, occurs LF x = false ∧ occurs CR x = false) (file_lines text).
Proof.
unfold file_lines.
set (norm := replace_cr (replace_crlf text)).
assert (Hall : Forall (λ x, occurs LF x = false ∧ occurs CR x = false) (split_lf norm)).
{ apply Forall_and. split; [apply split_lf_occurs|].
apply split_lf_occurs_other, replace_cr_no_cr. }
case_bool_decide; [|done].
destruct (split_lf norm) as [|l ls] using rev_ind; [done|].
rewrite removelast_last. by apply Forall_app in Hall as [? _].
Qed.

End text_more.

(** ** What [parseFromFile] reads *)

(** X8. [parseFromFile] reads the normalised contents of the file: a file
    that has at least one line parses like the file made of its lines with
    every line ended by one line feed, whatever its line ends (LF, CRLF or
    CR) and whether its last line is ended or not; the outcome is the same
    board or the same error. *)
Theorem parseFromFile_reads_normalised (text : string) :
  file_lines text ≠ [] → parseFromFile (normalised text) = parseFromFile text.
Proof.
  intros Hne. unfold parseFromFile.
  rewrite <- (unlines_file_lines text Hne).
  rewrite file_lines_unlines; [done | done | apply file_lines_clean].
Qed.

Lemma parseFromFile_reads_normalised_witness :
  parseFromFile ("2x2" +:+ String Text.CR (String Text.LF
                   ("A" +:+ String Text.CR ("A" +:+ String Text.LF
                      ("B" +:+ String Text.LF "B")))))
  = inr two_pairs_board.
Proof.
  rewrite <- (parseFromFile_reads_normalised
                ("2x2" +:+ String Text.CR (String Text.LF
                   ("A" +:+ String Text.CR ("A" +:+ String Text.LF
                      ("B" +:+ String Text.LF "B"))))));
    [vm_compute; reflexivity | vm_compute; discriminate].
Defined.

Lemma read_cards_error i cardLines e :
  read_cards i cardLines = inl e →
  ∃ k tok, e = InvalidCard (i + k + 2)
    ∧ cardLines !! k = Some tok ∧ ¬ valid_token tok
    ∧ ∀ j tok', j < k → cardLines !! j = Some tok' → valid_token tok'.
Proof.
  revert i. induction cardLines as [|tok rest IH]; intros i; simpl; [done|].
  destruct (bool_decide (tok = "") || Text.has_space tok) eqn:Htok.
  - intros [= <-]. exists 0, tok. split_and!.
    + f_equal. lia.
    + done.
    + intros [Hne Hsp]. rewrite Hsp, orb_false_r in Htok.
      by apply bool_decide_eq_true in Htok.
    + intros j tok' Hj. lia.
  - destruct (read_cards (S i) rest) as [e'|layout] eqn:Hrest; [|done].
    intros [= <-]. destruct (IH _ Hrest) as (k & bad & -> & Hk & Hbad & Hbefore).
    exists (S k), bad. split_and!; [f_equal; lia | done | done |].
    intros [|j] tok' Hj; simpl.
    + intros [= <-]. apply orb_false_iff in Htok as [Hne%bool_decide_eq_false Hsp].
      by split.
    + apply Hbefore. lia.
Qed.

(** X9. When [parseFromFile] fails with [InvalidCard n], line [n] of the
    file, counted from 1 with the header as line 1, is a card line that is
    empty or holds white space, and it is the first such card line. *)
Theorem parseFromFile_reports_first_bad_card (text : string) (n : nat) :
  parseFromFile text = inl (InvalidCard n) →
  ∃ tok, 2 ≤ n ∧ file_lines text !! (n - 1) = Some tok ∧ ¬ valid_token tok
    ∧ ∀ j tok', 2 ≤ j → j < n → file_lines text !! (j - 1) = Some tok' →
        valid_token tok'.
Proof.
  unfold parseFromFile.
  destruct (file_lines text) as [|headerLine cardLines]; [done|].
  case_bool_decide; [done|].
  destruct (Text.match_header _) as [[m1 m2]|]; [|done].
  destruct (Text.Number m1) as [nrows|]; [|done].
  destruct (Text.Number m2) as [ncols|]; [|done].
  case_bool_decide; [done|]. case_bool_decide; [done|].
  destruct (read_cards 0 cardLines) as [e|layout] eqn:Hcards.
  - intros [= ->]. apply read_cards_error in Hcards
      as (k & tok & [= ->] & Hk & Hbad & Hbefore).
    exists tok. split_and!; [lia | | done |].
    + match goal with |- _ !! ?i = _ => replace i with (S k) by lia end. done.
    + intros j tok' Hj1 Hj2. destruct j as [|[|j]]; [lia | lia |].
      match goal with |- _ !! ?i = _ → _ => replace i with (S j) by lia end.
      apply Hbefore. lia.
  - unfold newBoard. by destruct (checkRep _).
Qed.

Lemma parseFromFile_reports_first_bad_card_witness :
  parseFromFile (Text.unlines ["2x1"; "A"; "B C"]) = inl (InvalidCard 3)
  ∧ ¬ valid_token "B C".
Proof.
  assert (Hparse : parseFromFile (Text.unlines ["2x1"; "A"; "B C"])
                   = inl (InvalidCard 3)) by (vm_compute; reflexivity).
  split; [exact Hparse|].
  destruct (parseFromFile_reports_first_bad_card _ 3 Hparse)
    as (tok & _ & Htok & Hbad & _).
  vm_compute in Htok. by injection Htok as <-.
Defined.

Lemma cell_layout nrows ncols layout r c :
  r < nrows → c < ncols →
  cell (layout_row ncols layout <$> seq 0 nrows) r c
  = Some (default None (layout !! (r * ncols + c))).
Proof.
  intros Hr Hc. unfold cell. rewrite list_lookup_fmap, lookup_seq_lt by done.
  simpl. unfold layout_row. by rewrite list_lookup_fmap, lookup_seq_lt by done.
Qed.

(** X10. A board that [parseFromFile] returns is a fresh board without a
    hole: its dimensions are at least 1; it has no player, no waiter, no
    lingering card and no watcher; and every cell holds a card, face down and
    uncontrolled, whose picture is a non-empty token without white space: the
    card line of the file at the cell's place in row-major order. *)
Theorem parsed_board_is_fresh_and_full (text : string) (b : Board) :
  parseFromFile text = inr b →
  ∃ headerLine cardLines,
    file_lines text = headerLine :: cardLines
    ∧ length cardLines = rows b * cols b
    ∧ 1 ≤ rows b ∧ 1 ≤ cols b
    ∧ players b = [] ∧ waitingForControl b = ∅ ∧ lingering b = ∅
    ∧ changeResolvers b = []
    ∧ ∀ r c, r < rows b → c < cols b →
        ∃ pic, cardLines !! (r * cols b + c) = Some pic ∧ valid_token pic
          ∧ cell (cards b) r c = Some (Some pic)
          ∧ cell (faceUp b) r c = Some false
          ∧ cell (controller b) r c = Some None.
Proof.
  intros (headerLine & cardLines & m1 & m2 & nrows & ncols & layout & Hlines & _ &
          _ & _ & Hrows & Hcols & Hlen & Hcards & Hnew)%parseFromFile_newBoard.
  apply read_cards_layout in Hcards as [-> Hvalid].
  apply newBoard_fields in Hnew as [-> _].
  exists headerLine, cardLines. simpl. split_and!; try done.
  intros r c Hr Hc.
  assert (Hk : r * ncols + c < length cardLines) by (rewrite Hlen; nia).
  destruct (lookup_lt_is_Some_2 cardLines _ Hk) as [pic Hpic].
  exists pic. split_and!.
  - done.
  - by apply (Forall_lookup_1 _ _ _ _ Hvalid Hpic).
  - rewrite cell_layout by done. by rewrite list_lookup_fmap, Hpic.
  - by apply cell_replicate.
  - by apply cell_replicate.
Qed.

Lemma parsed_board_is_fresh_and_full_witness :
  parseFromFile two_pairs = inr two_pairs_board
  ∧ cell (cards two_pairs_board) 1 0 = Some (Some "B").
Proof.
  split; [apply parse_two_pairs|].
  destruct (parsed_board_is_fresh_and_full two_pairs two_pairs_board parse_two_pairs)
    as (headerLine & cardLines & Hlines & _ & _ & _ & _ & _ & _ & _ & Hcells).
  destruct (Hcells 1 0) as (pic & Hpic & _ & Hcard & _);
    [vm_compute; lia | vm_compute; lia |].
  vm_compute in Hlines. injection Hlines as _ <-.
  vm_compute in Hpic. injection Hpic as <-. exact Hcard.
Defined.

(** ** Parsing a dump *)

Section header_facts.
Import Text.

Lemma is_digit_not_space a : is_digit a = true → is_space a = false.
Proof. by destruct a as [[] [] [] [] [] [] [] []]. Qed.

Lemma all_digits_no_space s : all_digits s = true → has_space s = false.
Proof.
induction s as [|a s IH]; [done|]. simpl.
intros [Ha Hs]%andb_true_iff. by rewrite (is_digit_not_space a Ha), (IH Hs).
Qed.

Lemma all_digits_string_of_uint d : all_digits (NilEmpty.string_of_uint d) = true.
Proof. induction d; simpl; done. Qed.

Lemma all_digits_show n : all_digits (show n) = true.
Proof. apply all_digits_string_of_uint. Qed.

Lemma Number_show n : Number (show n) = Some n.
Proof.
unfold Number, show. rewrite NilEmpty.usu. simpl. f_equal. apply Unsigned.of_to.
Qed.

Lemma show_not_empty n : show n ≠ "".
Proof.
intros Hshow. pose proof (Number_show n) as Hn. rewrite Hshow in Hn.
injection Hn as <-. revert Hshow. by vm_compute.
Qed.

Lemma span_digits_app d rest :
all_digits d = true →
(match rest with "" => true | String a _ => negb (is_digit a) end) = true →
span_digits (d +:+ rest) = (d, rest).
Proof.
intros Hd Hrest. induction d as [|c d IH].
- rewrite append_nil_l. destruct rest as [|a rest]; [done|]. simpl.
by apply negb_true_iff in Hrest as ->.
- simpl in Hd. apply andb_true_iff in Hd as [Hc Hd].
rewrite append_cons. simpl. by rewrite Hc, (IH Hd).
Qed.

Lemma match_header_show r c :
match_header (show r +:+ "x" +:+ show c) = Some (show r, show c).
Proof.
unfold match_header.
rewrite (span_digits_app (show r) ("x" +:+ show c)) by (done || apply all_digits_show).
change ("x" +:+ show c) with (String "x" (show c)). cbn iota.
rewrite <- (append_nil_r (show c)) at 1.
rewrite (span_digits_app (show c) "") by (done || apply all_digits_show).
rewrite !bool_decide_eq_true_2; [done | done | apply show_not_empty | apply show_not_empty].
Qed.

Lemma trim_no_space s : has_space s = false → trim s = s.
Proof.
intros Hs. unfold trim.
assert (Hstart : trim_start s = s).
{ destruct s as [|a s]; [done|]. simpl in *.
by apply orb_false_iff in Hs as [-> _]. }
rewrite Hstart. clear Hstart.
induction s as [|a s IH]; [done|]. simpl in *.
apply orb_false_iff in Hs as [Ha Hs]. rewrite (IH Hs), Ha. by destruct s.
Qed.

Lemma header_no_space r c : has_space (show r +:+ "x" +:+ show c) = false.
Proof.
assert (Happ : ∀ s t, has_space (s +:+ t) = has_space s || has_space t).
{ intros s t. induction s as [|a s IH]; [done|]. rewrite append_cons. simpl.
by rewrite IH, orb_assoc. }
rewrite !Happ.
rewrite (all_digits_no_space (show r)), (all_digits_no_space (show c))
by apply all_digits_show.
done.
Qed.

End header_facts.

Lemma read_cards_valid i cardLines :
  Forall valid_token cardLines → read_cards i cardLines = inr (Some <$> cardLines).
Proof.
  intros Hall. revert i. induction Hall as [|tok rest [Hne Hsp] _ IH]; intros i; [done|].
  simpl. rewrite Hsp, bool_decide_eq_false_2 by done. cbn [orb]. by rewrite IH.
Qed.

Lemma valid_token_clean tok :
  valid_token tok → occurs Text.LF tok = false ∧ occurs Text.CR tok = false.
Proof. intros [_ Hsp]. split; by apply has_space_occurs. Qed.

(** A fresh board passes [checkRep] when its dimensions are positive and its
    pictures are tokens. *)
Lemma fresh_board_checkRep nrows ncols cardLines :
  1 ≤ nrows → 1 ≤ ncols → Forall valid_token cardLines →
  checkRep (mkBoard nrows ncols (layout_row ncols (Some <$> cardLines) <$> seq 0 nrows)
              (replicate nrows (replicate ncols false))
              (replicate nrows (replicate ncols None)) [] ∅ ∅ []) = true.
Proof.
  intros Hrows Hcols Hvalid. apply Rep_checkRep.
  - split; simpl.
    + apply shape_layout.
    + apply shape_replicate.
    + apply shape_replicate.
    + intros r c Hcard.
      destruct (cell_in_shape _ _ _ _ _ _ (shape_layout nrows ncols _) Hcard).
      split; by apply cell_replicate.
    + intros r c id [? _]%cell_replicate. done.
    + done.
  - split; simpl; try done.
    intros r c pic Hcard.
    destruct (cell_in_shape _ _ _ _ _ _ (shape_layout nrows ncols _) Hcard) as [Hr Hc].
    rewrite cell_layout in Hcard by done. injection Hcard as Hcard.
    rewrite list_lookup_fmap in Hcard.
    destruct (cardLines !! (r * ncols + c)) as [tok|] eqn:Htok; [|done].
    injection Hcard as <-. by apply (Forall_lookup_1 _ _ _ _ Hvalid Htok).
Qed.

Lemma shape_cons {A : Type} nrows ncols (x : list A) g :
  shape nrows ncols (x :: g) →
  ∃ n, nrows = S n ∧ length x = ncols ∧ shape n ncols g.
Proof.
  intros [Hlen Hrows]. exists (length g). split_and!; [by rewrite <- Hlen | |].
  - by apply (Hrows 0).
  - split; [done|]. intros r line Hr. by apply (Hrows (S r)).
Qed.

Lemma lookup_concat_shape {A : Type} nrows ncols (g : list (list A)) r c :
  shape nrows ncols g → c < ncols → concat g !! (r * ncols + c) = cell g r c.
Proof.
  revert nrows r. induction g as [|x g IH]; intros nrows r Hshape Hc.
  - unfold cell. simpl. by rewrite lookup_nil.
  - apply shape_cons in Hshape as (n & -> & Hx & Hg). simpl. destruct r as [|r].
    + simpl. rewrite lookup_app_l by lia. done.
    + replace (S r * ncols + c) with (length x + (r * ncols + c)) by lia.
      rewrite lookup_app_r by lia.
      replace (length x + (r * ncols + c) - length x) with (r * ncols + c) by lia.
      by rewrite (IH n).
Qed.

Lemma length_concat_shape {A : Type} nrows ncols (g : list (list A)) :
  shape nrows ncols g → length (concat g) = nrows * ncols.
Proof.
  revert nrows. induction g as [|x g IH]; intros nrows Hshape.
  - destruct Hshape as [<- _]. done.
  - apply shape_cons in Hshape as (n & -> & Hx & Hg). simpl.
    rewrite length_app, (IH n Hg). lia.
Qed.

Lemma elem_of_concat_shape {A : Type} nrows ncols (g : list (list A)) x :
  shape nrows ncols g → x ∈ concat g → ∃ r c, cell g r c = Some x.
Proof.
  intros _. induction g as [|line g IH]; simpl; [by intros ?%elem_of_nil|].
  intros [Hx | Hx]%elem_of_app.
  - apply list_elem_of_lookup in Hx as [c Hc]. by exists 0, c.
  - destruct (IH Hx) as (r & c & Hcell). by exists (S r), c.
Qed.

Lemma bind_seq_lookup {A B : Type} (g : list A) (f : nat → list B) (h : A → list B) :
  (∀ r x, g !! r = Some x → f r = h x) → seq 0 (length g) ≫= f = g ≫= h.
Proof.
  induction g as [|x g IH] using rev_ind; intros Hf; [done|].
  rewrite length_app. simpl. rewrite seq_app, !bind_app. simpl. rewrite !app_nil_r.
  f_equal.
  - apply IH. intros r y Hr. apply Hf. by rewrite lookup_app_l by (by eapply lookup_lt_Some).
  - apply Hf. by rewrite lookup_app_r, Nat.sub_diag.
Qed.

Lemma fmap_seq_lookup {A B : Type} (line : list A) (k : option A → B) :
  (λ c, k (line !! c)) <$> seq 0 (length line) = (λ x, k (Some x)) <$> line.
Proof.
  apply list_eq. intros i. rewrite !list_lookup_fmap.
  destruct (line !! i) as [x|] eqn:Hx.
  - rewrite lookup_seq_lt by (by eapply lookup_lt_Some). simpl. by rewrite Hx.
  - rewrite lookup_seq_ge; [done|]. by apply lookup_ge_None.
Qed.

Lemma bind_fmap_concat {A B : Type} (f : A → B) (g : list (list A)) :
  g ≫= (λ line, f <$> line) = f <$> concat g.
Proof.
  induction g as [|x g IH]; [done|]. rewrite bind_cons, IH.
  change (concat (x :: g)) with (x ++ concat g). by rewrite fmap_app.
Qed.

(** The card lines of a dump: the cells in row-major order, [none] for an
    empty cell. *)
Lemma dump_lines b :
  shape (rows b) (cols b) (cards b) →
  seq 0 (rows b) ≫= dump_row b = default "none" <$> concat (cards b).
Proof.
  intros [Hlen Hrows]. rewrite <- Hlen.
  rewrite (bind_seq_lookup (cards b) (dump_row b) (λ line, default "none" <$> line)).
  - apply bind_fmap_concat.
  - intros r line Hr. unfold dump_row. rewrite Hr, <- (Hrows r line Hr).
    by rewrite (fmap_seq_lookup line (λ o, default "none" (mjoin o))).
Qed.

(** X11. Parsing the dump of a board in good order succeeds. The board it
    gives has the dimensions and the pictures of the dumped board, with a
    card whose picture is [none] in the place of every empty cell; it is a
    fresh board (all cards face down and uncontrolled, no player, waiter,
    lingering card or watcher), and its dump is the dump it was parsed
    from. *)
Theorem parse_of_dump (b : Board) :
  Valid b →
  ∃ b', parseFromFile (picturesDump b) = inr b'
    ∧ rows b' = rows b ∧ cols b' = cols b
    ∧ players b' = [] ∧ waitingForControl b' = ∅ ∧ lingering b' = ∅
    ∧ changeResolvers b' = []
    ∧ (∀ r c card, cell (cards b) r c = Some card →
         cell (cards b') r c = Some (Some (default "none" card))
         ∧ cell (faceUp b') r c = Some false
         ∧ cell (controller b') r c = Some None)
    ∧ picturesDump b' = picturesDump b.
Proof.
  intros (Hb & Hrep & _).
  pose proof (c_cards b Hb) as Hshape.
  set (tokens := default "none" <$> concat (cards b)).
  set (hdr := Text.show (rows b) +:+ "x" +:+ Text.show (cols b)).
  assert (Hdump : picturesDump b = Text.unlines (hdr :: tokens)).
  { unfold picturesDump. by rewrite dump_lines. }
  assert (Hvalid : Forall valid_token tokens).
  { apply Forall_fmap, Forall_forall. intros card Hcard.
    destruct (elem_of_concat_shape _ _ _ _ Hshape Hcard) as (r & c & Hcell).
    destruct card as [pic|]; simpl.
    - by apply (r_cards b Hrep r c).
    - by split. }
  assert (Hlen : length tokens = rows b * cols b).
  { unfold tokens. rewrite length_fmap. by apply length_concat_shape. }
  assert (Hlines : file_lines (Text.unlines (hdr :: tokens)) = hdr :: tokens).
  { apply file_lines_unlines; [done|]. constructor.
    - split; apply has_space_occurs; try done; apply header_no_space.
    - eapply Forall_impl; [exact Hvalid | apply valid_token_clean]. }
  assert (Hhdr : hdr ≠ "").
  { unfold hdr. intros Hempty.
    destruct (Text.show (rows b)) eqn:Hshow; [by apply show_not_empty in Hshow|].
    by rewrite append_cons in Hempty. }
  pose proof (fresh_board_checkRep (rows b) (cols b) tokens
                (r_rows b Hrep) (r_cols b Hrep) Hvalid) as Hcheck.
  set (b' := mkBoard (rows b) (cols b)
               (layout_row (cols b) (Some <$> tokens) <$> seq 0 (rows b))
               (replicate (rows b) (replicate (cols b) false))
               (replicate (rows b) (replicate (cols b) None)) [] ∅ ∅ []) in *.
  assert (Hnew : newBoard (rows b) (cols b) (Some <$> tokens) = inr b').
  { unfold newBoard. fold b'. by rewrite Hcheck. }
  assert (Hparse : parseFromFile (picturesDump b) = inr b').
  { rewrite Hdump. unfold parseFromFile. rewrite Hlines.
    rewrite (trim_no_space hdr) by apply header_no_space.
    rewrite bool_decide_eq_false_2 by done.
    unfold hdr. rewrite match_header_show, !Number_show.
    rewrite bool_decide_eq_false_2
      by (pose proof (r_rows b Hrep); pose proof (r_cols b Hrep); lia).
    rewrite bool_decide_eq_false_2 by (by intros ?).
    by rewrite (read_cards_valid 0 tokens Hvalid). }
  exists b'. split_and!; try done.
  - intros r c card Hcell.
    destruct (cell_in_shape _ _ _ _ _ _ Hshape Hcell) as [Hr Hc].
    split_and!; [|by apply cell_replicate | by apply cell_replicate].
    unfold b'. simpl. rewrite cell_layout by done.
    unfold tokens. rewrite !list_lookup_fmap.
    by rewrite (lookup_concat_shape (rows b) (cols b)), Hcell.
  - rewrite Hdump. unfold picturesDump.
    by rewrite (dump_newBoard (rows b) (cols b) tokens b').
Qed.

Lemma parse_of_dump_witness :
  parseFromFile (picturesDump (board_after (flipUp "alice" 1 0 carol_arrives)))
  = inr (mkBoard 2 2 [[Some "none"; Some "none"]; [Some "B"; Some "B"]]
           [[false; false]; [false; false]] [[None; None]; [None; None]] [] ∅ ∅ []).
Proof.
  destruct (parse_of_dump (board_after (flipUp "alice" 1 0 carol_arrives)))
    as (b' & Hparse & _).
  { apply Valid_flipUp, Valid_carol_arrives. }
  rewrite Hparse. vm_compute in Hparse. by injection Hparse as <-.
Defined.

(** ** Rule 1-D: waiting for a card *)

Lemma firstCardRules_1D b playerId row col other :
  Consistent b → cell (controller b) row col = Some (Some other) → other ≠ playerId →
  firstCardRules playerId row col b
  = Out (inr (Parked (mkDeferred playerId row col)))
        (parked_on row col (mkDeferred playerId row col) b) [].
Proof.
  intros Hb Hctrl Hother.
  destruct (c_ctrl b Hb row col other Hctrl) as (Hup & [pic Hpic] & _).
  unfold firstCardRules. rewrite get_bind, Hpic, Hup, Hctrl.
  rewrite bool_decide_eq_false_2 by done.
  change (negb (default false (Some true))) with false. cbn iota.
  rewrite bool_decide_eq_false_2 by done.
  rewrite bool_decide_eq_true_2 by (intros [= ->]; done).
  by rewrite modify_bind.
Qed.

(** X12. Rule 1-D. On a board in good order, a first flip on a card that,
    once the previous play of the player is cleaned up, another player
    controls, does not return: the call is parked on a new deferred, pushed
    at the back of the queue of the cell. Apart from the cleanup and this
    queue nothing changes: the card, the player's record and flip count and
    the watchers are untouched, and nothing is fired but what the cleanup
    fires. *)
Theorem first_flip_waits_for_a_controlled_card
    (b : Board) (playerId : string) (row col : nat) (p : Player) (other : string) :
  Valid b → row < rows b → col < cols b →
  JsMap.get playerId (players b) = Some p → first_flip p →
  let clean := cleanupPreviousPlay playerId b in
  cell (controller (board_after clean)) row col = Some (Some other) →
  other ≠ playerId →
  flipUp playerId row col b
  = Out (inr (Parked (mkDeferred playerId row col)))
        (parked_on row col (mkDeferred playerId row col) (board_after clean))
        (events clean).
Proof.
  intros (Hb & _ & Hpos) Hr Hc Hp Hfirst clean Hctrl Hother.
  rewrite (flipUp_first_flip b playerId row col p) by done.
  pose proof (Consistent_cleanupPreviousPlay playerId b Hb) as Hb1. fold clean in Hb1.
  destruct (cleanupPreviousPlay_Out b playerId p Hb Hpos Hp)
    as (b2 & evs & Hclean & _).
  assert (Hrun : cleanupPreviousPlay playerId b
                 = Out (inr ()) (board_after clean) (events clean)).
  { unfold clean. by rewrite Hclean. }
  rewrite (bind_Out _ _ _ _ _ _ Hrun).
  rewrite (firstCardRules_1D (board_after clean) playerId row col other) by done.
  by rewrite result_Out, board_after_Out, events_Out, app_nil_r.
Qed.

Lemma first_flip_waits_for_a_controlled_card_witness :
  flipUp "bob" 0 0 bob_parked
  = Out (inr (Parked (mkDeferred "bob" 0 0)))
        (parked_on 0 0 (mkDeferred "bob" 0 0) bob_parked) []
  ∧ waitingForControl (board_after (flipUp "bob" 0 0 bob_parked)) !! (0, 0)
    = Some [mkDeferred "bob" 0 0; mkDeferred "bob" 0 0].
Proof.
  assert (Hr : 0 < rows bob_parked) by (vm_compute; lia).
  assert (Hc : 0 < cols bob_parked) by (vm_compute; lia).
  assert (Hp : JsMap.get "bob" (players bob_parked) = Some (newPlayer "bob"))
    by (vm_compute; reflexivity).
  assert (Hclean : cleanupPreviousPlay "bob" bob_parked = Out (inr ()) bob_parked [])
    by (vm_compute; reflexivity).
  pose proof (first_flip_waits_for_a_controlled_card bob_parked "bob" 0 0
                (newPlayer "bob") "alice" Valid_bob_parked Hr Hc Hp
                (or_introl eq_refl)) as Hwait.
  cbv zeta in Hwait. rewrite Hclean in Hwait.
  rewrite board_after_Out, events_Out in Hwait.
  assert (Hflip : flipUp "bob" 0 0 bob_parked
                  = Out (inr (Parked (mkDeferred "bob" 0 0)))
                        (parked_on 0 0 (mkDeferred "bob" 0 0) bob_parked) []).
  { apply Hwait; [vm_compute; reflexivity | discriminate]. }
  split; [exact Hflip|]. rewrite Hflip, board_after_Out. by vm_compute.
Defined.

(** ** Rule 2-E: a second card that does not match *)

Lemma bind_assoc {A B C : Type} (m : M A) (f : A → M B) (g : B → M C) b :
  bind (bind m f) g b = bind m (λ a, bind (f a) g) b.
Proof.
  unfold bind. destruct (m b) as [[e|a] b1 evs1]; simpl; [done|].
  destruct (f a b1) as [[e|x] b2 evs2]; simpl; [done|].
  by rewrite app_assoc.
Qed.

Lemma notifyWaiters_Out row col b :
  notifyWaiters row col b
  = Out (inr ()) (with_waitingForControl (delete (row, col) (waitingForControl b)) b)
        (Resolved <$> default [] (waitingForControl b !! (row, col))).
Proof.
  unfold notifyWaiters. rewrite get_bind. unfold bind, emit, modify. simpl.
  by rewrite app_nil_r.
Qed.

Lemma release_Out row col b :
  (modify (λ b, with_controller (set_cell (controller b) row col None) b) >>
   notifyWaiters row col) b
  = Out (inr ()) (released (row, col) b)
        (Resolved <$> default [] (waitingForControl b !! (row, col))).
Proof. by rewrite modify_bind, notifyWaiters_Out. Qed.

Lemma relinquish_Out playerId (pos : Pos) b :
  cell (controller b) pos.1 pos.2 = Some (Some playerId) →
  relinquish playerId pos b
  = Out (inr ()) (released pos b) (Resolved <$> default [] (waitingForControl b !! pos)).
Proof.
  intros Hctrl. unfold relinquish. rewrite get_bind.
  rewrite bool_decide_eq_true_2 by done. rewrite release_Out. by destruct pos.
Qed.

Lemma secondCardRules_2E b playerId (first : Pos) row col p pic1 pic2 :
  first.1 < rows b → first.2 < cols b →
  JsMap.get playerId (players b) = Some p →
  cell (cards b) first.1 first.2 = Some (Some pic1) →
  cell (cards b) row col = Some (Some pic2) → pic1 ≠ pic2 →
  cell (controller b) first.1 first.2 = Some (Some playerId) →
  cell (controller b) row col = Some None →
  let after := mismatched playerId first row col p b in
  let woken := (Resolved <$> default [] (waitingForControl b !! first))
                 ++ (Resolved <$> default [] (waitingForControl b !! (row, col))) in
  secondCardRules playerId first row col b
  = if checkRep after
    then Out (inr Returned) (with_changeResolvers [] after) (woken ++ deliveries after)
    else Out (inl RepInvariantViolated) after woken.
Proof.
  intros Hr Hc Hp Hpic1 Hpic2 Hpics Hctrl1 Hctrl2 after woken.
  assert (Hne : (row, col) ≠ (first.1, first.2)).
  { intros [= H1 H2]. rewrite H1, H2, Hpic1 in Hpic2. congruence. }
  assert (Hne' : first ≠ (row, col)) by (intros ->; by apply Hne).
  unfold secondCardRules.
  rewrite bool_decide_eq_false_2 by done.
  rewrite get_bind, Hpic2, Hctrl2.
  rewrite bool_decide_eq_false_2 by done.
  rewrite (bool_decide_eq_false_2 (Some None ≠ Some None)) by (by intros ?).
  rewrite andb_false_r.
  assert (Hrest : ∀ s,
    rows s = rows b → cols s = cols b → cards s = cards b →
    cell (controller s) first.1 first.2 = Some (Some playerId) →
    waitingForControl s = waitingForControl b →
    (let* firstPic := pictureAt first.1 first.2 in
     (if bool_decide (Some firstPic = Some (Some pic2)) && bool_decide (firstPic ≠ None)
      then ret ()
      else relinquish playerId first >>
           modify (λ b, with_controller (set_cell (controller b) row col None) b) >>
           notifyWaiters row col) >>
     assertRep >> notifyChange >> ret Returned) s
    = if checkRep (released (row, col) (released first s))
      then Out (inr Returned)
             (with_changeResolvers [] (released (row, col) (released first s)))
             (woken ++ deliveries (released (row, col) (released first s)))
      else Out (inl RepInvariantViolated) (released (row, col) (released first s)) woken).
  { intros s Hrows Hcols Hcards Hctrl Hwait.
    assert (Hr' : first.1 < rows s) by (by rewrite Hrows).
    assert (Hc' : first.2 < cols s) by (by rewrite Hcols).
    assert (Hpic : cell (cards s) first.1 first.2 = Some (Some pic1))
      by (by rewrite Hcards).
    rewrite (bind_Out_quiet _ _ s _ _
               (pictureAt_cell s first.1 first.2 (Some pic1) Hr' Hc' Hpic)).
    rewrite bool_decide_eq_false_2 by (intros [= ->]; done). cbn [andb].
    rewrite bind_assoc.
    rewrite (bind_Out _ _ _ _ _ _ (relinquish_Out playerId first s Hctrl)).
    rewrite (bind_Out _ _ _ _ _ _ (release_Out row col (released first s))).
    rewrite assertRep_notifyChange.
    assert (Hq : waitingForControl (released first s) !! (row, col)
                 = waitingForControl b !! (row, col)).
    { unfold released. simpl. rewrite lookup_delete_ne by done. by rewrite Hwait. }
    rewrite Hq, Hwait. fold woken.
    destruct (checkRep (released (row, col) (released first s)));
      rewrite ?result_Out, ?board_after_Out, ?events_Out, ?app_nil_r, ?app_assoc;
      done. }
  unfold after, mismatched, second_taken.
  destruct (negb (default false (cell (faceUp b) row col)));
    rewrite ?ret_bind, !modify_bind;
    rewrite (take_second_Out _ _ _ p) by done;
    rewrite Hrest; try done;
    simpl; by rewrite cell_set_cell_ne.
Qed.

(** X13. Rules 2-C and 2-E. On a board in good order, let a player that
    controls its first card select as second card an uncontrolled card with
    another picture. The call returns; both cards keep their pictures, are
    face up (the second is turned up if it was down) and are controlled by
    nobody; their queues of waiters are deleted, the waiters of the first
    card resolved first, then those of the second, each queue in order; then
    every watcher receives the render of the new board and the list of
    watchers is emptied. The player has recorded both cards and one more
    flip, and the board is in good order. *)
Theorem second_flip_without_match
    (b : Board) (playerId : string) (p : Player) (first : Pos) (row col : nat)
    (pic1 pic2 : string) :
  Valid b → row < rows b → col < cols b →
  JsMap.get playerId (players b) = Some p →
  p_firstCard p = Some first → p_secondCard p = None →
  cell (controller b) first.1 first.2 = Some (Some playerId) →
  cell (cards b) first.1 first.2 = Some (Some pic1) →
  cell (cards b) row col = Some (Some pic2) → pic1 ≠ pic2 →
  cell (controller b) row col = Some None →
  let o := flipUp playerId row col b in
  let b' := board_after o in
  result o = inr Returned
  ∧ (∀ pos : Pos, pos = first ∨ pos = (row, col) →
       cell (cards b') pos.1 pos.2 = cell (cards b) pos.1 pos.2
       ∧ cell (faceUp b') pos.1 pos.2 = Some true
       ∧ cell (controller b') pos.1 pos.2 = Some None
       ∧ waitingForControl b' !! pos = None)
  ∧ JsMap.get playerId (players b')
    = Some (mkPlayer playerId (Some first) (Some (row, col)) (S (p_flipCount p)))
  ∧ changeResolvers b' = []
  ∧ events o
    = (Resolved <$> default [] (waitingForControl b !! first))
        ++ (Resolved <$> default [] (waitingForControl b !! (row, col)))
        ++ delivered_to (changeResolvers b) b'
  ∧ Valid b'.
Proof.
  intros Hvalid Hr Hc Hp Hfirst Hsecond Hctrl1 Hpic1 Hpic2 Hpics Hctrl2 o b'.
  pose proof (Valid_flipUp playerId row col b Hvalid) as Hvalid'.
  pose proof (flipUp_keeps_rep b playerId row col Hvalid) as Hrep.
  fold o in Hrep. fold o b' in Hvalid'.
  destruct Hvalid as (Hb & _ & Hpos).
  destruct (Hpos playerId p first Hp (or_introl Hfirst)) as [Hr1 Hc1].
  destruct (c_players b Hb playerId p Hp) as [Hid _].
  destruct (c_ctrl b Hb _ _ _ Hctrl1) as (Hup1 & _).
  destruct (Consistent_cells b row col Hb Hr Hc) as (? & up & ? & _ & Hup2 & _).
  assert (Hne : (row, col) ≠ (first.1, first.2)).
  { intros [= H1 H2]. rewrite H1, H2, Hpic1 in Hpic2. congruence. }
  assert (Hne' : first ≠ (row, col)) by (intros ->; by apply Hne).
  assert (Hflip : o = secondCardRules playerId first row col b)
    by (by apply (flipUp_second_flip b playerId row col p)).
  rewrite (secondCardRules_2E b playerId first row col p pic1 pic2) in Hflip by done.
  set (after := mismatched playerId first row col p b) in Hflip.
  destruct (checkRep after); [|by rewrite Hflip in Hrep].
  assert (Hb' : b' = with_changeResolvers [] after) by (unfold b'; by rewrite Hflip).
  clearbody o b'. subst o b'. rewrite result_Out, events_Out.
  assert (Hcards : cards after = cards b).
  { unfold after, mismatched, second_taken. by destruct (negb _). }
  assert (Hctrl : controller after
                  = set_cell (set_cell (set_cell (controller b) row col (Some playerId))
                                first.1 first.2 None) row col None).
  { unfold after, mismatched, second_taken. by destruct (negb _). }
  assert (Hfaces : faceUp after
                   = if negb (default false (cell (faceUp b) row col))
                     then set_cell (faceUp b) row col true else faceUp b).
  { unfold after, mismatched, second_taken. by destruct (negb _). }
  assert (Hwait : waitingForControl after
                  = delete (row, col) (delete first (waitingForControl b))).
  { unfold after, mismatched, second_taken. by destruct (negb _). }
  assert (Hplayers : players after
                     = JsMap.set playerId (recordFlip (setSecondCard (row, col) p))
                         (players b)).
  { unfold after, mismatched, second_taken. by destruct (negb _). }
  assert (Hwatch : changeResolvers after = changeResolvers b).
  { unfold after, mismatched, second_taken. by destruct (negb _). }
  clearbody after. split_and!; try done.
  - intros pos Hcell. simpl. rewrite Hcards, Hctrl, Hfaces, Hwait. split_and!.
    + done.
    + destruct Hcell as [-> | ->]; simpl.
      * destruct (negb _); [|done]. by rewrite cell_set_cell_ne.
      * rewrite Hup2. simpl. destruct up; simpl; [done|].
        by rewrite cell_set_cell_eq, Hup2.
    + destruct Hcell as [-> | ->]; simpl.
      * rewrite cell_set_cell_ne, cell_set_cell_eq, cell_set_cell_ne, Hctrl1 by done.
        done.
      * assert (Hne2 : (first.1, first.2) ≠ (row, col)) by (by destruct first).
        rewrite cell_set_cell_eq, cell_set_cell_ne, cell_set_cell_eq, Hctrl2 by done.
        done.
    + destruct Hcell as [-> | ->].
      * rewrite lookup_delete_ne by done. apply lookup_delete_eq.
      * apply lookup_delete_eq.
  - simpl. rewrite Hplayers, JsMap_get_set_eq. f_equal.
    unfold recordFlip, setSecondCard. simpl. by rewrite Hid, Hfirst.
  - unfold deliveries. by rewrite Hwatch, <- app_assoc.
Qed.

Lemma second_flip_without_match_witness :
  result (flipUp "alice" 1 0 bob_parked) = inr Returned
  ∧ cell (controller (board_after (flipUp "alice" 1 0 bob_parked))) 0 0 = Some None
  ∧ events (flipUp "alice" 1 0 bob_parked) = [Resolved (mkDeferred "bob" 0 0)].
Proof.
  assert (Hr : 1 < rows bob_parked) by (vm_compute; lia).
  assert (Hc : 0 < cols bob_parked) by (vm_compute; lia).
  assert (Hp : JsMap.get "alice" (players bob_parked)
               = Some (mkPlayer "alice" (Some (0, 0)) None 1))
    by (vm_compute; reflexivity).
  assert (Hk : cell (controller bob_parked) 0 0 = Some (Some "alice"))
    by (vm_compute; reflexivity).
  assert (Hpic1 : cell (cards bob_parked) 0 0 = Some (Some "A"))
    by (vm_compute; reflexivity).
  assert (Hpic2 : cell (cards bob_parked) 1 0 = Some (Some "B"))
    by (vm_compute; reflexivity).
  assert (Hfree : cell (controller bob_parked) 1 0 = Some None)
    by (vm_compute; reflexivity).
  destruct (second_flip_without_match bob_parked "alice" _ (0, 0) 1 0 "A" "B"
              Valid_bob_parked Hr Hc Hp eq_refl eq_refl Hk Hpic1 Hpic2
              ltac:(discriminate) Hfree)
    as (Hres & Hcells & _ & _ & Hevents & _).
  destruct (Hcells (0, 0) (or_introl eq_refl)) as (_ & _ & Hctrl & _).
  split_and!; [exact Hres | exact Hctrl |].
  rewrite Hevents. by vm_compute.
Defined.

(** ** Rule 3-B: turning down the cards of a play without a match *)

Lemma flipDownIfUncontrolled_board row col b :
  board_after (flipDownIfUncontrolled row col b) = b
  ∨ (cell (controller b) row col = Some None
     ∧ board_after (flipDownIfUncontrolled row col b)
       = with_faceUp (set_cell (faceUp b) row col false) b).
Proof.
  unfold flipDownIfUncontrolled, modify. simpl.
  destruct (cards b !! row) as [cardsRow|]; [|by left].
  destruct (faceUp b !! row) as [faceUpRow|]; [|by left].
  destruct (controller b !! row) as [controllerRow|] eqn:Hrow; [|by left].
  destruct (bool_decide (cardsRow !! col ≠ Some None)); [|by left].
  destruct (default false (faceUpRow !! col)); [|by left].
  case_bool_decide as Hctrl; [|by left].
  right. by rewrite (cell_row _ _ col _ Hrow).
Qed.

Lemma flipDownIfUncontrolled_Down b (pos : Pos) pic :
  Consistent b → cell (cards b) pos.1 pos.2 = Some (Some pic) →
  cell (controller b) pos.1 pos.2 = Some None →
  Down pos (board_after (flipDownIfUncontrolled pos.1 pos.2 b)).
Proof.
  intros Hb Hcard Hctrl.
  destruct (Consistent_cell_defined b (cards b) pos.1 pos.2 (Some pic))
    as (? & up & ? & _ & Hup & _); [done | apply Hb | done |].
  destruct (proj1 (cell_Some (cards b) pos.1 pos.2 (Some pic)) Hcard) as (l1 & H1 & Hc1).
  destruct (proj1 (cell_Some (faceUp b) pos.1 pos.2 up) Hup) as (l2 & H2 & Hc2).
  destruct (proj1 (cell_Some (controller b) pos.1 pos.2 None) Hctrl) as (l3 & H3 & Hc3).
  unfold flipDownIfUncontrolled, modify, Down. simpl.
  rewrite H1, H2, H3, Hc1, Hc2, Hc3.
  rewrite bool_decide_eq_true_2 by done. rewrite bool_decide_eq_true_2 by done.
  destruct up; simpl.
  - by rewrite cell_set_cell_eq, Hup.
  - done.
Qed.

Lemma Down_flipDownIfUncontrolled pos row col :
  preserves (Down pos) (flipDownIfUncontrolled row col).
Proof.
  intros b [Hup Hctrl].
  destruct (flipDownIfUncontrolled_board row col b) as [-> | [_ ->]]; [done|].
  split; [|done]. simpl.
  rewrite cell_set_cell. case_decide as Heq; [|done].
  destruct Heq as [-> ->]. by rewrite Hup.
Qed.

Lemma Held_flipDownIfUncontrolled pos q row col :
  preserves (Held pos q) (flipDownIfUncontrolled row col).
Proof.
  intros b [Hup Hctrl].
  destruct (flipDownIfUncontrolled_board row col b) as [-> | [Hfree ->]]; [done|].
  split; [|done]. simpl.
  rewrite cell_set_cell. case_decide as Heq; [|done].
  destruct Heq as [-> ->]. congruence.
Qed.

Lemma cards_flipDownIfUncontrolled (pos : Pos) card row col :
  preserves (λ b, cell (cards b) pos.1 pos.2 = card) (flipDownIfUncontrolled row col).
Proof.
  intros b Hcard.
  by destruct (flipDownIfUncontrolled_board row col b) as [-> | [_ ->]].
Qed.

Lemma controller_flipDownIfUncontrolled (pos : Pos) ctrl row col :
  preserves (λ b, cell (controller b) pos.1 pos.2 = ctrl) (flipDownIfUncontrolled row col).
Proof.
  intros b Hcard.
  by destruct (flipDownIfUncontrolled_board row col b) as [-> | [_ ->]].
Qed.

Lemma cell_view_fields pos b card up ctrl :
  cell_view pos b = (card, up, ctrl) ↔
  cell (cards b) pos.1 pos.2 = card ∧ cell (faceUp b) pos.1 pos.2 = up
  ∧ cell (controller b) pos.1 pos.2 = ctrl.
Proof. unfold cell_view. split; [by intros [= -> -> ->] | by intros (-> & -> & ->)]. Qed.

(** The rules of a first flip on [(row, col)] leave the other cells alone. *)
Lemma cell_view_firstCardRules pos v playerId row col :
  pos ≠ (row, col) →
  preserves (λ b, cell_view pos b = v) (firstCardRules playerId row col).
Proof.
  intros Hne.
  assert (Hne' : (row, col) ≠ (pos.1, pos.2)).
  { intros Heq. apply Hne. destruct pos. by injection Heq as -> ->. }
  unfold firstCardRules, notifyChange.
  preserves_structure
    ltac:(idtac;
          match goal with
          | |- preserves _ (updatePlayer _ _) =>
              apply preserves_modify; intros ? ?; unfold cell_view in *; simpl;
              by repeat case_match
          | |- preserves _ (modify _) =>
              apply preserves_modify; intros ? ?; unfold cell_view in *; simpl;
              rewrite ?cell_set_cell_ne by done; done
          end).
Qed.

Lemma preserves_cleanLingering (I : Board → Prop) pid :
  (∀ row col, preserves I (flipDownIfUncontrolled row col)) →
  (∀ m b, I b → I (with_lingering m b)) →
  preserves I (cleanLingering pid).
Proof.
  intros Hdown Hling. unfold cleanLingering.
  apply preserves_bind; [apply preserves_get|]. intros b.
  destruct (lingering b !! pid) as [[|pos linger]|]; try apply preserves_ret.
  apply preserves_bind.
  - apply preserves_for_each. intros [row col]. apply Hdown.
  - intros _. apply preserves_modify. intros b'. apply Hling.
Qed.

Lemma cleanCards_3B b pid (first second : Pos) pic1 pic2 :
  in_bounds b first → in_bounds b second →
  cell (cards b) first.1 first.2 = Some (Some pic1) →
  cell (cards b) second.1 second.2 = Some (Some pic2) → pic1 ≠ pic2 →
  cleanCards pid (Some first) (Some second) b
  = (flipDownIfUncontrolled first.1 first.2 >>
     flipDownIfUncontrolled second.1 second.2) b.
Proof.
  intros [Hr1 Hc1] [Hr2 Hc2] Hpic1 Hpic2 Hpics. unfold cleanCards.
  rewrite (bind_Out_quiet _ _ _ _ _ (pictureAt_cell b first.1 first.2 _ Hr1 Hc1 Hpic1)).
  rewrite (bind_Out_quiet _ _ _ _ _ (pictureAt_cell b second.1 second.2 _ Hr2 Hc2 Hpic2)).
  by rewrite bool_decide_eq_false_2 by (intros [= ->]; done).
Qed.

(** The board after the cleanup of a play whose two cards do not match. *)
Lemma cleanupPreviousPlay_3B b pid p (first second : Pos) pic1 pic2 :
  Consistent b → Positions b → JsMap.get pid (players b) = Some p →
  p_firstCard p = Some first → p_secondCard p = Some second →
  cell (cards b) first.1 first.2 = Some (Some pic1) →
  cell (cards b) second.1 second.2 = Some (Some pic2) → pic1 ≠ pic2 →
  let b1 := board_after (cleanLingering pid b) in
  let b2 := board_after (flipDownIfUncontrolled first.1 first.2 b1) in
  let b3 := board_after (flipDownIfUncontrolled second.1 second.2 b2) in
  board_after (cleanupPreviousPlay pid b)
  = board_after (updatePlayer pid clearCards b3).
Proof.
  intros Hb Hpos Hp Hfirst Hsecond Hpic1 Hpic2 Hpics b1 b2 b3.
  destruct (c_players b Hb pid p Hp) as [Hid _].
  unfold cleanupPreviousPlay. rewrite (thePlayer_bind _ _ _ _ Hp).
  unfold getId, getFirstCard, getSecondCard. rewrite Hid, Hfirst, Hsecond.
  rewrite (bind_Out_quiet _ _ _ _ _ (cleanLingering_Out b pid)). fold b1.
  assert (Hsame : same_but_faces b b1).
  { apply same_but_faces_cleanLingering. by unfold same_but_faces. }
  destruct Hsame as (Hrows & Hcols & Hcards & _).
  rewrite board_after_bind.
  rewrite (cleanCards_3B b1 pid first second pic1 pic2); try done.
  - unfold in_bounds. rewrite Hrows, Hcols. apply (Hpos pid p first Hp). by left.
  - unfold in_bounds. rewrite Hrows, Hcols. apply (Hpos pid p second Hp). by right.
  - by rewrite Hcards.
  - by rewrite Hcards.
Qed.

Lemma cell_view_updatePlayer pos key f b :
  cell_view pos (board_after (updatePlayer key f b)) = cell_view pos b.
Proof.
  unfold updatePlayer, modify, cell_view. simpl.
  by destruct (JsMap.get key (players b)).
Qed.

(** X14. Rule 3-B. On a board in good order, let a player that has recorded
    two cards with different pictures call [flipUp] on an in-bounds cell. Of
    the two recorded cards, the one that is not the selected cell keeps its
    picture; if nobody controls it, it is face down and uncontrolled when the
    call ends, however it ends; if a player controls it, it stays face up
    under that player's control. *)
Theorem unmatched_cards_are_turned_down
    (b : Board) (playerId : string) (p : Player) (first second : Pos)
    (pic1 pic2 : string) (row col : nat) :
  Valid b → row < rows b → col < cols b →
  JsMap.get playerId (players b) = Some p →
  p_firstCard p = Some first → p_secondCard p = Some second →
  cell (cards b) first.1 first.2 = Some (Some pic1) →
  cell (cards b) second.1 second.2 = Some (Some pic2) → pic1 ≠ pic2 →
  let b' := board_after (flipUp playerId row col b) in
  ∀ pos : Pos, pos = first ∨ pos = second → pos ≠ (row, col) →
    cell (cards b') pos.1 pos.2 = cell (cards b) pos.1 pos.2
    ∧ (cell (controller b) pos.1 pos.2 = Some None → Down pos b')
    ∧ (∀ q, cell (controller b) pos.1 pos.2 = Some (Some q) → Held pos q b').
Proof.
  intros (Hb & _ & Hpos) Hr Hc Hp Hfirst Hsecond Hpic1 Hpic2 Hpics b' pos Hcell Hne.
  pose proof (cleanupPreviousPlay_3B b playerId p first second pic1 pic2
                Hb Hpos Hp Hfirst Hsecond Hpic1 Hpic2 Hpics) as Hclean.
  cbv zeta in Hclean.
  set (b1 := board_after (cleanLingering playerId b)) in *.
  set (b2 := board_after (flipDownIfUncontrolled first.1 first.2 b1)) in *.
  set (b3 := board_after (flipDownIfUncontrolled second.1 second.2 b2)) in *.
  (* what the call leaves at [pos] is what [b3] holds there *)
  assert (Hview : cell_view pos b' = cell_view pos b3).
  { unfold b'.
    rewrite (flipUp_first_flip b playerId row col p)
      by (try done; right; by rewrite Hsecond).
    destruct (cleanupPreviousPlay_Out b playerId p Hb Hpos Hp)
      as (bc & evs & Hout & _).
    rewrite board_after_bind. rewrite Hout in Hclean |- *.
    rewrite result_Out, board_after_Out in *.
    rewrite (cell_view_firstCardRules pos (cell_view pos b3) playerId row col Hne).
    - done.
    - by rewrite Hclean, cell_view_updatePlayer. }
  apply cell_view_fields in Hview as (Hcards' & Hup' & Hctrl').
  assert (Hsame : same_but_faces b b1).
  { apply same_but_faces_cleanLingering. by unfold same_but_faces. }
  destruct Hsame as (_ & _ & Hcards1 & Hctrl1 & _).
  pose proof (Consistent_cleanLingering playerId b Hb) as Hb1. fold b1 in Hb1.
  pose proof (Consistent_flipDownIfUncontrolled first.1 first.2 b1 Hb1) as Hb2.
  fold b2 in Hb2.
  assert (Hcards3 : ∀ pos' : Pos,
            cell (cards b3) pos'.1 pos'.2 = cell (cards b) pos'.1 pos'.2).
  { intros pos'. unfold b3, b2.
    rewrite (cards_flipDownIfUncontrolled pos' (cell (cards b) pos'.1 pos'.2)); [done|].
    rewrite (cards_flipDownIfUncontrolled pos' (cell (cards b) pos'.1 pos'.2)); [done|].
    by rewrite Hcards1. }
  assert (Hctrl2 : ∀ pos' : Pos,
            cell (controller b2) pos'.1 pos'.2 = cell (controller b) pos'.1 pos'.2).
  { intros pos'. unfold b2.
    rewrite (controller_flipDownIfUncontrolled pos' (cell (controller b) pos'.1 pos'.2));
      [done|]. by rewrite Hctrl1. }
  unfold Down, Held. rewrite Hcards', Hup', Hctrl'. split_and!.
  - apply Hcards3.
  - intros Hfree. change (Down pos b3).
    destruct Hcell as [-> | ->].
    + apply Down_flipDownIfUncontrolled.
      apply (flipDownIfUncontrolled_Down b1 first pic1); [done | |].
      * by rewrite Hcards1.
      * by rewrite Hctrl1.
    + apply (flipDownIfUncontrolled_Down b2 second pic2); [done | |].
      * unfold b2.
        rewrite (cards_flipDownIfUncontrolled second (Some (Some pic2))); [done|].
        by rewrite Hcards1.
      * by rewrite Hctrl2.
  - intros q Hq. change (Held pos q b3).
    assert (Hheld : Held pos q b).
    { split; [|done]. by destruct (c_ctrl b Hb _ _ _ Hq). }
    do 2 apply Held_flipDownIfUncontrolled.
    apply preserves_cleanLingering; [apply Held_flipDownIfUncontrolled | done | done].
Qed.

Lemma Valid_alice_mismatched : Valid alice_mismatched.
Proof. apply Valid_flipUp, Valid_bob_parked. Qed.

Lemma unmatched_cards_are_turned_down_witness :
  cell (faceUp alice_mismatched) 0 0 = Some true
  ∧ Down (0, 0) (board_after (flipUp "alice" 1 1 alice_mismatched))
  ∧ Down (1, 0) (board_after (flipUp "alice" 1 1 alice_mismatched)).
Proof.
  assert (Hr : 1 < rows alice_mismatched) by (vm_compute; lia).
  assert (Hc : 1 < cols alice_mismatched) by (vm_compute; lia).
  assert (Hp : JsMap.get "alice" (players alice_mismatched)
               = Some (mkPlayer "alice" (Some (0, 0)) (Some (1, 0)) 2))
    by (vm_compute; reflexivity).
  assert (Hpic1 : cell (cards alice_mismatched) 0 0 = Some (Some "A"))
    by (vm_compute; reflexivity).
  assert (Hpic2 : cell (cards alice_mismatched) 1 0 = Some (Some "B"))
    by (vm_compute; reflexivity).
  assert (Hfree1 : cell (controller alice_mismatched) 0 0 = Some None)
    by (vm_compute; reflexivity).
  assert (Hfree2 : cell (controller alice_mismatched) 1 0 = Some None)
    by (vm_compute; reflexivity).
  assert (Hup : cell (faceUp alice_mismatched) 0 0 = Some true)
    by (vm_compute; reflexivity).
  pose proof (unmatched_cards_are_turned_down alice_mismatched "alice" _
                (0, 0) (1, 0) "A" "B" 1 1 Valid_alice_mismatched Hr Hc Hp
                eq_refl eq_refl Hpic1 Hpic2 ltac:(discriminate)) as Hdown.
  destruct (Hdown (0, 0) (or_introl eq_refl) ltac:(discriminate)) as (_ & H1 & _).
  destruct (Hdown (1, 0) (or_intror eq_refl) ltac:(discriminate)) as (_ & H2 & _).
  split_and!; [exact Hup | exact (H1 Hfree1) | exact (H2 Hfree2)].
Defined.

(** ** [map] with a transform that yields tokens *)

Section mapped.
Context {S : Type} (f : string → S → string * S).

Lemma transform_cards_mapped cells s :
Forall2 (mapped f) cells (transform_cards f cells s).1.
Proof.
revert s. induction cells as [|[pic|] cells IH]; intros s; simpl.
- constructor.
- destruct (f pic s) as [pic' s1] eqn:Hf. specialize (IH s1).
destruct (transform_cards f cells s1) as [rest s2]. simpl in *.
constructor; [|done]. exists s. by rewrite Hf.
- specialize (IH s). destruct (transform_cards f cells s) as [rest s2]. simpl in *.
by constructor.
Qed.

Lemma transform_grid_mapped g s :
Forall2 (Forall2 (mapped f)) g (transform_grid f g s).1.
Proof.
revert s. induction g as [|line g IH]; intros s; simpl; [constructor|].
pose proof (transform_cards_mapped line s) as Hline.
destruct (transform_cards f line s) as [line' s1]. specialize (IH s1).
destruct (transform_grid f g s1) as [rest s2]. simpl in *. by constructor.
Qed.

Lemma cell_mapped g s r c :
match cell g r c, cell (transform_grid f g s).1 r c with
| Some old, Some new => mapped f old new
| None, None => True
| _, _ => False
end.
Proof.
pose proof (transform_grid_mapped g s) as Hgrid. unfold cell.
destruct (g !! r) as [line|] eqn:Hline.
- destruct (Forall2_lookup_l _ _ _ _ _ Hgrid Hline) as (line' & -> & Hlines). simpl.
destruct (line !! c) as [old|] eqn:Hold.
+ by destruct (Forall2_lookup_l _ _ _ _ _ Hlines Hold) as (new & -> & Hcell).
+ destruct (line' !! c) as [new|] eqn:Hnew; [|done].
destruct (Forall2_lookup_r _ _ _ _ _ Hlines Hnew) as (old & Hold' & _). congruence.
- destruct ((transform_grid f g s).1 !! r) as [line'|] eqn:Hline'; [|done].
destruct (Forall2_lookup_r _ _ _ _ _ Hgrid Hline') as (line & Hline'' & _). congruence.
Qed.

End mapped.

Lemma Consistent_drop_watchers b m : Consistent (with_changeResolvers m b) → Consistent b.
Proof. by intros []. Qed.

(** X15. [map] with a transform that turns tokens (non-empty, without white
    space) into tokens, on a board in good order: the call returns the final state
    of the transform; every empty cell is still empty and every picture has
    been replaced by a picture that the transform returned for it; which
    cards are face up, who controls them, the players, the queues and the
    lingering lists are untouched; every watcher has received the render of
    the new board and the list of watchers is empty; and the board is in good
    order. *)
Theorem map_with_a_token_transform {S : Type} (f : string → S → string * S)
    (s : S) (b : Board) :
  Valid b → (∀ pic s0, valid_token pic → valid_token (f pic s0).1) →
  let o := map f s b in
  let b' := board_after o in
  result o = inr (transform_grid f (cards b) s).2
  ∧ (∀ r c, match cell (cards b) r c, cell (cards b') r c with
            | Some old, Some new => mapped f old new
            | None, None => True
            | _, _ => False
            end)
  ∧ rows b' = rows b ∧ cols b' = cols b
  ∧ faceUp b' = faceUp b ∧ controller b' = controller b ∧ players b' = players b
  ∧ waitingForControl b' = waitingForControl b ∧ lingering b' = lingering b
  ∧ changeResolvers b' = []
  ∧ events o = delivered_to (changeResolvers b) b'
  ∧ Valid b'.
Proof.
  intros Hvalid Hf o b'.
  pose proof (Consistent_map f s b (proj1 Hvalid)) as Hcons. fold o b' in Hcons.
  destruct Hvalid as (Hb & Hrep & Hpos).
  assert (Hmap : o = (assertRep >> notifyChange >> ret (transform_grid f (cards b) s).2)
                       (with_cards (transform_grid f (cards b) s).1 b)).
  { unfold o, map. by rewrite (map_sweep f b s (c_cards b Hb)). }
  rewrite assertRep_notifyChange in Hmap.
  set (swept := with_cards (transform_grid f (cards b) s).1 b) in *.
  assert (Hswept : Consistent swept).
  { unfold b' in Hcons. rewrite Hmap in Hcons.
    destruct (checkRep swept); [|done].
    by apply Consistent_drop_watchers in Hcons. }
  assert (Hrep' : Rep swept).
  { pose proof (r_cards b Hrep) as Hpics. destruct Hrep. split; try done.
    intros r c pic' Hcell. unfold swept in Hcell. simpl in Hcell.
    pose proof (cell_mapped f (cards b) s r c) as Hcells. rewrite Hcell in Hcells.
    destruct (cell (cards b) r c) as [[pic|]|] eqn:Hold; try done.
    destruct Hcells as [s0 ->]. apply Hf. by apply (Hpics r c). }
  rewrite (Rep_checkRep swept Hswept Hrep') in Hmap.
  assert (Hb' : b' = with_changeResolvers [] swept) by (unfold b'; by rewrite Hmap).
  clearbody o b'. subst o b'. simpl. split_and!; try done.
  - intros r c. apply cell_mapped.
  - split; [by apply Consistent_with_changeResolvers|]. split; [|done].
    destruct Hrep'. split; try done; constructor.
Qed.

Lemma has_space_append s t :
  Text.has_space (s +:+ t) = Text.has_space s || Text.has_space t.
Proof.
  induction s as [|a s IH]; [done|]. rewrite append_cons. simpl.
  by rewrite IH, orb_assoc.
Qed.

Lemma double_token pic calls : valid_token pic → valid_token (double pic calls).1.
Proof.
  intros [Hne Hsp]. split; simpl.
  - destruct pic; [done|]. by rewrite append_cons.
  - by rewrite has_space_append, Hsp.
Qed.

Lemma map_with_a_token_transform_witness :
  result (map double [] alice_mismatched) = inr ["A"; "A"; "B"; "B"]
  ∧ cell (cards (board_after (map double [] alice_mismatched))) 1 0 = Some (Some "BB")
  ∧ faceUp (board_after (map double [] alice_mismatched)) = faceUp alice_mismatched.
Proof.
  destruct (map_with_a_token_transform double [] alice_mismatched
              Valid_alice_mismatched double_token)
    as (Hres & Hcells & _ & _ & Hfaces & _).
  split_and!; [by rewrite Hres | | exact Hfaces].
  specialize (Hcells 1 0).
  destruct (cell (cards (board_after (map double [] alice_mismatched))) 1 0)
    as [[pic'|]|] eqn:Hnew; by vm_compute in Hnew.
Defined.

(** ** The cells that [flipUp] leaves alone *)

Lemma preserves_bind_at {A B : Type} (I : Board → Prop) (m : M A) (k : A → M B) b :
  I (board_after (m b)) → (∀ a, preserves I (k a)) → I (board_after (bind m k b)).
Proof.
  intros Hm Hk. rewrite board_after_bind.
  destruct (result (m b)); [done|]. by apply Hk.
Qed.

Lemma Untouched_flipDownIfUncontrolled pos v w row col :
  (row, col) ≠ (pos.1, pos.2) →
  preserves (Untouched pos v w) (flipDownIfUncontrolled row col).
Proof.
  intros Hne b [Hview Hwait].
  destruct (flipDownIfUncontrolled_board row col b) as [-> | [_ ->]]; [done|].
  split; [|done]. unfold cell_view in *. simpl. by rewrite cell_set_cell_ne.
Qed.

Lemma pair_ne (pos pos' : Pos) : pos' ≠ pos → (pos'.1, pos'.2) ≠ (pos.1, pos.2).
Proof. intros Hne Heq. apply Hne. destruct pos, pos'. by injection Heq as -> ->. Qed.

Lemma Untouched_turn_down pos v w (cells : list Pos) :
  pos ∉ cells →
  preserves (Untouched pos v w)
    (for_each cells (λ '(row, col), flipDownIfUncontrolled row col)).
Proof.
  induction cells as [|[row col] cells IH]; intros Hnot; simpl.
  - apply preserves_ret.
  - apply not_elem_of_cons in Hnot as [Hne Hnot].
    apply preserves_bind; [|intros _; by apply IH].
    apply Untouched_flipDownIfUncontrolled. by apply (pair_ne pos (row, col)).
Qed.

Lemma Untouched_cleanLingering pos v w pid b :
  pos ∉ default [] (lingering b !! pid) →
  Untouched pos v w b → Untouched pos v w (board_after (cleanLingering pid b)).
Proof.
  intros Hnot Hb. unfold cleanLingering. rewrite board_after_get_bind.
  destruct (lingering b !! pid) as [[|cell cells]|]; try done.
  apply preserves_bind_at.
  - by apply Untouched_turn_down.
  - intros _. by apply preserves_modify.
Qed.

(** A write to a cell other than [pos], to its queue, or to another part of
    the board. *)
Ltac untouched_leaf :=
  idtac;
  match goal with
  | |- preserves _ (flipDownIfUncontrolled _ _) =>
      apply Untouched_flipDownIfUncontrolled; done
  | |- preserves _ (pictureAt _ _) => apply preserves_pictureAt
  | |- preserves _ (updatePlayer _ _) =>
      apply preserves_modify; intros ? [? ?]; split; unfold cell_view in *; simpl;
      by repeat case_match
  | |- preserves _ (modify _) =>
      apply preserves_modify; intros ? [? ?]; split; unfold cell_view in *; simpl;
      rewrite ?cell_set_cell_ne, ?lookup_delete_ne, ?lookup_insert_ne by done; done
  end.

Lemma Untouched_cleanCards pos v w pid firstCard secondCard :
  firstCard ≠ Some pos → secondCard ≠ Some pos →
  preserves (Untouched pos v w) (cleanCards pid firstCard secondCard).
Proof.
  intros Hfirst Hsecond. unfold cleanCards.
  destruct firstCard as [first|]; [|apply preserves_ret].
  assert (H1 : first ≠ pos) by congruence.
  assert (H1' : (first.1, first.2) ≠ (pos.1, pos.2)) by (by apply pair_ne).
  assert (H1'' : (first.1, first.2) ≠ pos) by (by destruct first).
  destruct secondCard as [second|]; [|untouched_leaf].
  assert (H2 : second ≠ pos) by congruence.
  assert (H2' : (second.1, second.2) ≠ (pos.1, pos.2)) by (by apply pair_ne).
  assert (H2'' : (second.1, second.2) ≠ pos) by (by destruct second).
  unfold removeIfControlled, notifyWaiters.
  preserves_structure untouched_leaf.
Qed.

Lemma Untouched_firstCardRules pos v w playerId row col :
  pos ≠ (row, col) →
  preserves (Untouched pos v w) (firstCardRules playerId row col).
Proof.
  intros Hne.
  assert (Hne' : (row, col) ≠ (pos.1, pos.2)) by (by apply (pair_ne pos (row, col))).
  assert (Hne'' : (row, col) ≠ pos) by done.
  unfold firstCardRules, notifyChange.
  preserves_structure untouched_leaf.
Qed.

Lemma Untouched_secondCardRules pos v w playerId (first : Pos) row col :
  pos ≠ (row, col) → first ≠ pos →
  preserves (Untouched pos v w) (secondCardRules playerId first row col).
Proof.
  intros Hne H1.
  assert (Hne' : (row, col) ≠ (pos.1, pos.2)) by (by apply (pair_ne pos (row, col))).
  assert (Hne'' : (row, col) ≠ pos) by done.
  assert (H1' : (first.1, first.2) ≠ (pos.1, pos.2)) by (by apply pair_ne).
  assert (H1'' : (first.1, first.2) ≠ pos) by (by destruct first).
  unfold secondCardRules, failSecond, relinquish, notifyWaiters, notifyChange,
    rememberLingering.
  preserves_structure untouched_leaf.
Qed.

Lemma Untouched_cleanupPreviousPlay pos v w pid p b :
  Consistent b → JsMap.get pid (players b) = Some p →
  p_firstCard p ≠ Some pos → p_secondCard p ≠ Some pos →
  pos ∉ default [] (lingering b !! pid) →
  Untouched pos v w b → Untouched pos v w (board_after (cleanupPreviousPlay pid b)).
Proof.
  intros Hb Hp Hfirst Hsecond Hnot Hview.
  destruct (c_players b Hb pid p Hp) as [Hid _].
  unfold cleanupPreviousPlay. rewrite (thePlayer_bind _ _ _ _ Hp).
  unfold getId. rewrite Hid.
  apply preserves_bind_at; [by apply Untouched_cleanLingering|]. intros _.
  apply preserves_bind; [by apply Untouched_cleanCards|]. intros _. untouched_leaf.
Qed.

(** X16. On a board in good order, [flipUp] by a registered player leaves
    alone every cell that is neither the selected cell, nor a card that the
    player has recorded, nor a card on the player's lingering list: the
    picture, the face, the controller and the queue of waiters of such a cell
    are, when the call ends, what they were, however the call ends. *)
Theorem flipUp_leaves_other_cells
    (b : Board) (playerId : string) (row col : nat) (p : Player) (pos : Pos) :
  Valid b → JsMap.get playerId (players b) = Some p →
  pos ≠ (row, col) → p_firstCard p ≠ Some pos → p_secondCard p ≠ Some pos →
  pos ∉ default [] (lingering b !! playerId) →
  let b' := board_after (flipUp playerId row col b) in
  cell (cards b') pos.1 pos.2 = cell (cards b) pos.1 pos.2
  ∧ cell (faceUp b') pos.1 pos.2 = cell (faceUp b) pos.1 pos.2
  ∧ cell (controller b') pos.1 pos.2 = cell (controller b) pos.1 pos.2
  ∧ waitingForControl b' !! pos = waitingForControl b !! pos.
Proof.
  intros (Hb & _ & Hpos) Hp Hne Hfirst Hsecond Hnot b'.
  assert (Hkept : Untouched pos (cell_view pos b) (waitingForControl b !! pos) b')
    ; [|destruct Hkept as [Hview Hwait];
        by apply cell_view_fields in Hview as (? & ? & ?)].
  unfold b'.
  destruct (decide (row < rows b ∧ col < cols b)) as [[Hr Hc]|Hout].
  2: { rewrite flipUp_out_of_bounds by lia. done. }
  assert (Hcases : first_flip p
            ∨ ∃ first, p_firstCard p = Some first ∧ p_secondCard p = None).
  { unfold first_flip.
    destruct (p_firstCard p) as [first|]; [|by left; left].
    destruct (p_secondCard p) as [second|]; [by left; right | right; by exists first]. }
  destruct Hcases as [Hflip | (first & Hfirst' & Hsecond')].
  - rewrite (flipUp_first_flip b playerId row col p) by done.
    apply preserves_bind_at.
    + by apply (Untouched_cleanupPreviousPlay pos _ _ playerId p).
    + intros _. by apply Untouched_firstCardRules.
  - rewrite (flipUp_second_flip b playerId row col p first) by done.
    apply Untouched_secondCardRules; [done | congruence | done].
Qed.

Lemma flipUp_leaves_other_cells_witness :
  cell (cards alice_mismatched) 1 1 = Some (Some "B")
  ∧ cell (faceUp alice_mismatched) 1 1 = Some false
  ∧ waitingForControl alice_mismatched !! (1, 1) = None.
Proof.
  assert (Hp : JsMap.get "alice" (players bob_parked)
               = Some (mkPlayer "alice" (Some (0, 0)) None 1))
    by (vm_compute; reflexivity).
  assert (Hnot : (1, 1) ∉ default [] (lingering bob_parked !! "alice")).
  { vm_compute. apply not_elem_of_nil. }
  destruct (flipUp_leaves_other_cells bob_parked "alice" 1 0 _ (1, 1)
              Valid_bob_parked Hp ltac:(discriminate) ltac:(discriminate)
              ltac:(discriminate) Hnot) as (Hcard & Hup & _ & Hwait).
  unfold alice_mismatched. cbn [fst snd] in Hcard, Hup.
  rewrite Hcard, Hup, Hwait. clear. vm_compute. repeat split.
Defined.

(** ** A second flip that fails *)

Lemma failSecond_Out b playerId (first : Pos) p e :
  JsMap.get playerId (players b) = Some p →
  cell (controller b) first.1 first.2 = Some (Some playerId) →
  failSecond playerId first e b
  = Out (inl e) (given_up playerId first p b)
        (Resolved <$> default [] (waitingForControl b !! first)).
Proof.
  intros Hp Hctrl. unfold failSecond.
  rewrite (bind_Out _ _ _ _ _ _ (relinquish_Out playerId first b Hctrl)).
  unfold rememberLingering. rewrite modify_bind.
  assert (Hp' : JsMap.get playerId
                  (players (with_lingering
                     (<[playerId := default [] (lingering (released first b) !! playerId)
                                     ++ [(first.1, first.2)]]>
                        (lingering (released first b))) (released first b)))
                = Some p) by done.
  rewrite (bind_Out_quiet _ _ _ _ _ (updatePlayer_Out _ clearCards _ _ Hp')).
  unfold throw. rewrite result_Out, board_after_Out, events_Out, app_nil_r.
  unfold given_up. by destruct first.
Qed.

(** X17. A second flip that a rule rejects. On a board in good order, let a
    player that controls its first card call [flipUp] for a second card. If
    the cell is the first card itself the call fails with [SameCardTwice];
    otherwise, if the cell is empty, with [EmptySpace] (rule 2-A); otherwise,
    if a player controls the card, with [Controlled] (rule 2-B). In the
    three cases the first card is released and its waiters are resolved, in
    the order of the queue; it is put at the end of the player's lingering
    list; the player's record is cleared; nothing else changes (the first
    card stays face up, the selected cell is untouched) and no watcher is
    notified. *)
Theorem second_flip_rejected
    (b : Board) (playerId : string) (p : Player) (first : Pos) (row col : nat) :
  Valid b → row < rows b → col < cols b →
  JsMap.get playerId (players b) = Some p →
  p_firstCard p = Some first → p_secondCard p = None →
  cell (controller b) first.1 first.2 = Some (Some playerId) →
  let fails e :=
    flipUp playerId row col b
    = Out (inl e) (given_up playerId first p b)
          (Resolved <$> default [] (waitingForControl b !! first)) in
  (first = (row, col) → fails SameCardTwice)
  ∧ (first ≠ (row, col) → cell (cards b) row col = Some None → fails EmptySpace)
  ∧ (first ≠ (row, col) → ∀ other, cell (controller b) row col = Some (Some other) →
     fails Controlled).
Proof.
  intros (Hb & _ & _) Hr Hc Hp Hfirst Hsecond Hctrl fails. unfold fails.
  rewrite (flipUp_second_flip b playerId row col p first) by done.
  unfold secondCardRules. split_and!.
  - intros Hsame. rewrite bool_decide_eq_true_2 by done.
    by apply failSecond_Out.
  - intros Hne Hempty. rewrite bool_decide_eq_false_2 by done.
    rewrite get_bind. rewrite bool_decide_eq_true_2 by done.
    by apply failSecond_Out.
  - intros Hne other Hother. rewrite bool_decide_eq_false_2 by done.
    destruct (c_ctrl b Hb row col other Hother) as (Hup & [pic Hpic] & _).
    rewrite get_bind, Hpic, Hup, Hother.
    rewrite bool_decide_eq_false_2 by done.
    rewrite bool_decide_eq_true_2 by done. cbn [default andb].
    by apply failSecond_Out.
Qed.

Lemma second_flip_rejected_witness :
  flipUp "alice" 0 0 bob_parked
  = Out (inl SameCardTwice)
        (given_up "alice" (0, 0) (mkPlayer "alice" (Some (0, 0)) None 1) bob_parked)
        [Resolved (mkDeferred "bob" 0 0)].
Proof.
  assert (Hr : 0 < rows bob_parked) by (vm_compute; lia).
  assert (Hc : 0 < cols bob_parked) by (vm_compute; lia).
  assert (Hp : JsMap.get "alice" (players bob_parked)
               = Some (mkPlayer "alice" (Some (0, 0)) None 1))
    by (vm_compute; reflexivity).
  assert (Hk : cell (controller bob_parked) 0 0 = Some (Some "alice"))
    by (vm_compute; reflexivity).
  destruct (second_flip_rejected bob_parked "alice" _ (0, 0) 0 0
              Valid_bob_parked Hr Hc Hp eq_refl eq_refl Hk) as (Hsame & _).
  rewrite (Hsame eq_refl). f_equal.
Defined.

(** ** Lingering cards *)

Lemma Down_turn_down b (pos : Pos) pic (cells : list Pos) :
  Consistent b → pos ∈ cells →
  cell (cards b) pos.1 pos.2 = Some (Some pic) →
  cell (controller b) pos.1 pos.2 = Some None →
  Down pos
    (board_after (for_each cells (λ '(row, col), flipDownIfUncontrolled row col) b)).
Proof.
  intros Hb Hin Hcard Hctrl. revert b Hb Hcard Hctrl.
  induction cells as [|[row col] cells IH]; intros b Hb Hcard Hctrl;
    [by apply elem_of_nil in Hin|].
  change (Down pos
            (board_after
               ((flipDownIfUncontrolled row col >>
                 for_each cells (λ '(row, col), flipDownIfUncontrolled row col)) b))).
  rewrite (bind_Out_quiet _ _ _ _ _
             (quiet_Out _ b (quiet_flipDownIfUncontrolled row col))).
  apply elem_of_cons in Hin as [-> | Hin].
  - pose proof (flipDownIfUncontrolled_Down b (row, col) pic Hb Hcard Hctrl) as Hdown.
    revert Hdown. apply (preserves_for_each (Down (row, col))).
    intros [r c]. apply Down_flipDownIfUncontrolled.
  - apply IH; try done.
    + by apply Consistent_flipDownIfUncontrolled.
    + by apply (cards_flipDownIfUncontrolled pos (Some (Some pic))).
    + by apply (controller_flipDownIfUncontrolled pos (Some None)).
Qed.

Lemma Down_cell_view pos b b' :
  cell_view pos b' = cell_view pos b → Down pos b → Down pos b'.
Proof. intros (_ & Hup & Hctrl)%cell_view_fields [? ?]. split; congruence. Qed.

(** X18. Rule 3-B for a lingering card. On a board in good order, let a
    player that has no recorded card call [flipUp] on an in-bounds cell. A
    card of the player's lingering list that nobody controls and that is not
    the selected cell is face down and uncontrolled when the call ends,
    however it ends, and the player's lingering list is gone. *)
Theorem lingering_cards_are_turned_down
    (b : Board) (playerId : string) (p : Player) (row col : nat) (pos : Pos)
    (pic : string) :
  Valid b → row < rows b → col < cols b →
  JsMap.get playerId (players b) = Some p → p_firstCard p = None →
  pos ∈ default [] (lingering b !! playerId) → pos ≠ (row, col) →
  cell (cards b) pos.1 pos.2 = Some (Some pic) →
  cell (controller b) pos.1 pos.2 = Some None →
  let b' := board_after (flipUp playerId row col b) in
  Down pos b' ∧ cell (cards b') pos.1 pos.2 = Some (Some pic)
  ∧ lingering b' !! playerId = None.
Proof.
  intros (Hb & _ & Hpos) Hr Hc Hp Hfirst Hin Hne Hcard Hctrl b'.
  destruct (c_players b Hb playerId p Hp) as [Hid Hsecond]. specialize (Hsecond Hfirst).
  set (b1 := board_after (cleanLingering playerId b)).
  assert (Hflip : b' = board_after (firstCardRules playerId row col b1)).
  { unfold b'.
    rewrite (flipUp_first_flip b playerId row col p) by (try done; by left).
    by rewrite (bind_Out_quiet _ _ _ _ _
                  (cleanupPreviousPlay_no_cards b playerId p Hp Hid Hfirst Hsecond)). }
  assert (Hdown1 : Down pos b1 ∧ cell (cards b1) pos.1 pos.2 = Some (Some pic)
                   ∧ lingering b1 !! playerId = None).
  { unfold b1, cleanLingering. rewrite board_after_get_bind.
    destruct (lingering b !! playerId) as [[|lingers cells]|] eqn:Hl;
      try (by apply elem_of_nil in Hin).
    simpl in Hin.
    rewrite (bind_Out_quiet _ _ _ _ _ (quiet_Out _ b (quiet_turn_down (lingers :: cells)))).
    pose proof (Down_turn_down b pos pic (lingers :: cells) Hb Hin Hcard Hctrl) as Hdown.
    assert (Hcard' : cell (cards (board_after
                        (for_each (lingers :: cells)
                           (λ '(row, col), flipDownIfUncontrolled row col) b)))
                       pos.1 pos.2 = Some (Some pic)).
    { revert Hcard.
      apply (preserves_for_each (λ b, cell (cards b) pos.1 pos.2 = Some (Some pic))).
      intros [r c]. apply cards_flipDownIfUncontrolled. }
    set (s := board_after (for_each (lingers :: cells)
                             (λ '(row, col), flipDownIfUncontrolled row col) b)) in *.
    clearbody s. unfold modify. rewrite board_after_Out. split_and!.
    - exact Hdown.
    - exact Hcard'.
    - apply lookup_delete_eq. }
  destruct Hdown1 as (Hdown & Hcard1 & Hling).
  pose proof (cell_view_firstCardRules pos (cell_view pos b1) playerId row col Hne
                b1 eq_refl) as Hview.
  rewrite Hflip. split_and!.
  - by apply (Down_cell_view pos b1).
  - apply cell_view_fields in Hview as (-> & _). exact Hcard1.
  - revert Hling.
    apply (λ H : preserves (λ b, lingering b !! playerId = None)
                   (firstCardRules playerId row col), H b1).
    unfold firstCardRules, notifyChange. frame.
Qed.

Lemma lingering_cards_are_turned_down_witness :
  cell (faceUp bob_lingers) 1 0 = Some true
  ∧ Down (1, 0) (board_after (flipUp "bob" 1 1 bob_lingers))
  ∧ lingering (board_after (flipUp "bob" 1 1 bob_lingers)) !! "bob" = None.
Proof.
  assert (Hr : 1 < rows bob_lingers) by (vm_compute; lia).
  assert (Hc : 1 < cols bob_lingers) by (vm_compute; lia).
  assert (Hp : JsMap.get "bob" (players bob_lingers) = Some (mkPlayer "bob" None None 1))
    by (vm_compute; reflexivity).
  assert (Hin : (1, 0) ∈ default [] (lingering bob_lingers !! "bob"))
    by (vm_compute; left).
  assert (Hcard : cell (cards bob_lingers) 1 0 = Some (Some "B"))
    by (vm_compute; reflexivity).
  assert (Hfree : cell (controller bob_lingers) 1 0 = Some None)
    by (vm_compute; reflexivity).
  assert (Hup : cell (faceUp bob_lingers) 1 0 = Some true)
    by (vm_compute; reflexivity).
  destruct (lingering_cards_are_turned_down bob_lingers "bob" _ 1 1 (1, 0) "B"
              Valid_bob_lingers Hr Hc Hp eq_refl Hin ltac:(discriminate) Hcard Hfree)
    as (Hdown & _ & Hling).
  split_and!; [exact Hup | exact Hdown | exact Hling].
Defined.

(** ** Rule 3-A: the guard of the removal *)

Lemma cleanCards_3A b pid (first second : Pos) pic :
  in_bounds b first → in_bounds b second →
  cell (cards b) first.1 first.2 = Some (Some pic) →
  cell (cards b) second.1 second.2 = Some (Some pic) →
  cleanCards pid (Some first) (Some second) b
  = (removeIfControlled pid first >> removeIfControlled pid second) b.
Proof.
  intros [Hr1 Hc1] [Hr2 Hc2] Hpic1 Hpic2. unfold cleanCards.
  rewrite (bind_Out_quiet _ _ _ _ _ (pictureAt_cell b first.1 first.2 _ Hr1 Hc1 Hpic1)).
  rewrite (bind_Out_quiet _ _ _ _ _ (pictureAt_cell b second.1 second.2 _ Hr2 Hc2 Hpic2)).
  by rewrite !bool_decide_eq_true_2.
Qed.

(** [removeIfControlled] leaves alone a cell that the player does not
    control. *)
Lemma Untouched_removeIfControlled pos card up ctrl w pid (target : Pos) :
  ctrl ≠ Some (Some pid) →
  preserves (Untouched pos (card, up, ctrl) w) (removeIfControlled pid target).
Proof.
  intros Hctrl. destruct (decide (target = pos)) as [->|Hne].
  - intros b [Hview Hwait].
    apply cell_view_fields in Hview as (Hc & Hu & Hk).
    unfold removeIfControlled. rewrite board_after_get_bind.
    destruct (cards b !! pos.1); [|by split; [apply cell_view_fields|]].
    destruct (controller b !! pos.1) as [ctrlRow|] eqn:Hrow;
      [|by split; [apply cell_view_fields|]].
    destruct (faceUp b !! pos.1); [|by split; [apply cell_view_fields|]].
    rewrite <- (cell_row _ _ pos.2 _ Hrow), Hk.
    rewrite bool_decide_eq_false_2 by done.
    by split; [apply cell_view_fields|].
  - assert (H1 : (target.1, target.2) ≠ (pos.1, pos.2)) by (by apply pair_ne).
    assert (H2 : (target.1, target.2) ≠ pos) by (by destruct target).
    unfold removeIfControlled, notifyWaiters.
    preserves_structure untouched_leaf.
Qed.

(** X19. The guard of rule 3-A. On a board in good order, let a player that
    has recorded two cards with the same picture call [flipUp]. A card of the
    pair that the player does not control any more (it has been turned down
    by [flipDown], say) is not removed: if it is neither the selected cell
    nor on the player's lingering list, its picture, its face, its controller
    and its queue of waiters are what they were when the call ends. *)
Theorem matched_card_is_kept_when_not_controlled
    (b : Board) (playerId : string) (p : Player) (first second : Pos) (pic : string)
    (row col : nat) (pos : Pos) :
  Valid b → row < rows b → col < cols b →
  JsMap.get playerId (players b) = Some p →
  p_firstCard p = Some first → p_secondCard p = Some second →
  cell (cards b) first.1 first.2 = Some (Some pic) →
  cell (cards b) second.1 second.2 = Some (Some pic) →
  pos = first ∨ pos = second →
  cell (controller b) pos.1 pos.2 ≠ Some (Some playerId) →
  pos ≠ (row, col) → pos ∉ default [] (lingering b !! playerId) →
  let b' := board_after (flipUp playerId row col b) in
  cell (cards b') pos.1 pos.2 = cell (cards b) pos.1 pos.2
  ∧ cell (faceUp b') pos.1 pos.2 = cell (faceUp b) pos.1 pos.2
  ∧ cell (controller b') pos.1 pos.2 = cell (controller b) pos.1 pos.2
  ∧ waitingForControl b' !! pos = waitingForControl b !! pos.
Proof.
  intros (Hb & _ & Hpos) Hr Hc Hp Hfirst Hsecond Hpic1 Hpic2 Hcell Hctrl Hne Hnot b'.
  set (I := Untouched pos (cell (cards b) pos.1 pos.2, cell (faceUp b) pos.1 pos.2,
                           cell (controller b) pos.1 pos.2)
              (waitingForControl b !! pos)).
  assert (Hkept : I b'); [|destruct Hkept as [Hview Hwait];
                           by apply cell_view_fields in Hview as (? & ? & ?)].
  assert (Hstart : I b) by done.
  destruct (c_players b Hb playerId p Hp) as [Hid _].
  unfold b'.
  rewrite (flipUp_first_flip b playerId row col p) by (try done; right; by rewrite Hsecond).
  apply preserves_bind_at; [|intros _; by apply Untouched_firstCardRules].
  unfold cleanupPreviousPlay. rewrite (thePlayer_bind _ _ _ _ Hp).
  unfold getId, getFirstCard, getSecondCard. rewrite Hid, Hfirst, Hsecond.
  rewrite (bind_Out_quiet _ _ _ _ _ (cleanLingering_Out b playerId)).
  pose proof (Untouched_cleanLingering pos _ _ playerId b Hnot Hstart) as H1.
  assert (Hsame : same_but_faces b (board_after (cleanLingering playerId b))).
  { apply same_but_faces_cleanLingering. by unfold same_but_faces. }
  destruct Hsame as (Hrows & Hcols & Hcards & _).
  set (b1 := board_after (cleanLingering playerId b)) in *.
  apply preserves_bind_at; [|intros _; untouched_leaf].
  rewrite (cleanCards_3A b1 playerId first second pic).
  - apply preserves_bind_at; [|intros _]; by apply Untouched_removeIfControlled.
  - unfold in_bounds. rewrite Hrows, Hcols. apply (Hpos playerId p first Hp). by left.
  - unfold in_bounds. rewrite Hrows, Hcols. apply (Hpos playerId p second Hp). by right.
  - by rewrite Hcards.
  - by rewrite Hcards.
Qed.

Lemma Valid_pair_broken : Valid pair_broken.
Proof.
  assert (Heq : pair_broken = with_changeResolvers [] (turned_down 0 0 alice_matched))
    by (vm_compute; reflexivity).
  rewrite Heq.
  apply (Valid_turned_down alice_matched 0 0 (Some "A") Valid_alice_matched).
  vm_compute. reflexivity.
Qed.

Lemma matched_card_is_kept_when_not_controlled_witness :
  cell (cards (board_after (flipUp "alice" 1 0 pair_broken))) 0 0 = Some (Some "A")
  ∧ cell (cards (board_after (flipUp "alice" 1 0 pair_broken))) 0 1 = Some None.
Proof.
  assert (Hr : 1 < rows pair_broken) by (vm_compute; lia).
  assert (Hc : 0 < cols pair_broken) by (vm_compute; lia).
  assert (Hp : JsMap.get "alice" (players pair_broken)
               = Some (mkPlayer "alice" (Some (0, 0)) (Some (0, 1)) 2))
    by (vm_compute; reflexivity).
  assert (Hpic1 : cell (cards pair_broken) 0 0 = Some (Some "A"))
    by (vm_compute; reflexivity).
  assert (Hpic2 : cell (cards pair_broken) 0 1 = Some (Some "A"))
    by (vm_compute; reflexivity).
  assert (Hfree : cell (controller pair_broken) 0 0 ≠ Some (Some "alice"))
    by (vm_compute; discriminate).
  assert (Hnot : (0, 0) ∉ default [] (lingering pair_broken !! "alice")).
  { vm_compute. apply not_elem_of_nil. }
  destruct (matched_card_is_kept_when_not_controlled pair_broken "alice" _
              (0, 0) (0, 1) "A" 1 0 (0, 0) Valid_pair_broken Hr Hc Hp eq_refl eq_refl
              Hpic1 Hpic2 (or_introl eq_refl) Hfree ltac:(discriminate) Hnot)
    as (Hcard & _).
  cbn [fst snd] in Hcard. split.
  - by rewrite Hcard.
  - clear. vm_compute. reflexivity.
Defined.

(** ** The empty file *)

Section empty_file.
Import Text.

Lemma replace_crlf_empty s : replace_crlf s = "" → s = "".
Proof.
destruct s as [|a [|b s]]; [done | done |]. simpl.
by destruct (Ascii.eqb a CR && Ascii.eqb b LF).
Qed.

Lemma replace_cr_empty s : replace_cr s = "" → s = "".
Proof. by destruct s. Qed.

Lemma file_lines_empty text : file_lines text = [] ↔ text = "".
Proof.
split; [|by intros ->].
unfold file_lines. set (norm := replace_cr (replace_crlf text)).
pose proof (join_split_lf norm) as Hjoin.
pose proof (split_lf_not_nil norm) as Hne.
case_bool_decide as Hlast; [|done].
destruct (split_lf norm) as [|l ls] using rev_ind; [done|]. clear IHls.
rewrite removelast_last. intros ->. rewrite last_snoc in Hlast.
injection Hlast as ->. simpl in Hjoin.
apply replace_crlf_empty, replace_cr_empty. symmetry. exact Hjoin.
Qed.

End empty_file.

(** X21. [parseFromFile] fails with [InvalidFile] ('empty file') exactly
    when the text is empty: a text of one line feed, or of blanks, is not an
    empty file for it (it has a header line, a blank one). *)
Theorem parseFromFile_empty_file (text : string) :
  parseFromFile text = inl InvalidFile ↔ text = "".
Proof.
  rewrite <- file_lines_empty. unfold parseFromFile.
  destruct (file_lines text) as [|headerLine cardLines]; [done|].
  split; [|done].
  case_bool_decide; [done|].
  destruct (Text.match_header _) as [[m1 m2]|]; [|done].
  destruct (Text.Number m1) as [nrows|]; [|done].
  destruct (Text.Number m2) as [ncols|]; [|done].
  case_bool_decide; [done|]. case_bool_decide; [done|].
  destruct (read_cards 0 cardLines) as [e|layout] eqn:Hcards.
  - intros [= ->]. by apply read_cards_error in Hcards as (? & ? & ? & _).
  - unfold newBoard. by destruct (checkRep _).
Qed.

(** ** C2: a matched pair at the player's next flip (rule 3-A) *)










(** ** The verdicts of [requireInBounds] *)

Lemma within_index n x : within n x → x = number_of_nat (index x) ∧ index x < n.
Proof.
  destruct x as [z|]; [|done]. simpl. intros Hz. unfold number_of_nat.
  rewrite Z2Nat.id by lia. split; [done | lia].
Qed.

Lemma within_nat n (k : nat) : within n k ↔ k < n.
Proof. simpl. lia. Qed.

Lemma requireInBounds_not_integers row col b :
  ¬ (is_integer row ∧ is_integer col) →
  requireInBounds row col b = Out (inl NotIntegers) b [].
Proof. destruct row, col; try done. intros H. by destruct H. Qed.

Lemma requireInBounds_outside row col b :
  is_integer row → is_integer col →
  ¬ (within (rows b) row ∧ within (cols b) col) →
  requireInBounds row col b = Out (inl OutOfBounds) b [].
Proof.
  destruct row as [r|], col as [c|]; try done. simpl. intros _ _ Hout.
  unfold requireInBounds. rewrite bool_decide_eq_true_2; [done | lia].
Qed.

(** The indices are no integers, or they are integers outside the board, or
    they are natural numbers inside it. *)
Lemma indices_cases (row col : JsNumber) b :
  ¬ (is_integer row ∧ is_integer col)
  ∨ (is_integer row ∧ is_integer col ∧ ¬ (within (rows b) row ∧ within (cols b) col))
  ∨ (within (rows b) row ∧ within (cols b) col).
Proof.
  destruct row as [r|], col as [c|]; try (left; by intros [? ?]).
  right. simpl.
  destruct (decide ((0 ≤ r < Z.of_nat (rows b))%Z ∧ (0 ≤ c < Z.of_nat (cols b))%Z));
    [by right | by left].
Qed.

(** ** The failures of [flipUp], for all numbers *)

(** X2. On a board in good order a call of [flipUp] that fails, fails in one
    of these ways only: the indices are not both integers; or they are
    integers and not both inside the board; or they are inside the board and
    the player is unknown; or the call passes these checks and a rule of the
    game rejects the flip (empty space, controlled card, same card twice). In
    particular no assertion of [checkRep] fails. *)
Theorem flipUp_fails_as_documented
    (b : Board) (playerId : string) (row col : JsNumber) (e : Error) :
  Valid b → result (flipUp playerId row col b) = inl e →
  (e = NotIntegers ∧ ¬ (is_integer row ∧ is_integer col))
  ∨ (e = OutOfBounds ∧ is_integer row ∧ is_integer col
     ∧ ¬ (within (rows b) row ∧ within (cols b) col))
  ∨ (e = UnknownPlayer ∧ within (rows b) row ∧ within (cols b) col
     ∧ JsMap.has playerId (players b) = false)
  ∨ (rule_failure e ∧ within (rows b) row ∧ within (cols b) col
     ∧ JsMap.has playerId (players b) = true).
Proof.
  intros Hvalid Hres.
  destruct (indices_cases row col b) as [Hnot | [(Hi1 & Hi2 & Hout) | [Hin1 Hin2]]].
  - left. split; [|done].
    unfold flipUp in Hres.
    rewrite (bind_Out_throw _ _ _ _ _ _ (requireInBounds_not_integers row col b Hnot))
      in Hres.
    by injection Hres as <-.
  - right; left. split; [|done].
    unfold flipUp in Hres.
    rewrite (bind_Out_throw _ _ _ _ _ _ (requireInBounds_outside row col b Hi1 Hi2 Hout))
      in Hres.
    by injection Hres as <-.
  - right; right.
    destruct (within_index _ _ Hin1) as [Hrow Hr].
    destruct (within_index _ _ Hin2) as [Hcol Hc].
    rewrite Hrow, Hcol in Hres.
    destruct (flipUp_failure_of_indices b playerId (index row) (index col) e Hvalid Hres)
      as [[_ Hout] | [(-> & _ & _ & Hreg) | (He & _ & _ & Hreg)]].
    + lia.
    + by left.
    + by right.
Qed.

Lemma flipUp_fails_as_documented_witness :
  result (flipUp "alice" NotInteger 0 bob_parked) = inl NotIntegers
  ∧ result (flipUp "alice" (Integer (-1)) 0 bob_parked) = inl OutOfBounds
  ∧ result (flipUp "alice" 0 0 bob_parked) = inl SameCardTwice
  ∧ rule_failure SameCardTwice.
Proof.
  assert (Hres : result (flipUp "alice" 0 0 bob_parked) = inl SameCardTwice)
    by (vm_compute; reflexivity).
  split_and!; [vm_compute; reflexivity | vm_compute; reflexivity | exact Hres |].
  destruct (flipUp_fails_as_documented bob_parked "alice" 0 0 SameCardTwice
              Valid_bob_parked Hres) as [[[=] _] | [[[=] _] | [[[=] _] | [He _]]]].
  exact He.
Defined.

(** ** The queries *)

(** X20. The three queries on a cell of a consistent board. When the indices
    are not both integers each of them fails with [NotIntegers]; when they
    are integers and not both inside the board, with [OutOfBounds]; when they
    are inside the board each of them returns what the grid holds at the cell
    (the row is there: no [InvalidRow]). In no case is the board changed or
    anything fired. *)
Theorem queries_check_the_bounds (b : Board) (row col : JsNumber) :
  Consistent b →
  let fail (e : Error) :=
    pictureAt row col b = Out (inl e) b []
    ∧ isFaceUp row col b = Out (inl e) b []
    ∧ controllerAt row col b = Out (inl e) b [] in
  (¬ (is_integer row ∧ is_integer col) → fail NotIntegers)
  ∧ (is_integer row → is_integer col →
     ¬ (within (rows b) row ∧ within (cols b) col) → fail OutOfBounds)
  ∧ (within (rows b) row → within (cols b) col →
     ∃ card up ctrl,
       cell (cards b) (index row) (index col) = Some card
       ∧ cell (faceUp b) (index row) (index col) = Some up
       ∧ cell (controller b) (index row) (index col) = Some ctrl
       ∧ pictureAt row col b = Out (inr card) b []
       ∧ isFaceUp row col b = Out (inr up) b []
       ∧ controllerAt row col b = Out (inr ctrl) b []).
Proof.
  intros Hb fail. split_and!.
  - intros Hnot. unfold fail, pictureAt, isFaceUp, controllerAt.
    by rewrite !(bind_Out_throw _ _ _ _ _ _ (requireInBounds_not_integers row col b Hnot)).
  - intros Hi1 Hi2 Hout. unfold fail, pictureAt, isFaceUp, controllerAt.
    by rewrite !(bind_Out_throw _ _ _ _ _ _
                   (requireInBounds_outside row col b Hi1 Hi2 Hout)).
  - intros Hin1 Hin2.
    destruct (within_index _ _ Hin1) as [Hrow Hr].
    destruct (within_index _ _ Hin2) as [Hcol Hc].
    destruct (Consistent_cells b (index row) (index col) Hb Hr Hc)
      as (card & up & ctrl & H1 & H2 & H3).
    exists card, up, ctrl. split_and!; try done; rewrite Hrow, Hcol.
    + by apply pictureAt_cell.
    + by apply isFaceUp_cell.
    + by apply controllerAt_cell.
Qed.

Lemma queries_check_the_bounds_witness :
  pictureAt NotInteger 0 bob_parked = Out (inl NotIntegers) bob_parked []
  ∧ isFaceUp 2 0 bob_parked = Out (inl OutOfBounds) bob_parked []
  ∧ controllerAt 0 0 bob_parked = Out (inr (Some "alice")) bob_parked [].
Proof.
  destruct (queries_check_the_bounds bob_parked NotInteger 0 (proj1 Valid_bob_parked))
    as (Hnot & _ & _).
  destruct (queries_check_the_bounds bob_parked 2 0 (proj1 Valid_bob_parked))
    as (_ & Hout & _).
  destruct (queries_check_the_bounds bob_parked 0 0 (proj1 Valid_bob_parked))
    as (_ & _ & Hin).
  destruct Hnot as (Hpic & _); [by intros [? _]|].
  destruct Hout as (_ & Hface & _);
    [done | done | intros [Hw _]; apply within_nat in Hw; vm_compute in Hw; lia |].
  destruct Hin as (card & up & ctrl & _ & _ & Hctrl & _ & _ & Hquery);
    [apply within_nat; vm_compute; lia | apply within_nat; vm_compute; lia |].
  split_and!; [exact Hpic | exact Hface |].
  rewrite Hquery. vm_compute in Hctrl. by injection Hctrl as <-.
Defined.
